(** * amplify-backend-gen: the CloudFormation template compiler

    A shallow embedding of [src/types.ts] (the permission / environment
    variable model) and of [buildCloudFormationTemplate.ts] (the capability
    providers and the template assembler), followed by the properties of
    the compiled document.

    Conventions of the embedding.
    - A JavaScript value is a tree ([value]).  An object is the list of its
      own properties in the order JavaScript enumerates them: the keys that
      are array indices first, in ascending order, then the other keys in
      the order they were created.  Writing a property that exists keeps
      its place.
    - Every object inherits from [Object.prototype].  Inherited members are
      not properties of the tree; the places where the result of the code
      depends on them are written out.  In lodash's [merge] a source
      property [__proto__] holding an object is not copied, and an
      [undefined] source value is not assigned under a name the destination
      inherits; an assignment [object["__proto__"] = v], as [fromPairs]
      makes, adds no own property.
    - Strings are byte strings.  [toUpperCase] is [String.prototype.toUpperCase]
      on strings of ASCII characters; the Unicode mapping of other
      characters is not modelled, and the statements that depend on an
      upper-cased name assume [ascii_only] of it.
    - Class instances ([ResourceOutputReference], [Parameter],
      [TableNameVariable], ...) are values of the matching record or
      constructor, and an [instanceof] test is a [match].  The class
      [Parameter] is called [Param] here, its name being a reserved word.
    - Object identity is observed at one place only, lodash's [uniq] over
      the collected parameter objects.  The objects that reach it carry the
      heap address they were allocated at ([Ref]); allocation is threaded
      through the [Alloc] monad. *)

From Stdlib Require Import String Ascii List ZArith Bool Arith Lia.
Import ListNotations.
Open Scope list_scope.
Open Scope string_scope.

Set Implicit Arguments.
Set Warnings "-register-all".

(** ** JavaScript values *)

Inductive value : Type :=
| VUndefined
| VNull
| VString (s : string)
| VNumber (z : Z)
| VBool (b : bool)
| VArray (elems : list value)
| VObject (fields : list (string * value)).

Definition fields := list (string * value).

(** [object[key]] restricted to own properties. *)
Fixpoint get_field (k : string) (fs : fields) : option value :=
  match fs with
  | [] => None
  | (k', v) :: rest => if String.eqb k k' then Some v else get_field k rest
  end.

(** The array index a property key spells: the canonical decimal numeral
    of an integer below [2^32 - 1]; [None] for every other key. *)
Definition digit (c : ascii) : option N :=
  let n := N_of_ascii c in
  if ((48 <=? n) && (n <=? 57))%N then Some (n - 48)%N else None.

Fixpoint decimal (s : string) (acc : N) : option N :=
  match s with
  | EmptyString => Some acc
  | String c rest =>
      match digit c with
      | Some d => decimal rest (10 * acc + d)%N
      | None => None
      end
  end.

Definition array_index (k : string) : option N :=
  match k with
  | EmptyString => None
  | String c rest =>
      match digit c, rest with
      | None, _ => None
      | Some 0%N, EmptyString => Some 0%N
      | Some 0%N, String _ _ => None
      | Some _, _ =>
          match decimal k 0 with
          | Some n => if (n <? 4294967295)%N then Some n else None
          | None => None
          end
      end
  end.

(** [k] is enumerated before [k'] whenever both are own properties: [k] is
    an array index, and [k'] is a greater one or none. *)
Definition enumerated_before (k k' : string) : bool :=
  match array_index k, array_index k' with
  | Some n, Some n' => (n <? n')%N
  | Some _, None => true
  | None, _ => false
  end.

(** A new own property takes its place in the enumeration. *)
Fixpoint insert_field (k : string) (v : value) (fs : fields) : fields :=
  match fs with
  | [] => [(k, v)]
  | (k', v') :: rest =>
      if enumerated_before k k' then (k, v) :: (k', v') :: rest
      else (k', v') :: insert_field k v rest
  end.

(** The value of an own property is replaced where it stands. *)
Fixpoint replace_field (k : string) (v : value) (fs : fields) : fields :=
  match fs with
  | [] => []
  | (k', v') :: rest =>
      if String.eqb k k' then (k, v) :: rest
      else (k', v') :: replace_field k v rest
  end.

(** [v] is written to the own property [k] of an object: what
    [Object.defineProperty], the copy of a property by an object spread,
    and an assignment to a key other than [__proto__] do. *)
Definition set_field (k : string) (v : value) (fs : fields) : fields :=
  match get_field k fs with
  | Some _ => replace_field k v fs
  | None => insert_field k v fs
  end.

(** [object[key] = v]: an assignment to [__proto__] goes to the setter the
    object inherits, and leaves the own properties as they are. *)
Definition assign_field (k : string) (v : value) (fs : fields) : fields :=
  if String.eqb k "__proto__" then fs else set_field k v fs.

Definition keys (fs : fields) : list string := map fst fs.

(** Number of properties of [fs] stored under the key [k]. *)
Definition count_key (k : string) (fs : fields) : nat :=
  count_occ string_dec (keys fs) k.

(** [{...a, ...b}]: the properties of [b] are written over those of [a],
    in the order [b] enumerates them. *)
Definition spread (a b : fields) : fields :=
  fold_left (fun acc kv => set_field (fst kv) (snd kv) acc) b a.

(** [v.k] for an object [v]. *)
Definition prop (k : string) (v : value) : option value :=
  match v with
  | VObject fs => get_field k fs
  | _ => None
  end.

(** [v.k1.k2...kn]. *)
Fixpoint lookup_path (path : list string) (v : value) : option value :=
  match path with
  | [] => Some v
  | k :: rest =>
      match prop k v with
      | Some v' => lookup_path rest v'
      | None => None
      end
  end.

(** ** Heap addresses for the objects whose identity is observed *)

Definition loc := nat.

Record Ref (A : Type) : Type := mkRef { addr : loc; deref : A }.

Definition Alloc (A : Type) : Type := loc -> A * loc.

Definition ret {A} (a : A) : Alloc A := fun n => (a, n).

Definition bind {A B} (m : Alloc A) (k : A -> Alloc B) : Alloc B :=
  fun n => let (a, n') := m n in k a n'.

(** Evaluation of an object literal: a new object at a fresh address. *)
Definition new {A} (a : A) : Alloc (Ref A) := fun n => (mkRef n a, S n).

Definition evalAlloc {A} (m : Alloc A) : A := fst (m 0).

Notation "x <- m ;; k" := (bind m (fun x => k))
  (at level 61, m at next level, right associativity).

(** [array.map(f)] for an allocating [f]: left to right. *)
Fixpoint mapM {A B} (f : A -> Alloc B) (l : list A) : Alloc (list B) :=
  match l with
  | [] => ret []
  | a :: rest => b <- f a ;; bs <- mapM f rest ;; ret (b :: bs)
  end.

(** ** The lodash functions the compiler imports

    lodash is a dependency of the repository, not part of it; these follow
    its documentation and [lodash.js] 4.17.21. *)

Module Lodash.

(** [flatten(array)]: one level; every element is an array here. *)
Definition flatten {A} (ls : list (list A)) : list A := concat ls.

(** [uniq(array)]: an element is kept unless the result already holds one
    that is the same by SameValueZero, which for objects is identity. *)
Definition uniq {A} (l : list (Ref A)) : list (Ref A) :=
  fold_left
    (fun result x =>
       if existsb (fun y => Nat.eqb (addr y) (addr x)) result
       then result else (result ++ [x])%list)
    l [].

(** [fromPairs(pairs)]: [result[pair[0]] = pair[1]] for each pair in turn. *)
Definition fromPairs (pairs : list (string * value)) : fields :=
  fold_left (fun result kv => assign_field (fst kv) (snd kv) result) pairs [].

(** [isArrayLikeObject(v)] for an object that is not an array: it has a
    [length] that is a valid array length (at most [MAX_SAFE_INTEGER]). *)
Definition isArrayLikeObject (fs : fields) : bool :=
  match get_field "length" fs with
  | Some (VNumber z) => ((0 <=? z) && (z <=? 9007199254740991))%Z
  | _ => false
  end.

(** [key in {}]: the names every object inherits from [Object.prototype]. *)
Definition inherited (k : string) : bool :=
  existsb (String.eqb k)
    [ "__proto__"; "constructor"; "hasOwnProperty"; "isPrototypeOf";
      "propertyIsEnumerable"; "toLocaleString"; "toString"; "valueOf";
      "__defineGetter__"; "__defineSetter__"; "__lookupGetter__";
      "__lookupSetter__" ].

(** The source properties [baseMerge] leaves unwritten whatever the
    destination holds:
    - an object or an array under [__proto__]: [baseMergeDeep] reads both
      sides through [safeGet], which answers [undefined] for this key, and
      [assignMergeValue] assigns [undefined] only when [key in object] is
      false;
    - [undefined] under an inherited name, for the same reason.
    (Under an own property [undefined] changes nothing either; that case
    is in [mergeValue].) *)
Definition unwritten (k : string) (sv : value) : bool :=
  match sv with
  | VObject _ | VArray _ => String.eqb k "__proto__"
  | VUndefined => inherited k
  | _ => false
  end.

(** [merge(object, ...sources)].

    [mergeValue sv objValue] is what [baseMerge]'s loop body leaves under a
    key whose source value is [sv] and whose destination value is
    [objValue] ([None]: the destination has no such own property; an
    inherited member, being a function, counts for nothing):
    - a plain object is merged recursively into the destination's object,
      or into a new [{}] when the destination holds no object;
    - an array is merged index by index into the destination's array, or
      into a new [[]];
    - [undefined] is skipped when the destination has the key
      ([assignMergeValue]);
    - any other value is assigned.
    The result is [None] where lodash leaves the trees of this model: a
    plain object merged onto an array (the properties would be attached to
    the array object), and an array merged onto an array-like object.  The
    assembler does neither ([cfTemplate_defined]). *)
Fixpoint mergeValue (sv : value) (objValue : option value) {struct sv}
  : option value :=
  match sv with
  | VObject sfs =>
      let newValue :=
        match objValue with
        | Some (VArray _) => None
        | Some (VObject fs) => Some fs
        | _ => Some []
        end in
      match newValue with
      | None => None
      | Some fs =>
          option_map VObject
            ((fix mergeFields (sfs : fields) (fs : fields) : option fields :=
                match sfs with
                | [] => Some fs
                | (k, v) :: rest =>
                    if unwritten k v then mergeFields rest fs
                    else
                      match mergeValue v (get_field k fs) with
                      | Some v' => mergeFields rest (set_field k v' fs)
                      | None => None
                      end
                end) sfs fs)
      end
  | VArray svs =>
      let newValue :=
        match objValue with
        | Some (VArray vs) => Some vs
        | Some (VObject fs) => if isArrayLikeObject fs then None else Some []
        | _ => Some []
        end in
      match newValue with
      | None => None
      | Some vs =>
          option_map VArray
            ((fix mergeElems (svs : list value) (vs : list value)
                : option (list value) :=
                match svs with
                | [] => Some vs
                | v :: rest =>
                    match mergeValue v (hd_error vs) with
                    | Some v' =>
                        option_map (cons v') (mergeElems rest (tl vs))
                    | None => None
                    end
                end) svs vs)
      end
  | VUndefined =>
      match objValue with
      | Some v => Some v
      | None => Some VUndefined
      end
  | _ => Some sv
  end.

(** The loop of [baseMerge] over the properties of a source object. *)
Fixpoint mergeFields (sfs : fields) (fs : fields) : option fields :=
  match sfs with
  | [] => Some fs
  | (k, v) :: rest =>
      if unwritten k v then mergeFields rest fs
      else
        match mergeValue v (get_field k fs) with
        | Some v' => mergeFields rest (set_field k v' fs)
        | None => None
        end
  end.

(** The same loop over the indices of a source array; index [i] only
    touches element [i], and the indices below it are filled before. *)
Fixpoint mergeElems (svs : list value) (vs : list value)
  : option (list value) :=
  match svs with
  | [] => Some vs
  | v :: rest =>
      match mergeValue v (hd_error vs) with
      | Some v' => option_map (cons v') (mergeElems rest (tl vs))
      | None => None
      end
  end.

Definition baseMerge (object source : value) : option value :=
  match object, source with
  | VObject fs, VObject sfs => option_map VObject (mergeFields sfs fs)
  | VArray vs, VArray svs => option_map VArray (mergeElems svs vs)
  | _, _ => None
  end.

Definition merge (object : value) (sources : list value) : option value :=
  fold_left
    (fun acc source =>
       match acc with Some o => baseMerge o source | None => None end)
    sources (Some object).

(** [uniqBy(array, iteratee)]: an element is kept unless the result holds
    one with the same computed value (strings here). *)
Definition uniqBy {A} (iteratee : A -> string) (l : list A) : list A :=
  fold_left
    (fun result x =>
       if existsb (fun y => String.eqb (iteratee y) (iteratee x)) result
       then result else (result ++ [x])%list)
    l [].

(** [result[key].push(value)] when [result] has the key, and
    [result[key] = [value]] otherwise.  The keys [buildFunction] groups by
    hold a ["-"]: none spells an array index, and a new key is enumerated
    last. *)
Fixpoint push_group {A} (key : string) (x : A) (result : list (string * list A))
  : list (string * list A) :=
  match result with
  | [] => [(key, [x])]
  | (k, g) :: rest =>
      if String.eqb key k then (k, (g ++ [x])%list) :: rest
      else (k, g) :: push_group key x rest
  end.

(** [groupBy(collection, iteratee)]: an object from each computed key to
    the array of the elements that compute it, in their order. *)
Definition groupBy {A} (iteratee : A -> string) (l : list A)
  : list (string * list A) :=
  fold_left (fun result x => push_group (iteratee x) x result) l [].

End Lodash.

(** [JSON.stringify] as far as the tree goes (the text itself is not
    modelled): a property whose value is [undefined] is left out, an
    [undefined] array element is written [null]. *)
Fixpoint stringify (v : value) : value :=
  match v with
  | VObject fs =>
      VObject
        ((fix props (fs : fields) : fields :=
            match fs with
            | [] => []
            | (k, VUndefined) :: rest => props rest
            | (k, v) :: rest => (k, stringify v) :: props rest
            end) fs)
  | VArray vs =>
      VArray (map (fun v =>
                     match v with
                     | VUndefined => VNull
                     | _ => stringify v
                     end) vs)
  | _ => v
  end.

(** Object and array literals. *)
Coercion VString : string >-> value.

Notation "k ~> v" := (k, (v : value)) (at level 70, no associativity).
Notation "'obj' [ ]" := (VObject nil).
Notation "'obj' [ x ; .. ; y ]" := (VObject (cons x .. (cons y nil) ..)).
Notation "'arr' [ ]" := (VArray nil).
Notation "'arr' [ x ; .. ; y ]" :=
  (VArray (cons (x : value) .. (cons (y : value) nil) ..)).

(** [s.toUpperCase()] for a string [s] of ASCII characters: the letters a
    to z become A to Z and nothing else changes.  On a string with other
    characters JavaScript applies the Unicode mapping, which is not
    modelled: what is stated of an upper-cased name assumes [ascii_only]
    of it. *)
Definition upper (c : ascii) : ascii :=
  let n := nat_of_ascii c in
  if ((97 <=? n) && (n <=? 122))%nat then ascii_of_nat (n - 32)%nat else c.

Fixpoint toUpperCase (s : string) : string :=
  match s with
  | EmptyString => EmptyString
  | String c rest => String (upper c) (toUpperCase rest)
  end.

(** ** types.ts *)

Module ResourceOutputReference.
Record t : Type := mk { category : string; resource : string; output : string }.
End ResourceOutputReference.

Module Table.
(** [ApiTable]; the tag [type: "apiTable"] is constant. *)
Record t : Type := mk { apiName : string; tableName : string }.
End Table.

Definition apiTableOutputReference (table : Table.t)
  : ResourceOutputReference.t :=
  ResourceOutputReference.mk "api" (Table.apiName table) "GraphQLAPIIdOutput".

Module Param.
(** The class [Parameter]; [defaultValue] is optional. *)
Record t : Type := mk { name : string; defaultValue : option string }.
End Param.

Module UserPool.
Record t : Type := mk { authName : string }.
End UserPool.

Definition userPoolOutputReference (userPool : UserPool.t) (output : string)
  : ResourceOutputReference.t :=
  ResourceOutputReference.mk "auth" (UserPool.authName userPool) output.

Inductive TableAction : Type := UpdateItem | ReadItem.

Module TablePermission.
Record t : Type := mk { table : Table.t; actions : list TableAction }.
End TablePermission.

Inductive UserPoolAction : Type :=
| ListUsers
| AdminCreateUser
| AdminGetUser
| AdminLinkProviderForUser
| AdminDeleteUser.

(** A [UserPoolAction] is the string that spells it. *)
Definition UserPoolAction_string (action : UserPoolAction) : string :=
  match action with
  | ListUsers => "ListUsers"
  | AdminCreateUser => "AdminCreateUser"
  | AdminGetUser => "AdminGetUser"
  | AdminLinkProviderForUser => "AdminLinkProviderForUser"
  | AdminDeleteUser => "AdminDeleteUser"
  end.

Module UserPoolPermission.
Record t : Type := mk { userPool : UserPool.t; actions : list UserPoolAction }.
End UserPoolPermission.

Module SendMailPermission.
Record t : Type := mk { identity : Param.t }.
End SendMailPermission.

Module IAMActionPermission.
Record t : Type := mk {
  actions : list string;
  resources : list (string + ResourceOutputReference.t)
}.
End IAMActionPermission.

(** The union, tagged by [type]. *)
Inductive Permission : Type :=
| OfTablePermission (t : TablePermission.t)
| OfUserPoolPermission (u : UserPoolPermission.t)
| OfSendMailPermission (s : SendMailPermission.t)
| OfIAMActionPermission (i : IAMActionPermission.t).

Definition isTablePermission (t : Permission) : bool :=
  match t with OfTablePermission _ => true | _ => false end.

Definition isUserPoolPermission (t : Permission) : bool :=
  match t with OfUserPoolPermission _ => true | _ => false end.

Definition isSendMailPermission (t : Permission) : bool :=
  match t with OfSendMailPermission _ => true | _ => false end.

Definition isIAMActionPermission (t : Permission) : bool :=
  match t with OfIAMActionPermission _ => true | _ => false end.

(** The cases stand in the order the source tests them: table, mail, IAM,
    and what is left is a user-pool permission. *)
Definition reducePermission {B : Type}
  (fT : TablePermission.t -> B) (fU : UserPoolPermission.t -> B)
  (fS : SendMailPermission.t -> B) (fI : IAMActionPermission.t -> B)
  (p : Permission) : B :=
  match p with
  | OfTablePermission t => fT t
  | OfSendMailPermission s => fS s
  | OfIAMActionPermission i => fI i
  | OfUserPoolPermission u => fU u
  end.

Definition resourceRefForTable (table : Table.t) : ResourceOutputReference.t :=
  ResourceOutputReference.mk "api" (Table.apiName table) "GraphQLAPIIdOutput".

Module TableNameVariable.
Record t : Type := mk { table : Table.t }.
End TableNameVariable.

Module ParameterVariable.
Record t : Type := mk { name : string; parameter : Param.t }.
End ParameterVariable.

Module ResourceOutputVariable.
Record t : Type := mk { name : string; reference : ResourceOutputReference.t }.
End ResourceOutputVariable.

(** [Parameter | ResourceOutputReference], told apart by [instanceof]. *)
Inductive VariableValueExpression : Type :=
| OfParameter (p : Param.t)
| OfReference (r : ResourceOutputReference.t).

Definition reduceVariableValueExpression {B : Type}
  (fP : Param.t -> B) (fR : ResourceOutputReference.t -> B)
  (e : VariableValueExpression) : B :=
  match e with
  | OfParameter p => fP p
  | OfReference r => fR r
  end.

Module CoalescedVariable.
Record t : Type := mk {
  name : string;
  first : VariableValueExpression;
  second : VariableValueExpression
}.
End CoalescedVariable.

Inductive EnvironmentVariable : Type :=
| OfTableNameVariable (t : TableNameVariable.t)
| OfParameterVariable (p : ParameterVariable.t)
| OfResourceOutputVariable (r : ResourceOutputVariable.t)
| OfCoalescedVariable (c : CoalescedVariable.t).

Definition reduceEnvionmentVariable {B : Type}
  (fT : TableNameVariable.t -> B) (fP : ParameterVariable.t -> B)
  (fR : ResourceOutputVariable.t -> B) (fC : CoalescedVariable.t -> B)
  (v : EnvironmentVariable) : B :=
  match v with
  | OfTableNameVariable t => fT t
  | OfParameterVariable p => fP p
  | OfResourceOutputVariable r => fR r
  | OfCoalescedVariable c => fC c
  end.

Module LambdaFunction.
Record t : Type := mk {
  permissions : list Permission;
  environment : list EnvironmentVariable;
  eventSource : option Table.t
}.
End LambdaFunction.

(** ** buildCloudFormationTemplate.ts: the capability providers *)

Module CFParameter.
(** The tag [type: "Parameter"] is constant. *)
Record t : Type := mk { name : string; defaultValue : option string }.
(** A [CFParameter] read where a [Parameter] is expected. *)
Definition asParameter (p : t) : Param.t := Param.mk (name p) (defaultValue p).
End CFParameter.

Module CFConditionDefinition.
Record t : Type := mk { name : string; block : value }.
End CFConditionDefinition.

Module CFVariableDefinition.
Record t : Type := mk { name : string; block : value }.
End CFVariableDefinition.

(** [toParameter] gives the content of the object it returns; where the
    object flows into the collected parameters it is allocated ([new]). *)
Class ParameterProvider (T : Type) : Type :=
  { toParameter : T -> CFParameter.t }.

Class ParametersProvider (T : Type) : Type :=
  { toParameters : T -> Alloc (list (Ref CFParameter.t)) }.

Class VariableProvider (T : Type) : Type :=
  { toVariable : T -> CFVariableDefinition.t }.

Class ExpressionProvider (T : Type) : Type :=
  { toExpression : T -> value }.

Class ResourceOutputReferenceProvider (T : Type) : Type :=
  { toOutputReferences : T -> list ResourceOutputReference.t }.

Class ConditionProvider (T : Type) : Type :=
  { toConditions : T -> list CFConditionDefinition.t }.

Class TableDetailProvider (T : Type) : Type := {
  toArnExpression : T -> value;
  toNameExpression : T -> value;
  toStreamArnExpression : T -> value
}.

Class PolicyProvider (T : Type) : Type :=
  { toPolicyStatement : T -> value }.

Definition SingleParameterParametersProvider_toParameters {T : Type}
  (P : ParameterProvider T) (t : T) : Alloc (list (Ref CFParameter.t)) :=
  p <- new (toParameter t) ;; ret [p].

#[export] Instance ResourceOutputReferenceParameterProvider
  : ParameterProvider ResourceOutputReference.t :=
  {| toParameter ref :=
       let name :=
         ResourceOutputReference.category ref
         ++ ResourceOutputReference.resource ref
         ++ ResourceOutputReference.output ref in
       CFParameter.mk name None |}.

#[export] Instance ParameterExpressionProvider : ExpressionProvider Param.t :=
  {| toExpression p := obj [ "Ref" ~> Param.name p ] |}.

#[export] Instance ResourceOutputReferenceExpressionProvider
  : ExpressionProvider ResourceOutputReference.t :=
  {| toExpression ref :=
       toExpression (CFParameter.asParameter (toParameter ref)) |}.

#[export] Instance TableParameterProvider : ParameterProvider Table.t :=
  {| toParameter table := toParameter (apiTableOutputReference table) |}.

#[export] Instance TableResourceOutputReferenceProvider
  : ResourceOutputReferenceProvider Table.t :=
  {| toOutputReferences table := [apiTableOutputReference table] |}.

(** The constant [TableDetailProvider] (the interface has the name). *)
#[export] Instance TableDetailProvider_Table : TableDetailProvider Table.t := {|
  toNameExpression table :=
    let tableParameter := toParameter table in
    obj [ "Fn::ImportValue" ~>
            obj [ "Fn::Sub" ~>
                    "${" ++ CFParameter.name tableParameter ++ "}:GetAtt:"
                    ++ Table.tableName table ++ "Table:Name" ] ];
  toArnExpression table :=
    let tableParameter := toParameter table in
    obj [ "Fn::ImportValue" ~>
            obj [ "Fn::Sub" ~>
                    "${" ++ CFParameter.name tableParameter ++ "}:GetAtt:"
                    ++ Table.tableName table ++ "Table:Arn" ] ];
  toStreamArnExpression table :=
    let tableParameter := toParameter table in
    obj [ "Fn::ImportValue" ~>
            obj [ "Fn::Sub" ~>
                    "${" ++ CFParameter.name tableParameter ++ "}:GetAtt:"
                    ++ Table.tableName table ++ "Table:StreamArn" ] ]
|}.

Definition policyActionForTableAction (action : TableAction) : string :=
  match action with
  | ReadItem => "dynamodb:GetItem"
  | UpdateItem => "dynamodb:UpdateItem"
  end.

Definition policyActionForUserPoolAction (action : UserPoolAction) : string :=
  match action with
  | AdminDeleteUser
  | AdminGetUser
  | AdminCreateUser
  | AdminLinkProviderForUser
  | ListUsers => "cognito-idp:" ++ UserPoolAction_string action
  end.

(** An array of strings. *)
Definition strings (l : list string) : value := VArray (map VString l).

#[export] Instance PermissionPolicyProvider : PolicyProvider Permission := {|
  toPolicyStatement :=
    reducePermission
      (fun permission =>
         let table := TablePermission.table permission in
         let tableParam := toParameter (apiTableOutputReference table) in
         obj [ "Effect" ~> "Allow";
               "Action" ~>
                 strings (map policyActionForTableAction
                              (TablePermission.actions permission));
               "Resource" ~>
                 arr [ obj [ "Fn::Sub" ~>
                   arr [ "arn:aws:dynamodb:${region}:${account}:table/${tableName}";
                         obj [ "region" ~> obj [ "Ref" ~> "AWS::Region" ];
                               "account" ~> obj [ "Ref" ~> "AWS::AccountId" ];
                               "tableName" ~>
                                 obj [ "Fn::ImportValue" ~>
                                   obj [ "Fn::Sub" ~>
                                     "${" ++ CFParameter.name tableParam
                                     ++ "}:GetAtt:" ++ Table.tableName table
                                     ++ "Table:Name" ] ] ] ] ] ] ])
      (fun permission =>
         let userPoolIdExpression :=
           toExpression
             (userPoolOutputReference
                (UserPoolPermission.userPool permission) "UserPoolId") in
         obj [ "Effect" ~> "Allow";
               "Action" ~>
                 strings (map policyActionForUserPoolAction
                              (UserPoolPermission.actions permission));
               "Resource" ~>
                 obj [ "Fn::Sub" ~>
                   arr [ "arn:aws:cognito-idp:${region}:${account}:userpool/${userPoolId}";
                         obj [ "region" ~> obj [ "Ref" ~> "AWS::Region" ];
                               "account" ~> obj [ "Ref" ~> "AWS::AccountId" ];
                               "userPoolId" ~> userPoolIdExpression ] ] ] ])
      (fun permission =>
         obj [ "Effect" ~> "Allow";
               "Action" ~> arr [ "ses:SendEmail" ];
               "Resource" ~>
                 obj [ "Fn::Sub" ~>
                   "${" ++ Param.name (SendMailPermission.identity permission)
                   ++ "}" ] ])
      (fun permission =>
         obj [ "Effect" ~> "Allow";
               "Action" ~> strings (IAMActionPermission.actions permission);
               "Resource" ~>
                 VArray (map (fun resource =>
                                match resource with
                                | inl s => VString s
                                | inr ref => toExpression ref
                                end)
                             (IAMActionPermission.resources permission)) ])
|}.

(** [resources.filter(isResourceOutputReference)]: the references among
    the resources, in order. *)
Definition isResourceOutputReference
  (resource : string + ResourceOutputReference.t) : bool :=
  match resource with inl _ => false | inr _ => true end.

Fixpoint filter_isResourceOutputReference
  (resources : list (string + ResourceOutputReference.t))
  : list ResourceOutputReference.t :=
  match resources with
  | [] => []
  | inr ref :: rest => ref :: filter_isResourceOutputReference rest
  | inl _ :: rest => filter_isResourceOutputReference rest
  end.

Definition valueToParameter (value : VariableValueExpression)
  : Alloc (list (Ref CFParameter.t)) :=
  match value with
  | OfReference ref => p <- new (toParameter ref) ;; ret [p]
  | OfParameter v =>
      p <- new (CFParameter.mk (Param.name v) (Param.defaultValue v)) ;;
      ret [p]
  end.

#[export] Instance PermissionParametersProvider
  : ParametersProvider Permission := {|
  toParameters :=
    reducePermission
      (fun permission =>
         p <- new (toParameter
                     (apiTableOutputReference
                        (TablePermission.table permission))) ;;
         ret [p])
      (fun permission =>
         p <- new (toParameter
                     (userPoolOutputReference
                        (UserPoolPermission.userPool permission)
                        "UserPoolId")) ;;
         ret [p])
      (fun permission =>
         valueToParameter
           (OfParameter (SendMailPermission.identity permission)))
      (fun permission =>
         mapM (fun ref => new (toParameter ref))
              (filter_isResourceOutputReference
                 (IAMActionPermission.resources permission)))
|}.

#[export] Instance PermissionResourceOutputReferenceProvider
  : ResourceOutputReferenceProvider Permission := {|
  toOutputReferences :=
    reducePermission
      (fun permission =>
         [apiTableOutputReference (TablePermission.table permission)])
      (fun permission =>
         [userPoolOutputReference
            (UserPoolPermission.userPool permission) "UserPoolId"])
      (fun _ => [])
      (fun permission =>
         filter_isResourceOutputReference
           (IAMActionPermission.resources permission))
|}.

#[export] Instance PermissionConditionProvider : ConditionProvider Permission :=
  {| toConditions _ := [] |}.

#[export] Instance EnvironmentVariableParametersProvider
  : ParametersProvider EnvironmentVariable := {|
  toParameters env :=
    match env with
    | OfTableNameVariable env =>
        p <- new (toParameter
                    (apiTableOutputReference (TableNameVariable.table env))) ;;
        ret [p]
    | OfParameterVariable env =>
        valueToParameter (OfParameter (ParameterVariable.parameter env))
    | OfResourceOutputVariable env =>
        p <- new (toParameter (ResourceOutputVariable.reference env)) ;;
        ret [p]
    | OfCoalescedVariable env =>
        ps <- valueToParameter (CoalescedVariable.first env) ;;
        qs <- valueToParameter (CoalescedVariable.second env) ;;
        ret (ps ++ qs)%list
    end
|}.

Definition variableValueExpressionToCfExpression
  : VariableValueExpression -> value :=
  reduceVariableValueExpression
    toExpression
    (fun resource =>
       obj [ "Ref" ~> CFParameter.name (toParameter resource) ]).

Definition conditionNameForEnv (env : CoalescedVariable.t) : string :=
  "FirstNotEmpty_" ++ CoalescedVariable.name env.

#[export] Instance EnvironmentVariableVariableProvider
  : VariableProvider EnvironmentVariable := {|
  toVariable :=
    reduceEnvionmentVariable
      (fun v =>
         let table := TableNameVariable.table v in
         let tableOutputRef := apiTableOutputReference table in
         let tableParameter := toParameter tableOutputRef in
         CFVariableDefinition.mk
           (toUpperCase (Table.tableName table ++ "_table_name"))
           (obj [ "Fn::ImportValue" ~>
                    obj [ "Fn::Sub" ~>
                            "${" ++ CFParameter.name tableParameter
                            ++ "}:GetAtt:" ++ Table.tableName table
                            ++ "Table:Name" ] ]))
      (fun v =>
         CFVariableDefinition.mk
           (ParameterVariable.name v)
           (toExpression (ParameterVariable.parameter v)))
      (fun v =>
         CFVariableDefinition.mk
           (ResourceOutputVariable.name v)
           (toExpression (ResourceOutputVariable.reference v)))
      (fun coalescedVar =>
         CFVariableDefinition.mk
           (CoalescedVariable.name coalescedVar)
           (obj [ "Fn::If" ~>
                    arr [ conditionNameForEnv coalescedVar;
                          variableValueExpressionToCfExpression
                            (CoalescedVariable.first coalescedVar);
                          variableValueExpressionToCfExpression
                            (CoalescedVariable.second coalescedVar) ] ]))
|}.

Definition variableValueExpressionToResourceOutputReferences
  : VariableValueExpression -> list ResourceOutputReference.t :=
  reduceVariableValueExpression (fun _ => []) (fun reference => [reference]).

#[export] Instance EnvironmentVariableResourceOutputReferenceProvider
  : ResourceOutputReferenceProvider EnvironmentVariable := {|
  toOutputReferences :=
    reduceEnvionmentVariable
      (fun v => [apiTableOutputReference (TableNameVariable.table v)])
      (fun _ => [])
      (fun v => [ResourceOutputVariable.reference v])
      (fun v =>
         (variableValueExpressionToResourceOutputReferences
            (CoalescedVariable.first v)
          ++ variableValueExpressionToResourceOutputReferences
               (CoalescedVariable.second v))%list)
|}.

#[export] Instance EnvironmentVariableConditionProvider
  : ConditionProvider EnvironmentVariable := {|
  toConditions :=
    reduceEnvionmentVariable
      (fun _ => [])
      (fun _ => [])
      (fun _ => [])
      (fun c =>
         [ CFConditionDefinition.mk
             (conditionNameForEnv c)
             (obj [ "Fn::Not" ~>
                      arr [ obj [ "Fn::Equals" ~>
                                    arr [ variableValueExpressionToCfExpression
                                            (CoalescedVariable.first c);
                                          "" ] ] ] ]) ])
|}.

(** ** buildCloudFormationTemplate.ts: the template assembler *)

(** A property read off an optional field: [undefined] when it is absent. *)
Definition optional (o : option string) : value :=
  match o with
  | Some s => VString s
  | None => VUndefined
  end.

Section BuildCloudFormationTemplate.

Context {T E P : Type}.
(** [cfEnvironment], [cfPermissions] and [cfTable]. *)
Context {cfEnvironment_parameters : ParametersProvider E}
        {cfEnvironment_variable : VariableProvider E}
        {cfEnvironment_condition : ConditionProvider E}
        {cfPermissions_parameters : ParametersProvider P}
        {cfPermissions_policy : PolicyProvider P}
        {cfPermissions_condition : ConditionProvider P}
        {cfTable_parameter : ParameterProvider T}
        {cfTable_detail : TableDetailProvider T}.

(** [const sourceTableParameter] and [const parameters]. *)
Definition parameters (eventSource : option T) (environment : list E)
  (permissions : list P) : list (Ref CFParameter.t) :=
  evalAlloc (
    sourceTableParameter <-
      match eventSource with
      | Some t => p <- new (toParameter t) ;; ret (Some p)
      | None => ret None
      end ;;
    es <- mapM toParameters environment ;;
    ps <- mapM toParameters permissions ;;
    ret (Lodash.uniq
           (Lodash.flatten
              (es ++ ps
               ++ [ match sourceTableParameter with
                    | Some p => [p]
                    | None => []
                    end ])%list))).

(** [const conditions]. *)
Definition conditions (environment : list E) (permissions : list P)
  : list CFConditionDefinition.t :=
  Lodash.flatten
    (map toConditions environment ++ map toConditions permissions)%list.

Definition buildCloudFormationTemplate (name : string)
  (eventSource : option T) (environment : list E) (permissions : list P)
  : option value :=
  match
    Lodash.merge
      (obj [ "env" ~> obj [ "Type" ~> "String" ];
             "resourceName" ~> obj [ "Type" ~> "String"; "Default" ~> name ] ])
      (map (fun parameter =>
              obj [ CFParameter.name (deref parameter) ~>
                      obj [ "Type" ~> "String";
                            "Default" ~>
                              optional
                                (CFParameter.defaultValue (deref parameter)) ] ])
           (parameters eventSource environment permissions)),
    Lodash.merge
      (obj [ "ENV" ~> obj [ "Ref" ~> "env" ];
             "REGION" ~> obj [ "Ref" ~> "AWS::Region" ] ])
      (map (fun v =>
              obj [ CFVariableDefinition.name v ~> CFVariableDefinition.block v ])
           (map toVariable environment))
  with
  | Some Parameters, Some Variables =>
    Some (obj [
      "AWSTemplateFormatVersion" ~> "2010-09-09";
      "Description" ~> "Lambda resource stack creation using Amplify CLI";
      "Parameters" ~> Parameters;
      "Conditions" ~>
        VObject
          (spread
             [ "ShouldNotCreateEnvResources" ~>
                 obj [ "Fn::Equals" ~> arr [ obj [ "Ref" ~> "env" ]; "NONE" ] ] ]
             (Lodash.fromPairs
                (map (fun condition =>
                        (CFConditionDefinition.name condition,
                         CFConditionDefinition.block condition))
                     (conditions environment permissions))));
      "Resources" ~>
        VObject
          (spread
             [ "LambdaFunction" ~>
                 obj [ "Type" ~> "AWS::Lambda::Function";
                       "Metadata" ~>
                         obj [ "aws:asset:path" ~> "./src";
                               "aws:asset:property" ~> "Code" ];
                       "Properties" ~>
                         obj [ "Handler" ~> "index.handler";
                               "FunctionName" ~>
                                 obj [ "Fn::If" ~>
                                   arr [ "ShouldNotCreateEnvResources";
                                         name;
                                         obj [ "Fn::Join" ~>
                                           arr [ "";
                                                 arr [ name; "-";
                                                       obj [ "Ref" ~> "env" ] ] ] ] ] ];
                               "Environment" ~> obj [ "Variables" ~> Variables ];
                               "Role" ~>
                                 obj [ "Fn::GetAtt" ~>
                                         arr [ "LambdaExecutionRole"; "Arn" ] ];
                               "Runtime" ~> "nodejs10.x";
                               "Timeout" ~> "25" ] ];
               "LambdaExecutionRole" ~>
                 obj [ "Type" ~> "AWS::IAM::Role";
                       "Properties" ~>
                         obj [ "RoleName" ~>
                                 obj [ "Fn::If" ~>
                                   arr [ "ShouldNotCreateEnvResources";
                                         name ++ "LambdaRole";
                                         obj [ "Fn::Join" ~>
                                           arr [ "";
                                                 arr [ name ++ "LambdaRole"; "-";
                                                       obj [ "Ref" ~> "env" ] ] ] ] ] ];
                               "AssumeRolePolicyDocument" ~>
                                 obj [ "Version" ~> "2012-10-17";
                                       "Statement" ~>
                                         arr [ obj [
                                           "Effect" ~> "Allow";
                                           "Principal" ~>
                                             obj [ "Service" ~>
                                                     arr [ "lambda.amazonaws.com" ] ];
                                           "Action" ~> arr [ "sts:AssumeRole" ] ] ] ] ] ];
               "lambdaexecutionpolicy" ~>
                 obj [ "DependsOn" ~> arr [ "LambdaExecutionRole" ];
                       "Type" ~> "AWS::IAM::Policy";
                       "Properties" ~>
                         obj [ "PolicyName" ~> "lambda-execution-policy";
                               "Roles" ~> arr [ obj [ "Ref" ~> "LambdaExecutionRole" ] ];
                               "PolicyDocument" ~>
                                 obj [ "Version" ~> "2012-10-17";
                                       "Statement" ~>
                                         VArray
                                           (obj [
                                              "Effect" ~> "Allow";
                                              "Action" ~>
                                                arr [ "logs:CreateLogGroup";
                                                      "logs:CreateLogStream";
                                                      "logs:PutLogEvents" ];
                                              "Resource" ~>
                                                obj [ "Fn::Sub" ~>
                                                  arr [ "arn:aws:logs:${region}:${account}:log-group:/aws/lambda/${lambda}:log-stream:*";
                                                        obj [ "region" ~> obj [ "Ref" ~> "AWS::Region" ];
                                                              "account" ~> obj [ "Ref" ~> "AWS::AccountId" ];
                                                              "lambda" ~> obj [ "Ref" ~> "LambdaFunction" ] ] ] ] ]
                                            :: map toPolicyStatement permissions) ] ] ] ]
             match eventSource with
             | Some eventSource =>
               [ "LambdaTriggerPolicy" ~>
                   obj [ "DependsOn" ~> arr [ "LambdaExecutionRole" ];
                         "Type" ~> "AWS::IAM::Policy";
                         "Properties" ~>
                           obj [ "PolicyName" ~> "amplify-lambda-execution-policy";
                                 "Roles" ~> arr [ obj [ "Ref" ~> "LambdaExecutionRole" ] ];
                                 "PolicyDocument" ~>
                                   obj [ "Version" ~> "2012-10-17";
                                         "Statement" ~>
                                           arr [ obj [
                                             "Effect" ~> "Allow";
                                             "Action" ~>
                                               arr [ "dynamodb:DescribeStream";
                                                     "dynamodb:GetRecords";
                                                     "dynamodb:GetShardIterator";
                                                     "dynamodb:ListStreams" ];
                                             "Resource" ~>
                                               toStreamArnExpression eventSource ] ] ] ] ];
                 "LambdaEventSourceMapping" ~>
                   obj [ "Type" ~> "AWS::Lambda::EventSourceMapping";
                         "DependsOn" ~>
                           arr [ "LambdaTriggerPolicy"; "LambdaExecutionRole" ];
                         "Properties" ~>
                           obj [ "BatchSize" ~> VNumber 1;
                                 "MaximumBatchingWindowInSeconds" ~> VNumber 1;
                                 "Enabled" ~> VBool true;
                                 "EventSourceArn" ~>
                                   toStreamArnExpression eventSource;
                                 "FunctionName" ~>
                                   obj [ "Fn::GetAtt" ~>
                                           arr [ "LambdaFunction"; "Arn" ] ];
                                 "StartingPosition" ~> "LATEST" ] ] ]
             | None => []
             end);
      "Outputs" ~>
        obj [ "Name" ~> obj [ "Value" ~> obj [ "Ref" ~> "LambdaFunction" ] ];
              "Arn" ~>
                obj [ "Value" ~>
                        obj [ "Fn::GetAtt" ~> arr [ "LambdaFunction"; "Arn" ] ] ];
              "Region" ~> obj [ "Value" ~> obj [ "Ref" ~> "AWS::Region" ] ];
              "LambdaExecutionRole" ~>
                obj [ "Value" ~> obj [ "Ref" ~> "LambdaExecutionRole" ] ] ] ])
  | _, _ => None
  end.

End BuildCloudFormationTemplate.

(** ** index.ts: the compiler applied to a function definition

    [buildFunction] calls the assembler with [CFEnvironment],
    [CFPermissions] and [CFTable], which are the providers above spread
    into one object each, and writes [JSON.stringify(cfTemplate)]. *)
Definition cfTemplate (handlerDir : string) (metadata : LambdaFunction.t)
  : option value :=
  buildCloudFormationTemplate handlerDir
    (LambdaFunction.eventSource metadata)
    (LambdaFunction.environment metadata)
    (LambdaFunction.permissions metadata).

(** ** index.ts: the dependencies recorded in backend-config.json

    The part of [buildFunction] that computes, from the references the
    providers discover, the entry [backendConfig.function[handlerDir]].
    Reading and writing the files, and the bundling, are left out. *)

(** [Object.values(o)].  The keys met here hold a ["-"], so none is an
    array index and the enumeration follows the insertion order. *)
Definition Object_values {B} (o : list (string * B)) : list B := map snd o.

(** [const resourceReferences]. *)
Definition resourceReferences (metadata : LambdaFunction.t)
  : list (string * list ResourceOutputReference.t) :=
  Lodash.groupBy
    (fun r =>
       ResourceOutputReference.category r ++ "-"
       ++ ResourceOutputReference.resource r)
    (Lodash.uniqBy
       (fun r =>
          ResourceOutputReference.category r ++ "-"
          ++ ResourceOutputReference.resource r ++ "-"
          ++ ResourceOutputReference.output r)
       (Lodash.flatten
          (map toOutputReferences (LambdaFunction.environment metadata))
        ++ Lodash.flatten
             (map toOutputReferences (LambdaFunction.permissions metadata))
        ++ match LambdaFunction.eventSource metadata with
           | Some eventSource => toOutputReferences eventSource
           | None => []
           end)%list).

(** [array.map(f)] for an [f] that may throw: [None] when one call does. *)
Fixpoint map_throwing {A B} (f : A -> option B) (l : list A) : option (list B) :=
  match l with
  | [] => Some []
  | a :: rest =>
      match f a with
      | Some b => option_map (cons b) (map_throwing f rest)
      | None => None
      end
  end.

(** The [dependsOn] array; [references[0].category] throws on an empty
    group ([None]). *)
Definition dependsOn (metadata : LambdaFunction.t) : option (list value) :=
  map_throwing
    (fun references =>
       match references with
       | [] => None
       | first :: _ =>
           Some (obj [ "category" ~> ResourceOutputReference.category first;
                       "resourceName" ~> ResourceOutputReference.resource first;
                       "attributes" ~>
                         strings (map ResourceOutputReference.output references) ])
       end)
    (Object_values (resourceReferences metadata)).

(** The value assigned to [backendConfig.function[handlerDir]]. *)
Definition backendConfig_function (metadata : LambdaFunction.t) : option value :=
  match dependsOn metadata with
  | Some entries =>
      Some (obj [ "service" ~> "Lambda";
                  "providerPlugin" ~> "awscloudformation";
                  "build" ~> VBool true;
                  "dependsOn" ~> VArray entries ])
  | None => None
  end.

(** * Vocabulary of the statements

    What the theorems below speak of: the contents of the collected
    parameters, the step the merge takes for each of them, the shapes
    of the entries and blocks the merges meet. *)



(** The objects holding [l], allocated one after the other from [n]. *)
Fixpoint refs_from {A} (n : loc) (l : list A) : list (Ref A) :=
  match l with
  | [] => []
  | a :: rest => mkRef n a :: refs_from (S n) rest
  end.

(** [m] allocates one object per element of [content], in order, and
    returns them. *)
Definition allocates {A} (m : Alloc (list (Ref A))) (content : list A) : Prop :=
  forall n, m n = (refs_from n content, n + length content).

(** The content of what [valueToParameter] returns. *)
Definition parameter_of_value (value : VariableValueExpression) : CFParameter.t :=
  match value with
  | OfReference ref => toParameter ref
  | OfParameter v => CFParameter.mk (Param.name v) (Param.defaultValue v)
  end.

(** The contents of the parameters an environment variable asks for. *)
Definition parameters_of_variable (env : EnvironmentVariable)
  : list CFParameter.t :=
  match env with
  | OfTableNameVariable v =>
      [toParameter (apiTableOutputReference (TableNameVariable.table v))]
  | OfParameterVariable v =>
      [parameter_of_value (OfParameter (ParameterVariable.parameter v))]
  | OfResourceOutputVariable v =>
      [toParameter (ResourceOutputVariable.reference v)]
  | OfCoalescedVariable v =>
      [parameter_of_value (CoalescedVariable.first v);
       parameter_of_value (CoalescedVariable.second v)]
  end.

(** The contents of the parameters a permission asks for. *)
Definition parameters_of_permission (p : Permission) : list CFParameter.t :=
  match p with
  | OfTablePermission t =>
      [toParameter (apiTableOutputReference (TablePermission.table t))]
  | OfUserPoolPermission u =>
      [toParameter
         (userPoolOutputReference (UserPoolPermission.userPool u) "UserPoolId")]
  | OfSendMailPermission s =>
      [parameter_of_value (OfParameter (SendMailPermission.identity s))]
  | OfIAMActionPermission i =>
      map toParameter
          (filter_isResourceOutputReference (IAMActionPermission.resources i))
  end.

(** The contents of [parameters], in the order of the list. *)
Definition collected (eventSource : option Table.t)
  (environment : list EnvironmentVariable) (permissions : list Permission)
  : list CFParameter.t :=
  (flat_map parameters_of_variable environment
   ++ flat_map parameters_of_permission permissions
   ++ match eventSource with
      | Some t => [toParameter t]
      | None => []
      end)%list.

(** What [merge] leaves of the destination's entry [old] once the entry
    [{Type: "String", Default: d}] of a parameter is merged into it. *)
Definition merged_entry (old : fields) (d : option string) : fields :=
  let typed := set_field "Type" (VString "String") old in
  set_field "Default"
    (match d with
     | Some s => VString s
     | None =>
         match get_field "Default" typed with
         | Some v => v
         | None => VUndefined
         end
     end)
    typed.

(** The properties of the entry of [fs] under [k], [{}] if there is none. *)
Definition entry_fields (k : string) (fs : fields) : fields :=
  match get_field k fs with
  | Some (VObject old) => old
  | _ => []
  end.

(** The Parameters object once the entry of [p] is merged into it; a
    parameter named [__proto__] leaves it as it is. *)
Definition add_parameter (fs : fields) (p : CFParameter.t) : fields :=
  if String.eqb (CFParameter.name p) "__proto__" then fs
  else
    set_field (CFParameter.name p)
      (VObject (merged_entry (entry_fields (CFParameter.name p) fs)
                             (CFParameter.defaultValue p)))
      fs.

(** The shapes an entry of the Parameters section takes. *)
Definition parameter_entry (v : value) : Prop :=
  v = obj [ "Type" ~> "String" ] \/
  exists d, v = obj [ "Type" ~> "String"; "Default" ~> d ].

Definition parameter_entries (fs : fields) : Prop :=
  Forall (fun kv => parameter_entry (snd kv)) fs.

(** The Default an entry holds, [undefined] when it holds none. *)
Definition default_in (fs : fields) (n : string) : value :=
  match get_field "Default" (entry_fields n fs) with
  | Some v => v
  | None => VUndefined
  end.

(** The default value supplied last among the parameters named [n]. *)
Fixpoint last_default (n : string) (ps : list CFParameter.t) : option string :=
  match ps with
  | [] => None
  | p :: rest =>
      match last_default n rest with
      | Some d => Some d
      | None =>
          if String.eqb (CFParameter.name p) n
          then CFParameter.defaultValue p else None
      end
  end.

(** The two fixed parameters. *)
Definition fixed_parameters (name : string) : fields :=
  [ "env" ~> obj [ "Type" ~> "String" ];
    "resourceName" ~> obj [ "Type" ~> "String"; "Default" ~> name ] ].

(** The source object [parameters.map] makes of a parameter. *)
Definition parameter_source (parameter : Ref CFParameter.t) : value :=
  obj [ CFParameter.name (deref parameter) ~>
          obj [ "Type" ~> "String";
                "Default" ~>
                  optional (CFParameter.defaultValue (deref parameter)) ] ].

(** The three shapes of the block a variable resolves to. *)
Definition resolved_block (v : value) : Prop :=
  (exists s : string, v = obj [ "Ref" ~> s ]) \/
  (exists s : string, v = obj [ "Fn::ImportValue" ~> obj [ "Fn::Sub" ~> s ] ]) \/
  (exists c a b : string,
     v = obj [ "Fn::If" ~> arr [ c; obj [ "Ref" ~> a ]; obj [ "Ref" ~> b ] ] ]).

(** A property of a merged block: the key decides the shape of the value. *)
Definition block_field (kv : string * value) : Prop :=
  (fst kv = "Ref" /\ exists s : string, snd kv = VString s) \/
  (fst kv = "Fn::ImportValue" /\
   exists s : string, snd kv = obj [ "Fn::Sub" ~> s ]) \/
  (fst kv = "Fn::If" /\
   exists c a b : string,
     snd kv = arr [ c; obj [ "Ref" ~> a ]; obj [ "Ref" ~> b ] ]).

Definition merged_block (v : value) : Prop :=
  exists fs, v = VObject fs /\ Forall block_field fs.

Definition merged_blocks (fs : fields) : Prop :=
  Forall (fun kv => merged_block (snd kv)) fs.

(** The source object made of a resolved variable. *)
Definition variable_source (v : CFVariableDefinition.t) : value :=
  obj [ CFVariableDefinition.name v ~> CFVariableDefinition.block v ].

(** [r] lists [target] under DependsOn. *)
Definition depends_on (r : value) (target : string) : Prop :=
  exists deps, prop "DependsOn" r = Some (VArray deps) /\ In (VString target) deps.

(** The pairs [conditions.map] hands to [fromPairs]. *)
Definition condition_pairs (conditions : list CFConditionDefinition.t) : fields :=
  map (fun condition =>
         (CFConditionDefinition.name condition,
          CFConditionDefinition.block condition))
      conditions.

(** The parameter objects the assembler collects for a definition. *)
Definition parameters_of (metadata : LambdaFunction.t) : list (Ref CFParameter.t) :=
  parameters (LambdaFunction.eventSource metadata)
             (LambdaFunction.environment metadata)
             (LambdaFunction.permissions metadata).

(** The default the entry [n] ends with: the one supplied last by a
    parameter named [n], else the function's name for [resourceName]. *)
Definition supplied_default (handlerDir n : string) (ps : list CFParameter.t)
  : option string :=
  match last_default n ps with
  | Some d => Some d
  | None => if String.eqb n "resourceName" then Some handlerDir else None
  end.

(** C8 as it is stated: the serialized entry of every collected parameter
    has a Default exactly when that parameter supplied one. *)
Definition default_iff_supplied (handlerDir : string) (metadata : LambdaFunction.t)
  : Prop :=
  forall r, In r (parameters_of metadata) ->
    exists doc Parameters entry,
      cfTemplate handlerDir metadata = Some doc /\
      prop "Parameters" doc = Some (VObject Parameters) /\
      get_field (CFParameter.name (deref r)) Parameters = Some entry /\
      (prop "Default" (stringify entry) <> None
       <-> CFParameter.defaultValue (deref r) <> None).

(** The references the providers discover for a definition, in the order
    [buildFunction] lists them. *)
Definition discovered (metadata : LambdaFunction.t)
  : list ResourceOutputReference.t :=
  (Lodash.flatten (map toOutputReferences (LambdaFunction.environment metadata))
   ++ Lodash.flatten
        (map toOutputReferences (LambdaFunction.permissions metadata))
   ++ match LambdaFunction.eventSource metadata with
      | Some eventSource => toOutputReferences eventSource
      | None => []
      end)%list.

(** The key [uniqBy] compares and the key [groupBy] groups by. *)
Definition reference_key (r : ResourceOutputReference.t) : string :=
  ResourceOutputReference.category r ++ "-"
  ++ ResourceOutputReference.resource r ++ "-"
  ++ ResourceOutputReference.output r.

Definition group_key (r : ResourceOutputReference.t) : string :=
  ResourceOutputReference.category r ++ "-"
  ++ ResourceOutputReference.resource r.

(** [s] holds no ["-"]. *)
Fixpoint dash_free (s : string) : bool :=
  match s with
  | EmptyString => true
  | String c rest => negb (Ascii.eqb c "-") && dash_free rest
  end.

(** The [dependsOn] entry made of a group. *)
Definition dependsOn_entry (category resourceName : string)
  (attributes : list string) : value :=
  obj [ "category" ~> category;
        "resourceName" ~> resourceName;
        "attributes" ~> strings attributes ].

(** No discovered reference has a ["-"] in its category or resource. *)
Definition dash_free_references (metadata : LambdaFunction.t) : Prop :=
  forall r, In r (discovered metadata) ->
    dash_free (ResourceOutputReference.category r) = true /\
    dash_free (ResourceOutputReference.resource r) = true.

(** The keys in the order of their first occurrence. *)
Definition first_occurrences (l : list string) : list string :=
  fold_left
    (fun seen k =>
       if existsb (String.eqb k) seen then seen else (seen ++ [k])%list)
    l [].

(** The environment variables once the resolved variable [v] is merged:
    the properties of its block are written over the entry of its name; a
    variable named [__proto__] leaves them as they are. *)
Definition add_variable (fs : fields) (v : CFVariableDefinition.t) : fields :=
  if String.eqb (CFVariableDefinition.name v) "__proto__" then fs
  else
    set_field (CFVariableDefinition.name v)
      (match CFVariableDefinition.block v with
       | VObject sfs =>
           VObject (spread (entry_fields (CFVariableDefinition.name v) fs) sfs)
       | b => b
       end)
      fs.

(** The two fixed environment variables. *)
Definition fixed_variables : fields :=
  [ "ENV" ~> obj [ "Ref" ~> "env" ];
    "REGION" ~> obj [ "Ref" ~> "AWS::Region" ] ].

(** The blocks of the variables named [n], in order. *)
Definition blocks_named (n : string) (vs : list CFVariableDefinition.t)
  : list value :=
  map (@CFVariableDefinition.block)
      (filter (fun v => String.eqb (CFVariableDefinition.name v) n) vs).

(** The properties of the blocks written over [base], one block after the
    other. *)
Definition written_over (base : fields) (blocks : list value) : fields :=
  fold_left
    (fun acc b => match b with VObject sfs => spread acc sfs | _ => acc end)
    blocks base.

(** The variables that resolve to a plain [{Ref: ...}]. *)
Definition resolves_to_ref (e : EnvironmentVariable) : bool :=
  match e with
  | OfParameterVariable _ | OfResourceOutputVariable _ => true
  | _ => false
  end.

(** The path of the environment variables in the document. *)
Definition Variables_path : list string :=
  ["Resources"; "LambdaFunction"; "Properties"; "Environment"; "Variables"].

(** The targets of the [{Ref: ...}] expressions in a value. *)
Fixpoint refs_of (v : value) : list string :=
  match v with
  | VObject fs =>
      (fix props (fs : fields) : list string :=
         match fs with
         | [] => []
         | (k, v') :: rest =>
             (match v' with
              | VString s => if String.eqb k "Ref" then [s] else []
              | _ => refs_of v'
              end ++ props rest)%list
         end) fs
  | VArray vs =>
      (fix elems (vs : list value) : list string :=
         match vs with
         | [] => []
         | v' :: rest => (refs_of v' ++ elems rest)%list
         end) vs
  | _ => []
  end.

(** Every Ref in [v] has a target that satisfies [Q]. *)
Definition all_refs (Q : string -> Prop) (v : value) : Prop :=
  forall s, In s (refs_of v) -> Q s.

(** What a Ref of the compiled document may name: a parameter, a resource,
    or one of the two pseudo parameters the assembler uses. *)
Definition resolvable (Parameters Resources : fields) (s : string) : Prop :=
  In s (keys Parameters) \/ In s (keys Resources) \/
  s = "AWS::Region" \/ s = "AWS::AccountId".

(** The place a new key takes among the keys of an object. *)
Fixpoint insert_key (k : string) (ks : list string) : list string :=
  match ks with
  | [] => [k]
  | k' :: rest =>
      if enumerated_before k k' then k :: k' :: rest
      else k' :: insert_key k rest
  end.

(** The keys of an object that starts with the keys [ks] and then gets the
    keys [l] written in turn: each at its first occurrence, at its place
    in the enumeration. *)
Definition enumeration (ks l : list string) : list string :=
  fold_left
    (fun seen k => if existsb (String.eqb k) seen then seen else insert_key k seen)
    l ks.

(** The keys stand as JavaScript enumerates them: none is enumerated
    before a key that stands before it.  So the array indices come first,
    in ascending order. *)
Definition in_enumeration_order (ks : list string) : Prop :=
  ForallOrdPairs (fun a b => enumerated_before b a = false) ks.

(** Every character of [s] is an ASCII character. *)
Fixpoint ascii_only (s : string) : bool :=
  match s with
  | EmptyString => true
  | String c rest => (N_of_ascii c <? 128)%N && ascii_only rest
  end.

(** The table names that the environment variables upper-case are ASCII:
    what the statements about the names of the variables assume. *)
Definition ascii_table_names (environment : list EnvironmentVariable) : Prop :=
  forall v, In (OfTableNameVariable v) environment ->
    ascii_only (Table.tableName (TableNameVariable.table v)) = true.

(** The names under which properties are written: all but [__proto__]. *)
Definition written_names (names : list string) : list string :=
  filter (fun k => negb (String.eqb k "__proto__")) names.

(** * Properties *)

(** ** Objects as ordered property lists *)

Section Fields.

Implicit Types (k : string) (v : value) (fs : fields).

Lemma get_replace_field k k' v fs :
  get_field k (replace_field k' v fs) =
  if String.eqb k k'
  then match get_field k' fs with Some _ => Some v | None => None end
  else get_field k fs.
Proof.
  induction fs as [|[k0 v0] fs IH]; simpl.
  - now destruct (String.eqb k k').
  - destruct (String.eqb k' k0) eqn:E; simpl.
    + apply String.eqb_eq in E. subst k0.
      destruct (String.eqb k k'); reflexivity.
    + rewrite IH. destruct (String.eqb k k') eqn:E'.
      * apply String.eqb_eq in E'. subst k'. now rewrite E.
      * reflexivity.
Qed.

Lemma get_insert_field k k' v fs :
  get_field k' fs = None ->
  get_field k (insert_field k' v fs) =
  if String.eqb k k' then Some v else get_field k fs.
Proof.
  induction fs as [|[k0 v0] fs IH]; simpl; intros Hnone.
  - reflexivity.
  - destruct (String.eqb k' k0) eqn:E; [discriminate|].
    destruct (enumerated_before k' k0); simpl.
    + reflexivity.
    + rewrite (IH Hnone). destruct (String.eqb k k0) eqn:E0; auto.
      apply String.eqb_eq in E0. subst k0.
      rewrite String.eqb_sym. now rewrite E.
Qed.

Lemma get_set_field k k' v fs :
  get_field k (set_field k' v fs) =
  if String.eqb k k' then Some v else get_field k fs.
Proof.
  unfold set_field. destruct (get_field k' fs) eqn:E.
  - rewrite get_replace_field, E. reflexivity.
  - now apply get_insert_field.
Qed.

Lemma get_set_same k v fs : get_field k (set_field k v fs) = Some v.
Proof. now rewrite get_set_field, String.eqb_refl. Qed.

Lemma get_set_other k k' v fs :
  k <> k' -> get_field k (set_field k' v fs) = get_field k fs.
Proof.
  intros Hne. apply String.eqb_neq in Hne. now rewrite get_set_field, Hne.
Qed.

Lemma get_field_None k fs : get_field k fs = None <-> ~ In k (keys fs).
Proof.
  induction fs as [|[k' v'] fs IH]; simpl.
  - tauto.
  - destruct (String.eqb k k') eqn:E.
    + apply String.eqb_eq in E. subst. split; [discriminate | tauto].
    + apply String.eqb_neq in E. rewrite IH. split.
      * intros H [H1 | H1]; [now apply E | now apply H].
      * tauto.
Qed.

Lemma get_field_In k v fs : get_field k fs = Some v -> In k (keys fs).
Proof.
  intros H. destruct (in_dec string_dec k (keys fs)) as [Hin | Hin]; auto.
  apply get_field_None in Hin. congruence.
Qed.

Lemma keys_replace_field k v fs : keys (replace_field k v fs) = keys fs.
Proof.
  induction fs as [|[k0 v0] fs IH]; simpl; auto.
  destruct (String.eqb k k0) eqn:E; simpl.
  - apply String.eqb_eq in E. now subst.
  - now rewrite IH.
Qed.

Lemma keys_insert_field k v fs :
  keys (insert_field k v fs) = insert_key k (keys fs).
Proof.
  induction fs as [|[k0 v0] fs IH]; simpl; auto.
  destruct (enumerated_before k k0); simpl; [reflexivity | now rewrite IH].
Qed.

Lemma In_insert_key k k' (ks : list string) :
  In k (insert_key k' ks) <-> k = k' \/ In k ks.
Proof.
  induction ks as [|k0 ks IH]; simpl.
  - intuition.
  - destruct (enumerated_before k' k0); simpl; [|rewrite IH]; intuition.
Qed.

Lemma NoDup_insert_key k (ks : list string) :
  ~ In k ks -> NoDup ks -> NoDup (insert_key k ks).
Proof.
  induction ks as [|k0 ks IH]; simpl; intros Hnotin Hnd.
  - constructor; [tauto | constructor].
  - inversion Hnd as [|? ? Hk0 Hnd']; subst.
    destruct (enumerated_before k k0).
    + constructor; [simpl; tauto | exact Hnd].
    + constructor; [|apply IH; tauto].
      intros Hin. apply In_insert_key in Hin as [-> | Hin]; tauto.
Qed.

(** The keys after a write: unchanged when the key is there, and with the
    key at its place in the enumeration when it is new. *)
Lemma keys_set_field_order k v fs :
  keys (set_field k v fs)
  = if existsb (String.eqb k) (keys fs) then keys fs
    else insert_key k (keys fs).
Proof.
  unfold set_field. destruct (get_field k fs) eqn:E.
  - rewrite keys_replace_field.
    apply get_field_In in E.
    assert (H : existsb (String.eqb k) (keys fs) = true).
    { apply existsb_exists. exists k. split; auto. apply String.eqb_refl. }
    now rewrite H.
  - rewrite keys_insert_field.
    apply get_field_None in E.
    destruct (existsb (String.eqb k) (keys fs)) eqn:H; auto.
    apply existsb_exists in H as (k0 & Hin & Heq).
    apply String.eqb_eq in Heq. now subst.
Qed.

Lemma keys_set_field k k' v fs :
  In k (keys (set_field k' v fs)) <-> k = k' \/ In k (keys fs).
Proof.
  rewrite keys_set_field_order.
  destruct (existsb (String.eqb k') (keys fs)) eqn:H.
  - apply existsb_exists in H as (k0 & Hin & Heq).
    apply String.eqb_eq in Heq. subst k0. intuition. now subst.
  - apply In_insert_key.
Qed.

Lemma NoDup_set_field k v fs :
  NoDup (keys fs) -> NoDup (keys (set_field k v fs)).
Proof.
  intros Hnd. rewrite keys_set_field_order.
  destruct (existsb (String.eqb k) (keys fs)) eqn:H; auto.
  apply NoDup_insert_key; auto.
  intros Hin. apply not_true_iff_false in H. apply H.
  apply existsb_exists. exists k. split; auto. apply String.eqb_refl.
Qed.

(** What holds of the properties and of the value written holds after the
    write. *)
Lemma Forall_replace_field (Q : string * value -> Prop) k v fs :
  Forall Q fs -> Q (k, v) -> Forall Q (replace_field k v fs).
Proof.
  intros H Hv. induction H as [|[k0 v0] fs H0 H IH]; simpl; auto.
  destruct (String.eqb k k0); constructor; auto.
Qed.

Lemma Forall_insert_field (Q : string * value -> Prop) k v fs :
  Forall Q fs -> Q (k, v) -> Forall Q (insert_field k v fs).
Proof.
  intros H Hv. induction H as [|[k0 v0] fs H0 H IH]; simpl; auto.
  destruct (enumerated_before k k0); repeat constructor; auto.
Qed.

Lemma Forall_set_pair (Q : string * value -> Prop) k v fs :
  Forall Q fs -> Q (k, v) -> Forall Q (set_field k v fs).
Proof.
  intros H Hv. unfold set_field. destruct (get_field k fs).
  - now apply Forall_replace_field.
  - now apply Forall_insert_field.
Qed.

(** The keys that spell an array index, and some that do not. *)
Example array_index_examples :
  array_index "0" = Some 0%N /\ array_index "7" = Some 7%N /\
  array_index "10" = Some 10%N /\
  array_index "4294967294" = Some 4294967294%N /\
  array_index "4294967295" = None /\ array_index "07" = None /\
  array_index "" = None /\ array_index "-1" = None /\
  array_index "1.5" = None /\ array_index "7a" = None /\
  array_index "env" = None.
Proof. repeat split. Qed.

(** A key that spells no array index is enumerated after every key that
    is there: a new one goes last. *)
Lemma insert_key_last k (ks : list string) :
  array_index k = None -> insert_key k ks = (ks ++ [k])%list.
Proof.
  intros Hk. induction ks as [|k0 ks IH]; simpl; auto.
  unfold enumerated_before. rewrite Hk. now rewrite IH.
Qed.

Lemma get_field_app k fs (gs : fields) :
  get_field k (fs ++ gs)%list =
  match get_field k fs with Some v => Some v | None => get_field k gs end.
Proof.
  induction fs as [|[k' v'] fs IH]; simpl; auto.
  destruct (String.eqb k k'); auto.
Qed.

(** Writing a run of properties: the last write to a key is what is read
    back, the keys stay distinct, and nothing but the written keys is added. *)
Lemma get_write_all k (ws : fields) : forall fs,
  get_field k (fold_left (fun acc kv => set_field (fst kv) (snd kv) acc) ws fs) =
  match get_field k (rev ws) with
  | Some v => Some v
  | None => get_field k fs
  end.
Proof.
  induction ws as [|[k' v'] ws IH]; intros fs; simpl; auto.
  rewrite IH, get_field_app. simpl.
  destruct (get_field k (rev ws)); auto.
  destruct (String.eqb k k') eqn:E.
  - apply String.eqb_eq in E. subst. apply get_set_same.
  - apply String.eqb_neq in E. now apply get_set_other.
Qed.

Lemma NoDup_write_all (ws : fields) : forall fs,
  NoDup (keys fs) ->
  NoDup (keys (fold_left (fun acc kv => set_field (fst kv) (snd kv) acc) ws fs)).
Proof.
  induction ws as [|[k' v'] ws IH]; intros fs H; simpl; auto.
  apply IH. now apply NoDup_set_field.
Qed.

Lemma keys_write_all k (ws : fields) : forall fs,
  In k (keys (fold_left (fun acc kv => set_field (fst kv) (snd kv) acc) ws fs))
  <-> In k (keys ws) \/ In k (keys fs).
Proof.
  induction ws as [|[k' v'] ws IH]; intros fs; simpl.
  - tauto.
  - rewrite IH, keys_set_field. intuition.
Qed.

(** A key that is present among distinct keys is present once. *)
Lemma count_key_one k fs :
  NoDup (keys fs) -> In k (keys fs) -> count_key k fs = 1.
Proof.
  intros Hnd Hin. unfold count_key.
  now apply (proj1 (NoDup_count_occ' string_dec (keys fs)) Hnd).
Qed.

End Fields.


(** ** The capability providers *)



(** C6: the Action list of a TablePermission's statement is the image of
    its actions, in order, under ReadItem -> dynamodb:GetItem and
    UpdateItem -> dynamodb:UpdateItem; [ReadItem, UpdateItem] gives
    [dynamodb:GetItem, dynamodb:UpdateItem]. *)
Theorem table_permission_actions (t : TablePermission.t) :
  policyActionForTableAction ReadItem = "dynamodb:GetItem" /\
  policyActionForTableAction UpdateItem = "dynamodb:UpdateItem" /\
  (exists acts,
     prop "Action" (toPolicyStatement (OfTablePermission t)) = Some (VArray acts) /\
     acts = map (fun a => VString (policyActionForTableAction a))
                (TablePermission.actions t) /\
     length acts = length (TablePermission.actions t) /\
     forall i a,
       nth_error (TablePermission.actions t) i = Some a ->
       nth_error acts i = Some (VString (policyActionForTableAction a))) /\
  prop "Action"
    (toPolicyStatement
       (OfTablePermission
          (TablePermission.mk (TablePermission.table t) [ReadItem; UpdateItem])))
  = Some (arr [ "dynamodb:GetItem"; "dynamodb:UpdateItem" ]).
Proof.
  repeat split; try reflexivity.
  exists (map (fun a => VString (policyActionForTableAction a))
              (TablePermission.actions t)).
  repeat split.
  - simpl. unfold strings. now rewrite map_map.
  - apply length_map.
  - intros i a H. now rewrite nth_error_map, H.
Qed.

(** C4: a CoalescedVariable named X gives the single condition
    FirstNotEmpty_X, whose body negates the equality of the first leg's
    runtime expression with the empty string, and resolves to the Fn::If
    of that condition over the runtime expressions of the two legs. *)
Theorem coalesced_condition_and_variable (c : CoalescedVariable.t) :
  toConditions (OfCoalescedVariable c) =
    [ CFConditionDefinition.mk
        ("FirstNotEmpty_" ++ CoalescedVariable.name c)
        (obj [ "Fn::Not" ~>
                 arr [ obj [ "Fn::Equals" ~>
                               arr [ variableValueExpressionToCfExpression
                                       (CoalescedVariable.first c);
                                     "" ] ] ] ]) ] /\
  toVariable (OfCoalescedVariable c) =
    CFVariableDefinition.mk
      (CoalescedVariable.name c)
      (obj [ "Fn::If" ~>
               arr [ "FirstNotEmpty_" ++ CoalescedVariable.name c;
                     variableValueExpressionToCfExpression
                       (CoalescedVariable.first c);
                     variableValueExpressionToCfExpression
                       (CoalescedVariable.second c) ] ]) /\
  forall e,
    variableValueExpressionToCfExpression e =
    match e with
    | OfParameter p => toExpression p
    | OfReference r => toExpression r
    end.
Proof.
  repeat split.
Qed.

Example toUpperCase_ascii :
  toUpperCase "Todo_table_name" = "TODO_TABLE_NAME" /\
  toUpperCase "azAZ_09" = "AZAZ_09".
Proof.
  split; reflexivity.
Qed.






(** ** Allocation: the collected parameter objects are pairwise distinct *)

Section Allocation.

Context {A : Type}.
Implicit Types (l : list A) (n : loc).

Lemma refs_from_app l l' n :
  refs_from n (l ++ l')%list
  = (refs_from n l ++ refs_from (n + length l) l')%list.
Proof.
  revert n. induction l as [|a l IH]; intros n; simpl.
  - now rewrite Nat.add_0_r.
  - rewrite IH. do 3 f_equal. lia.
Qed.

Lemma addr_refs_from l n : map (@addr A) (refs_from n l) = seq n (length l).
Proof.
  revert n. induction l as [|a l IH]; intros n; simpl; [|rewrite IH]; auto.
Qed.

Lemma deref_refs_from l n : map (@deref A) (refs_from n l) = l.
Proof.
  revert n. induction l as [|a l IH]; intros n; simpl; [|rewrite IH]; auto.
Qed.

Lemma allocates_new (a : A) : allocates (p <- new a ;; ret [p]) [a].
Proof.
  intros n. unfold bind, new, ret. simpl. f_equal. lia.
Qed.

Lemma allocates_append (m1 m2 : Alloc (list (Ref A))) l1 l2 :
  allocates m1 l1 -> allocates m2 l2 ->
  allocates (ps <- m1 ;; qs <- m2 ;; ret (ps ++ qs)%list) (l1 ++ l2)%list.
Proof.
  intros H1 H2 n. unfold bind, ret. rewrite H1, H2, refs_from_app, length_app.
  f_equal. lia.
Qed.

Lemma allocates_mapM_new {B} (f : B -> A) (bs : list B) :
  allocates (mapM (fun b => new (f b)) bs) (map f bs).
Proof.
  induction bs as [|b bs IH]; intros n; simpl.
  - unfold ret. f_equal. lia.
  - unfold bind, new, ret. rewrite IH. simpl. f_equal. lia.
Qed.

(** Mapping an allocating provider over a list returns, chunk by chunk,
    consecutive fresh objects. *)
Lemma mapM_allocates {B} (f : B -> Alloc (list (Ref A))) (c : B -> list A) :
  (forall b, allocates (f b) (c b)) ->
  forall bs n,
    exists chunks,
      mapM f bs n = (chunks, n + length (flat_map c bs)) /\
      Lodash.flatten chunks = refs_from n (flat_map c bs).
Proof.
  intros Hf. induction bs as [|b bs IH]; intros n; simpl.
  - exists []. unfold ret. split; [f_equal; lia | reflexivity].
  - unfold bind. rewrite Hf.
    destruct (IH (n + length (c b))) as (chunks & Hm & Hc). rewrite Hm.
    exists (refs_from n (c b) :: chunks). unfold ret. split.
    + f_equal. rewrite length_app. lia.
    + unfold Lodash.flatten in *. simpl. now rewrite Hc, refs_from_app.
Qed.

(** [uniq] drops nothing from a list of pairwise distinct objects. *)
Lemma uniq_distinct (rs : list (Ref A)) :
  NoDup (map (@addr A) rs) -> Lodash.uniq rs = rs.
Proof.
  unfold Lodash.uniq.
  enough (H : forall rs acc,
             NoDup (map (@addr A) (acc ++ rs)%list) ->
             fold_left
               (fun result x =>
                  if existsb (fun y => Nat.eqb (addr y) (addr x)) result
                  then result else (result ++ [x])%list)
               rs acc = (acc ++ rs)%list).
  { intros Hnd. now apply (H rs []). }
  clear rs. induction rs as [|r rs IH]; intros acc Hnd; simpl.
  - now rewrite app_nil_r.
  - assert (Hfresh : existsb (fun y => Nat.eqb (addr y) (addr r)) acc = false).
    { apply not_true_is_false. intros Hex.
      apply existsb_exists in Hex as (y & Hy & Heq).
      apply Nat.eqb_eq in Heq.
      rewrite map_app in Hnd. simpl in Hnd.
      apply NoDup_remove_2 in Hnd. apply Hnd.
      apply in_or_app. left. rewrite <- Heq. now apply in_map. }
    rewrite Hfresh, IH; rewrite <- app_assoc; auto.
Qed.

End Allocation.

Lemma valueToParameter_allocates (value : VariableValueExpression) :
  allocates (valueToParameter value) [parameter_of_value value].
Proof.
  destruct value; apply allocates_new.
Qed.

Lemma variable_toParameters_allocates (env : EnvironmentVariable) :
  allocates (toParameters env) (parameters_of_variable env).
Proof.
  destruct env as [v | v | v | v].
  - apply allocates_new.
  - apply (valueToParameter_allocates
             (OfParameter (ParameterVariable.parameter v))).
  - apply allocates_new.
  - apply (allocates_append
             (valueToParameter_allocates (CoalescedVariable.first v))
             (valueToParameter_allocates (CoalescedVariable.second v))).
Qed.

Lemma permission_toParameters_allocates (p : Permission) :
  allocates (toParameters p) (parameters_of_permission p).
Proof.
  destruct p as [t | u | s | i].
  - apply allocates_new.
  - apply allocates_new.
  - apply (valueToParameter_allocates
             (OfParameter (SendMailPermission.identity s))).
  - apply (allocates_mapM_new toParameter).
Qed.

Lemma collect_from (n0 : loc) (src : list (Ref CFParameter.t))
  (environment : list EnvironmentVariable) (permissions : list Permission) :
  fst ((es <- mapM toParameters environment ;;
        ps <- mapM toParameters permissions ;;
        ret (Lodash.uniq (Lodash.flatten (es ++ ps ++ [src])%list))) n0)
  = Lodash.uniq
      (refs_from n0 (flat_map parameters_of_variable environment
                     ++ flat_map parameters_of_permission permissions)
       ++ src)%list.
Proof.
  unfold bind.
  destruct (@mapM_allocates _ _ _ _ variable_toParameters_allocates environment n0)
    as (es & Hes & Hflat_es).
  rewrite Hes.
  destruct (@mapM_allocates _ _ _ _ permission_toParameters_allocates permissions
              (n0 + length (flat_map parameters_of_variable environment)))
    as (ps & Hps & Hflat_ps).
  rewrite Hps. unfold ret. simpl fst.
  unfold Lodash.flatten in *. rewrite !concat_app, Hflat_es, Hflat_ps.
  simpl. now rewrite refs_from_app, app_nil_r, <- app_assoc.
Qed.

(** [parameters] holds one object per collected parameter: [uniq] finds no
    two of them identical, whatever their content. *)
Lemma parameters_collected eventSource environment permissions :
  map (@deref _) (parameters eventSource environment permissions)
  = collected eventSource environment permissions.
Proof.
  unfold parameters, collected, evalAlloc.
  destruct eventSource as [t|].
  - unfold bind at 1. unfold bind at 1. unfold new at 1. unfold ret at 1.
    rewrite collect_from, uniq_distinct.
    + now rewrite map_app, deref_refs_from, <- app_assoc.
    + rewrite map_app, addr_refs_from. apply NoDup_app.
      * apply seq_NoDup.
      * constructor; [simpl; tauto | constructor].
      * intros a Ha [<- | []]. apply in_seq in Ha. simpl in Ha. lia.
  - unfold bind at 1. unfold ret at 1.
    rewrite collect_from, uniq_distinct.
    + now rewrite map_app, deref_refs_from, <- app_assoc.
    + rewrite map_app, addr_refs_from, app_nil_r. apply seq_NoDup.
Qed.

(** ** The Parameters section *)

Lemma Forall_set_field (Q : value -> Prop) k v fs :
  Forall (fun kv => Q (snd kv)) fs -> Q v ->
  Forall (fun kv => Q (snd kv)) (set_field k v fs).
Proof.
  intros H Hv. now apply Forall_set_pair.
Qed.

Lemma get_field_Forall (Q : value -> Prop) k v fs :
  Forall (fun kv => Q (snd kv)) fs -> get_field k fs = Some v -> Q v.
Proof.
  induction fs as [|[k' v'] fs IH]; simpl; intros H Hget; [discriminate|].
  inversion H; subst. destruct (String.eqb k k'); auto.
  now injection Hget as <-.
Qed.

Lemma merged_entry_shape (old : fields) d :
  old = [] \/ parameter_entry (VObject old) ->
  merged_entry old d =
  [ "Type" ~> "String";
    "Default" ~> match d with
                 | Some s => VString s
                 | None =>
                     match get_field "Default" old with
                     | Some v => v
                     | None => VUndefined
                     end
                 end ].
Proof.
  intros [-> | [H | [v H]]]; try injection H as ->; destruct d; reflexivity.
Qed.

Lemma entry_fields_shape k fs :
  parameter_entries fs ->
  entry_fields k fs = [] \/ parameter_entry (VObject (entry_fields k fs)).
Proof.
  intros H. unfold entry_fields.
  destruct (get_field k fs) as [v|] eqn:E; auto.
  apply (get_field_Forall _ _ H) in E.
  destruct E as [-> | [d ->]]; right; [left | right; exists d]; reflexivity.
Qed.

Lemma add_parameter_entries fs p :
  parameter_entries fs -> parameter_entries (add_parameter fs p).
Proof.
  intros H. unfold add_parameter.
  destruct (String.eqb (CFParameter.name p) "__proto__"); auto.
  apply Forall_set_field; auto.
  rewrite merged_entry_shape by now apply entry_fields_shape.
  right. eexists. reflexivity.
Qed.

(** Merging one parameter's source object. *)
Lemma mergeFields_parameter fs (r : Ref CFParameter.t) :
  parameter_entries fs ->
  Lodash.baseMerge (VObject fs) (parameter_source r)
  = Some (VObject (add_parameter fs (deref r))).
Proof.
  intros H. unfold parameter_source, add_parameter, Lodash.baseMerge.
  destruct r as [a [n d]]. cbn [deref CFParameter.name CFParameter.defaultValue].
  unfold Lodash.mergeFields, Lodash.unwritten.
  destruct (String.eqb n "__proto__"); [reflexivity|].
  pose proof (entry_fields_shape n H) as Hshape. unfold entry_fields in *.
  destruct (get_field n fs) as [v|] eqn:E.
  - apply (get_field_Forall _ _ H) in E.
    destruct E as [-> | [d' ->]]; destruct d; reflexivity.
  - destruct d; reflexivity.
Qed.

(** The whole merge never fails, and is the fold of [add_parameter]. *)
Lemma merge_parameters (rs : list (Ref CFParameter.t)) : forall fs,
  parameter_entries fs ->
  Lodash.merge (VObject fs) (map parameter_source rs)
  = Some (VObject (fold_left add_parameter (map (@deref _) rs) fs)).
Proof.
  unfold Lodash.merge.
  induction rs as [|r rs IH]; intros fs H; cbn [map fold_left]; [reflexivity|].
  rewrite mergeFields_parameter by assumption.
  apply IH. now apply add_parameter_entries.
Qed.

Lemma fixed_parameter_entries name : parameter_entries (fixed_parameters name).
Proof.
  constructor; [now left|].
  constructor; [right; eexists; reflexivity | constructor].
Qed.

Lemma add_parameters_entries ps : forall fs,
  parameter_entries fs -> parameter_entries (fold_left add_parameter ps fs).
Proof.
  induction ps as [|p ps IH]; intros fs H; simpl; auto.
  apply IH. now apply add_parameter_entries.
Qed.

Lemma add_parameters_NoDup ps : forall fs,
  NoDup (keys fs) -> NoDup (keys (fold_left add_parameter ps fs)).
Proof.
  induction ps as [|p ps IH]; intros fs H; simpl; auto.
  apply IH. unfold add_parameter.
  destruct (String.eqb (CFParameter.name p) "__proto__"); auto.
  now apply NoDup_set_field.
Qed.

(** The keys of the section: those it had, and the names of the parameters
    other than [__proto__]. *)
Lemma add_parameters_keys k ps : forall fs,
  In k (keys (fold_left add_parameter ps fs))
  <-> (In k (map CFParameter.name ps) /\ k <> "__proto__") \/ In k (keys fs).
Proof.
  induction ps as [|p ps IH]; intros fs; simpl.
  - tauto.
  - rewrite IH. unfold add_parameter.
    destruct (String.eqb (CFParameter.name p) "__proto__") eqn:E.
    + apply String.eqb_eq in E. intuition congruence.
    + apply String.eqb_neq in E. rewrite keys_set_field.
      intuition congruence.
Qed.

(** One step: the entry of the merged parameter gets the shape
    [{Type, Default}], its Default being the supplied one if there is one
    and the former one otherwise; the other entries are left alone. *)
Lemma get_add_parameter n fs p :
  parameter_entries fs ->
  n <> "__proto__" ->
  get_field n (add_parameter fs p) =
  if String.eqb (CFParameter.name p) n
  then Some (obj [ "Type" ~> "String";
                   "Default" ~>
                     match CFParameter.defaultValue p with
                     | Some d => VString d
                     | None => default_in fs n
                     end ])
  else get_field n fs.
Proof.
  intros H Hn. unfold add_parameter.
  destruct (String.eqb (CFParameter.name p) n) eqn:E.
  - apply String.eqb_eq in E. subst n.
    apply String.eqb_neq in Hn. rewrite Hn, get_set_same.
    now rewrite merged_entry_shape by now apply entry_fields_shape.
  - apply String.eqb_neq in E.
    destruct (String.eqb (CFParameter.name p) "__proto__"); auto.
    apply get_set_other. congruence.
Qed.

Lemma default_in_add_parameter n fs p :
  parameter_entries fs ->
  n <> "__proto__" ->
  default_in (add_parameter fs p) n =
  if String.eqb (CFParameter.name p) n
  then match CFParameter.defaultValue p with
       | Some d => VString d
       | None => default_in fs n
       end
  else default_in fs n.
Proof.
  intros H Hn. unfold default_in at 1. unfold entry_fields.
  rewrite get_add_parameter by assumption.
  destruct (String.eqb (CFParameter.name p) n); reflexivity.
Qed.

Lemma last_default_unnamed n ps :
  existsb (fun p => String.eqb (CFParameter.name p) n) ps = false ->
  last_default n ps = None.
Proof.
  induction ps as [|p ps IH]; simpl; [reflexivity|].
  intros H. apply orb_false_elim in H as [Hp Hps].
  now rewrite IH, Hp.
Qed.

(** All steps: an entry some parameter is named after has the shape
    [{Type, Default}] and holds the default supplied last, or the one it
    held before when none was supplied. *)
Lemma get_add_parameters n ps : forall fs,
  parameter_entries fs ->
  n <> "__proto__" ->
  get_field n (fold_left add_parameter ps fs) =
  if existsb (fun p => String.eqb (CFParameter.name p) n) ps
  then Some (obj [ "Type" ~> "String";
                   "Default" ~>
                     match last_default n ps with
                     | Some d => VString d
                     | None => default_in fs n
                     end ])
  else get_field n fs.
Proof.
  induction ps as [|p ps IH]; intros fs H Hn; simpl; [reflexivity|].
  rewrite IH by (auto; now apply add_parameter_entries).
  rewrite default_in_add_parameter, get_add_parameter by assumption.
  destruct (String.eqb (CFParameter.name p) n) eqn:E; simpl;
    destruct (existsb _ ps) eqn:Eps;
    try rewrite (last_default_unnamed _ _ Eps);
    try destruct (last_default n ps); reflexivity.
Qed.

(** ** The environment variables of the function resource *)

Lemma get_field_pair k v fs : get_field k fs = Some v -> In (k, v) fs.
Proof.
  induction fs as [|[k' v'] fs IH]; simpl; [discriminate|].
  destruct (String.eqb k k') eqn:E; auto.
  apply String.eqb_eq in E. subst. intros H. injection H as <-. now left.
Qed.

Lemma toVariable_resolved (e : EnvironmentVariable) :
  resolved_block (CFVariableDefinition.block (toVariable e)).
Proof.
  destruct e as [v | v | v | v]; simpl.
  - right. left. eexists. reflexivity.
  - left. eexists. reflexivity.
  - left. eexists. reflexivity.
  - right. right.
    destruct (CoalescedVariable.first v), (CoalescedVariable.second v);
      simpl; do 3 eexists; reflexivity.
Qed.

(** [mergeValue] on an object and on an array, through the two loops. *)
Lemma mergeValue_object sfs objValue :
  Lodash.mergeValue (VObject sfs) objValue =
  match objValue with
  | Some (VArray _) => None
  | Some (VObject fs) => option_map VObject (Lodash.mergeFields sfs fs)
  | _ => option_map VObject (Lodash.mergeFields sfs [])
  end.
Proof.
  destruct objValue as [[]|]; reflexivity.
Qed.

Lemma mergeValue_array svs objValue :
  Lodash.mergeValue (VArray svs) objValue =
  match objValue with
  | Some (VArray vs) => option_map VArray (Lodash.mergeElems svs vs)
  | Some (VObject fs) =>
      if Lodash.isArrayLikeObject fs then None
      else option_map VArray (Lodash.mergeElems svs [])
  | _ => option_map VArray (Lodash.mergeElems svs [])
  end.
Proof.
  destruct objValue as [[| | | | | |fs]|]; try reflexivity.
  simpl. now destruct (Lodash.isArrayLikeObject fs).
Qed.

(** Merging a resolved block onto what the merged variables hold under its
    name: never an object onto an array, nor an array onto an object. *)
Lemma mergeValue_block sv objValue :
  resolved_block sv ->
  (forall v, objValue = Some v -> merged_block v) ->
  exists v', Lodash.mergeValue sv objValue = Some v' /\ merged_block v'.
Proof.
  intros Hsv Hobj.
  assert (Hfs : exists fs,
             Forall block_field fs /\
             forall sfs, Lodash.mergeValue (VObject sfs) objValue
                         = Lodash.mergeValue (VObject sfs) (Some (VObject fs))).
  { destruct objValue as [v|].
    - destruct (Hobj v eq_refl) as (fs & -> & Hfs). now exists fs.
    - exists []. split; [constructor | reflexivity]. }
  destruct Hfs as (fs & Hfs & Heq).
  destruct Hsv as [[s ->] | [[s ->] | (c & a & b & ->)]]; rewrite Heq.
  - eexists. split; [reflexivity|].
    eexists. split; [reflexivity|].
    apply Forall_set_pair; auto. left. simpl. eauto.
  - assert (Hin : exists v', Lodash.mergeValue (obj [ "Fn::Sub" ~> s ])
                               (get_field "Fn::ImportValue" fs) = Some v' /\
                             block_field ("Fn::ImportValue", v')).
    { destruct (get_field "Fn::ImportValue" fs) as [v|] eqn:E.
      - apply get_field_pair in E.
        apply (proj1 (Forall_forall _ _) Hfs) in E.
        destruct E as [[E _] | [(_ & s' & E) | [E _]]];
          try discriminate E. simpl in E. subst v.
        eexists. split; [reflexivity|]. right. left. cbn. eauto.
      - eexists. split; [reflexivity|]. right. left. cbn. eauto. }
    destruct Hin as (v' & Hv' & Hfield).
    exists (VObject (set_field "Fn::ImportValue" v' fs)). split.
    + rewrite mergeValue_object. cbn [Lodash.mergeFields]. now rewrite Hv'.
    + eexists. split; [reflexivity|]. now apply Forall_set_pair.
  - assert (Hin : exists v',
               Lodash.mergeValue
                 (arr [ c; obj [ "Ref" ~> a ]; obj [ "Ref" ~> b ] ])
                 (get_field "Fn::If" fs) = Some v' /\
               block_field ("Fn::If", v')).
    { destruct (get_field "Fn::If" fs) as [v|] eqn:E.
      - apply get_field_pair in E.
        apply (proj1 (Forall_forall _ _) Hfs) in E.
        destruct E as [[E _] | [[E _] | (_ & c' & a' & b' & E)]];
          try discriminate E. simpl in E. subst v.
        eexists. split; [reflexivity|]. right. right. cbn. eauto.
      - eexists. split; [reflexivity|]. right. right. cbn. eauto. }
    destruct Hin as (v' & Hv' & Hfield).
    exists (VObject (set_field "Fn::If" v' fs)). split.
    + rewrite mergeValue_object. cbn [Lodash.mergeFields]. now rewrite Hv'.
    + eexists. split; [reflexivity|]. now apply Forall_set_pair.
Qed.

Lemma baseMerge_variable fs (v : CFVariableDefinition.t) :
  merged_blocks fs ->
  resolved_block (CFVariableDefinition.block v) ->
  exists fs', Lodash.baseMerge (VObject fs) (variable_source v)
              = Some (VObject fs') /\ merged_blocks fs'.
Proof.
  intros Hfs Hv. unfold variable_source, Lodash.baseMerge, Lodash.mergeFields.
  destruct (@mergeValue_block (CFVariableDefinition.block v)
              (get_field (CFVariableDefinition.name v) fs) Hv)
    as (v' & Hm & Hv').
  { intros w Hw. apply (get_field_Forall _ _ Hfs Hw). }
  rewrite Hm.
  destruct (Lodash.unwritten _ _); eexists; (split; [reflexivity|]); auto.
  now apply Forall_set_field.
Qed.

(** Merging the resolved variables never fails. *)
Lemma merge_variables (vs : list CFVariableDefinition.t) : forall fs,
  merged_blocks fs ->
  Forall (fun v => resolved_block (CFVariableDefinition.block v)) vs ->
  exists fs', Lodash.merge (VObject fs) (map variable_source vs)
              = Some (VObject fs').
Proof.
  unfold Lodash.merge.
  induction vs as [|v vs IH]; intros fs Hfs Hvs; cbn [map fold_left].
  - now exists fs.
  - inversion Hvs; subst.
    destruct (@baseMerge_variable fs v) as (fs' & -> & Hfs'); auto.
Qed.

(** ** The compiled document *)

Lemma Parameters_section (name : string) (eventSource : option Table.t)
  (environment : list EnvironmentVariable) (permissions : list Permission) :
  Lodash.merge
    (obj [ "env" ~> obj [ "Type" ~> "String" ];
           "resourceName" ~> obj [ "Type" ~> "String"; "Default" ~> name ] ])
    (map (fun parameter =>
            obj [ CFParameter.name (deref parameter) ~>
                    obj [ "Type" ~> "String";
                          "Default" ~>
                            optional
                              (CFParameter.defaultValue (deref parameter)) ] ])
         (parameters eventSource environment permissions))
  = Some (VObject (fold_left add_parameter
                     (collected eventSource environment permissions)
                     (fixed_parameters name))).
Proof.
  rewrite <- parameters_collected.
  apply (merge_parameters (parameters eventSource environment permissions)
                          (fixed_parameter_entries name)).
Qed.

Lemma Variables_section (environment : list EnvironmentVariable) :
  exists Variables,
    Lodash.merge
      (obj [ "ENV" ~> obj [ "Ref" ~> "env" ];
             "REGION" ~> obj [ "Ref" ~> "AWS::Region" ] ])
      (map (fun v =>
              obj [ CFVariableDefinition.name v ~> CFVariableDefinition.block v ])
           (map toVariable environment))
    = Some (VObject Variables).
Proof.
  apply (@merge_variables (map toVariable environment)).
  - repeat constructor; (eexists; split; [reflexivity|]);
      repeat constructor; simpl; eauto.
  - apply Forall_forall. intros v Hv.
    apply in_map_iff in Hv as (e & <- & _). apply toVariable_resolved.
Qed.

(** The compiler returns a document for every function definition. *)
Lemma cfTemplate_defined (handlerDir : string) (metadata : LambdaFunction.t) :
  exists doc, cfTemplate handlerDir metadata = Some doc.
Proof.
  unfold cfTemplate, buildCloudFormationTemplate.
  rewrite Parameters_section.
  destruct (Variables_section (LambdaFunction.environment metadata)) as [V ->].
  eexists. reflexivity.
Qed.

(** The assembler on a definition with one table permission, no
    environment variable and no event source: one parameter besides the two
    fixed ones, the fixed condition alone, the log statement followed by
    the statement of the permission, and the three fixed resources. *)
Example notes_document :
  let metadata :=
    LambdaFunction.mk
      [ OfTablePermission
          (TablePermission.mk (Table.mk "api1" "Notes") [ReadItem]) ]
      [] None in
  exists doc Resources statement,
    cfTemplate "notes" metadata = Some doc /\
    option_map stringify (prop "Parameters" doc) =
      Some (obj [ "env" ~> obj [ "Type" ~> "String" ];
                  "resourceName" ~>
                    obj [ "Type" ~> "String"; "Default" ~> "notes" ];
                  "apiapi1GraphQLAPIIdOutput" ~> obj [ "Type" ~> "String" ] ]) /\
    prop "Conditions" doc =
      Some (obj [ "ShouldNotCreateEnvResources" ~>
                    obj [ "Fn::Equals" ~>
                            arr [ obj [ "Ref" ~> "env" ]; "NONE" ] ] ]) /\
    prop "Resources" doc = Some (VObject Resources) /\
    keys Resources =
      [ "LambdaFunction"; "LambdaExecutionRole"; "lambdaexecutionpolicy" ] /\
    option_map
      (fun statements =>
         match statements with
         | VArray [_; s] => Some s
         | _ => None
         end)
      (lookup_path
         ["Resources"; "lambdaexecutionpolicy"; "Properties"; "PolicyDocument";
          "Statement"] doc) = Some (Some statement) /\
    prop "Action" statement = Some (arr [ "dynamodb:GetItem" ]) /\
    lookup_path
      ["Resources"; "LambdaFunction"; "Properties"; "Environment"; "Variables"]
      doc =
      Some (obj [ "ENV" ~> obj [ "Ref" ~> "env" ];
                  "REGION" ~> obj [ "Ref" ~> "AWS::Region" ] ]).
Proof.
  cbv zeta. do 3 eexists. repeat split; vm_compute; reflexivity.
Qed.

(** Unfolds the assembler down to the document it returns. *)
Ltac assemble metadata :=
  unfold cfTemplate, buildCloudFormationTemplate;
  rewrite Parameters_section;
  let V := fresh "Variables" in
  destruct (Variables_section (LambdaFunction.environment metadata)) as [V ->].

(** C3: without an event source the Resources are the function, the role
    and the execution policy, with neither a trigger policy nor an
    event-source mapping; with one, both are added, both depend on the
    execution role, and the mapping has batch size 1, batching window 1,
    starting position LATEST and Enabled true. *)
Theorem event_source_resources (handlerDir : string) (metadata : LambdaFunction.t) :
  exists doc Resources,
    cfTemplate handlerDir metadata = Some doc /\
    prop "Resources" doc = Some (VObject Resources) /\
    match LambdaFunction.eventSource metadata with
    | None =>
        get_field "LambdaTriggerPolicy" Resources = None /\
        get_field "LambdaEventSourceMapping" Resources = None /\
        keys Resources =
          [ "LambdaFunction"; "LambdaExecutionRole"; "lambdaexecutionpolicy" ]
    | Some _ =>
        exists policy mapping,
          get_field "LambdaTriggerPolicy" Resources = Some policy /\
          get_field "LambdaEventSourceMapping" Resources = Some mapping /\
          prop "Type" policy = Some (VString "AWS::IAM::Policy") /\
          prop "Type" mapping = Some (VString "AWS::Lambda::EventSourceMapping") /\
          depends_on policy "LambdaExecutionRole" /\
          depends_on mapping "LambdaExecutionRole" /\
          lookup_path ["Properties"; "BatchSize"] mapping = Some (VNumber 1) /\
          lookup_path ["Properties"; "MaximumBatchingWindowInSeconds"] mapping
            = Some (VNumber 1) /\
          lookup_path ["Properties"; "StartingPosition"] mapping
            = Some (VString "LATEST") /\
          lookup_path ["Properties"; "Enabled"] mapping = Some (VBool true)
    end.
Proof.
  assemble metadata.
  destruct (LambdaFunction.eventSource metadata) as [t|].
  - eexists. eexists. split; [reflexivity|]. split; [reflexivity|].
    eexists. eexists. split; [reflexivity|]. split; [reflexivity|].
    repeat split.
    + eexists. split; [reflexivity|]. simpl. auto.
    + eexists. split; [reflexivity|]. simpl. auto.
  - eexists. eexists. split; [reflexivity|]. split; [reflexivity|].
    repeat split.
Qed.

(** C9: with an event source, the Resource of the trigger policy's single
    statement and the EventSourceArn of the event-source mapping are the
    same expression, the stream-ARN import of the event-source table. *)
Theorem trigger_resource_is_event_source_arn
  (handlerDir : string) (metadata : LambdaFunction.t) (table : Table.t) :
  LambdaFunction.eventSource metadata = Some table ->
  exists doc statement resource arn,
    cfTemplate handlerDir metadata = Some doc /\
    lookup_path
      ["Resources"; "LambdaTriggerPolicy"; "Properties"; "PolicyDocument";
       "Statement"] doc = Some (VArray [statement]) /\
    prop "Resource" statement = Some resource /\
    lookup_path
      ["Resources"; "LambdaEventSourceMapping"; "Properties"; "EventSourceArn"]
      doc = Some arn /\
    resource = arn /\
    arn = toStreamArnExpression table /\
    arn = obj [ "Fn::ImportValue" ~>
                  obj [ "Fn::Sub" ~>
                          "${" ++ CFParameter.name (toParameter table)
                          ++ "}:GetAtt:"
                          ++ Table.tableName table ++ "Table:StreamArn" ] ].
Proof.
  intros Hsrc. assemble metadata. rewrite Hsrc.
  do 4 eexists. split; [reflexivity|].
  split; [reflexivity|]. split; [reflexivity|]. split; [reflexivity|].
  split; [reflexivity|]. split; reflexivity.
Qed.

(** ** The Conditions section *)

Lemma keys_rev (fs : fields) k : In k (keys (rev fs)) <-> In k (keys fs).
Proof.
  unfold keys. rewrite map_rev. symmetry. apply in_rev.
Qed.

Lemma get_field_rev k (fs : fields) :
  NoDup (keys fs) -> get_field k (rev fs) = get_field k fs.
Proof.
  induction fs as [|[k' v'] fs IH]; simpl; intros Hnd; [reflexivity|].
  inversion Hnd as [|? ? Hnotin Hnd']; subst.
  rewrite get_field_app, IH by assumption. simpl.
  destruct (String.eqb k k') eqn:E; [|now destruct (get_field k fs)].
  apply String.eqb_eq in E. subst k'.
  apply get_field_None in Hnotin. now rewrite Hnotin.
Qed.

(** Where no pair is keyed [__proto__], every pair is written. *)
Lemma fromPairs_plain (pairs : fields) :
  Forall (fun kv => fst kv <> "__proto__") pairs ->
  Lodash.fromPairs pairs
  = fold_left (fun acc kv => set_field (fst kv) (snd kv) acc) pairs [].
Proof.
  unfold Lodash.fromPairs. generalize (@nil (string * value)).
  induction pairs as [|[k v] pairs IH]; intros acc H; cbn [fold_left];
    [reflexivity|].
  inversion H as [|? ? Hk Hrest]; subst. cbn [fst snd] in *.
  unfold assign_field at 2. apply String.eqb_neq in Hk. rewrite Hk.
  now apply IH.
Qed.

Lemma get_fromPairs k pairs :
  Forall (fun kv => fst kv <> "__proto__") pairs ->
  get_field k (Lodash.fromPairs pairs) = get_field k (rev pairs).
Proof.
  intros H. rewrite (fromPairs_plain H), get_write_all.
  now destruct (get_field k (rev pairs)).
Qed.

Lemma NoDup_fromPairs pairs : NoDup (keys (Lodash.fromPairs pairs)).
Proof.
  unfold Lodash.fromPairs.
  assert (H : NoDup (keys (@nil (string * value)))) by constructor.
  revert H. generalize (@nil (string * value)).
  induction pairs as [|[k v] pairs IH]; intros acc H; cbn [fold_left]; auto.
  apply IH. unfold assign_field. cbn [fst snd].
  destruct (String.eqb k "__proto__"); auto. now apply NoDup_set_field.
Qed.

Lemma keys_fromPairs k pairs :
  Forall (fun kv => fst kv <> "__proto__") pairs ->
  (In k (keys (Lodash.fromPairs pairs)) <-> In k (keys pairs)).
Proof.
  intros H. rewrite (fromPairs_plain H), keys_write_all. simpl. tauto.
Qed.

(** Spreading [fromPairs(pairs)] over [a]: a key reads the last pair
    written under it, and what [a] holds when there is none. *)
Lemma get_spread_fromPairs k a pairs :
  Forall (fun kv => fst kv <> "__proto__") pairs ->
  get_field k (spread a (Lodash.fromPairs pairs)) =
  match get_field k (rev pairs) with
  | Some v => Some v
  | None => get_field k a
  end.
Proof.
  intros H. unfold spread. rewrite get_write_all.
  now rewrite get_field_rev, get_fromPairs by (auto; apply NoDup_fromPairs).
Qed.

Lemma keys_spread_fromPairs k a pairs :
  Forall (fun kv => fst kv <> "__proto__") pairs ->
  (In k (keys (spread a (Lodash.fromPairs pairs)))
   <-> In k (keys pairs) \/ In k (keys a)).
Proof.
  intros H. unfold spread. now rewrite keys_write_all, keys_fromPairs.
Qed.

(** The names of the conditions start with [FirstNotEmpty_]: none is
    [__proto__]. *)
Lemma condition_pairs_plain (environment : list EnvironmentVariable) :
  Forall (fun kv => fst kv <> "__proto__")
         (condition_pairs (flat_map toConditions environment)).
Proof.
  apply Forall_forall. intros [k v] Hin. unfold condition_pairs in Hin.
  apply in_map_iff in Hin as (c & Heq & Hc). injection Heq as <- _.
  apply in_flat_map in Hc as (e & _ & Hc).
  destruct e; simpl in Hc; try destruct Hc as [<- | []]; try destruct Hc.
  discriminate.
Qed.

(** No permission contributes a condition. *)
Lemma conditions_of_environment
  (environment : list EnvironmentVariable) (permissions : list Permission) :
  conditions environment permissions = flat_map toConditions environment.
Proof.
  unfold conditions, Lodash.flatten. rewrite concat_app, <- !flat_map_concat_map.
  assert (H : flat_map toConditions permissions = []).
  { induction permissions as [|p ps IH]; simpl; auto. }
  now rewrite H, app_nil_r.
Qed.

Lemma conditionNameForEnv_inj c c' :
  conditionNameForEnv c = conditionNameForEnv c' ->
  CoalescedVariable.name c = CoalescedVariable.name c'.
Proof.
  unfold conditionNameForEnv. simpl. intros H. now injection H.
Qed.

(** The keys written are the condition names of the coalesced variables. *)
Lemma keys_condition_pairs k (environment : list EnvironmentVariable) :
  In k (keys (condition_pairs (flat_map toConditions environment))) <->
  exists c, In (OfCoalescedVariable c) environment /\ k = conditionNameForEnv c.
Proof.
  unfold keys, condition_pairs. rewrite map_map. simpl.
  induction environment as [|e es IH]; simpl.
  - split; [tauto | now intros (c & [] & _)].
  - rewrite map_app, in_app_iff, IH. split.
    + intros [H | (c & Hc & ->)].
      * destruct e as [v | v | v | c]; simpl in H; try tauto.
        destruct H as [<- | []]. exists c. auto.
      * exists c. auto.
    + intros (c & [-> | Hc] & ->).
      * left. simpl. auto.
      * right. exists c. auto.
Qed.

(** The last coalesced variable of a name decides what its key reads. *)
Lemma get_condition_pairs_last
  (front back : list EnvironmentVariable) (c : CoalescedVariable.t) :
  (forall c', In (OfCoalescedVariable c') back ->
              CoalescedVariable.name c' <> CoalescedVariable.name c) ->
  forall produced,
    toConditions (OfCoalescedVariable c) = [produced] ->
    get_field (conditionNameForEnv c)
      (rev (condition_pairs
              (flat_map toConditions (front ++ OfCoalescedVariable c :: back)%list)))
    = Some (CFConditionDefinition.block produced).
Proof.
  intros Hback produced Hprod.
  rewrite flat_map_app. cbn [flat_map]. rewrite Hprod.
  unfold condition_pairs. rewrite !map_app, !rev_app_distr. cbn [map app].
  rewrite !get_field_app.
  replace (get_field (conditionNameForEnv c) (rev (map _ (flat_map toConditions back))))
    with (@None value).
  - injection Hprod as <-. simpl. now rewrite String.eqb_refl.
  - symmetry. apply get_field_None. rewrite keys_rev.
    intros Hin. apply (keys_condition_pairs _ back) in Hin as (c' & Hc' & Heq).
    apply conditionNameForEnv_inj in Heq. now apply (Hback c' Hc').
Qed.

(** C7: two coalesced variables of one name leave one condition under the
    generated name, and its body is the one the later variable produces. *)
Theorem colliding_condition_last_wins
  (handlerDir : string) (metadata : LambdaFunction.t)
  (front middle back : list EnvironmentVariable)
  (earlier later : CoalescedVariable.t) :
  LambdaFunction.environment metadata
    = (front ++ OfCoalescedVariable earlier
         :: middle ++ OfCoalescedVariable later :: back)%list ->
  CoalescedVariable.name earlier = CoalescedVariable.name later ->
  (forall c, In (OfCoalescedVariable c) back ->
             CoalescedVariable.name c <> CoalescedVariable.name later) ->
  exists doc Conditions produced,
    cfTemplate handlerDir metadata = Some doc /\
    prop "Conditions" doc = Some (VObject Conditions) /\
    toConditions (OfCoalescedVariable later) = [produced] /\
    CFConditionDefinition.name produced
      = "FirstNotEmpty_" ++ CoalescedVariable.name later /\
    count_key ("FirstNotEmpty_" ++ CoalescedVariable.name later) Conditions = 1 /\
    get_field ("FirstNotEmpty_" ++ CoalescedVariable.name later) Conditions
      = Some (CFConditionDefinition.block produced).
Proof.
  intros Henv Hname Hback. assemble metadata.
  eexists. eexists. eexists.
  split; [reflexivity|]. split; [reflexivity|]. split; [reflexivity|].
  split; [reflexivity|].
  rewrite conditions_of_environment.
  fold (condition_pairs
          (flat_map toConditions (LambdaFunction.environment metadata))).
  change ("FirstNotEmpty_" ++ CoalescedVariable.name later)
    with (conditionNameForEnv later).
  assert (Hlast :
    get_field (conditionNameForEnv later)
      (rev (condition_pairs
              (flat_map toConditions (LambdaFunction.environment metadata))))
    = Some (obj [ "Fn::Not" ~>
                    arr [ obj [ "Fn::Equals" ~>
                                  arr [ variableValueExpressionToCfExpression
                                          (CoalescedVariable.first later);
                                        "" ] ] ] ])).
  { rewrite Henv.
    change (front ++ OfCoalescedVariable earlier
              :: middle ++ OfCoalescedVariable later :: back)%list
      with (front ++ (OfCoalescedVariable earlier :: middle)
              ++ OfCoalescedVariable later :: back)%list.
    rewrite app_assoc.
    now apply (@get_condition_pairs_last _ back later Hback _ eq_refl). }
  split.
  - apply count_key_one.
    + apply NoDup_write_all. constructor; [simpl; tauto | constructor].
    + apply keys_spread_fromPairs; [apply condition_pairs_plain|]. left.
      apply get_field_In in Hlast. now rewrite keys_rev in Hlast.
  - now rewrite get_spread_fromPairs, Hlast by apply condition_pairs_plain.
Qed.

(** C10: the Conditions section always holds ShouldNotCreateEnvResources,
    the test of the env parameter against "NONE"; any other key is
    "FirstNotEmpty_" + name for a coalesced variable of the environment
    list; no permission contributes a condition. *)
Theorem conditions_section_keys (handlerDir : string) (metadata : LambdaFunction.t) :
  exists doc Conditions,
    cfTemplate handlerDir metadata = Some doc /\
    prop "Conditions" doc = Some (VObject Conditions) /\
    get_field "ShouldNotCreateEnvResources" Conditions
      = Some (obj [ "Fn::Equals" ~> arr [ obj [ "Ref" ~> "env" ]; "NONE" ] ]) /\
    (forall k, In k (keys Conditions) ->
       k = "ShouldNotCreateEnvResources" \/
       exists c, In (OfCoalescedVariable c) (LambdaFunction.environment metadata) /\
                 k = "FirstNotEmpty_" ++ CoalescedVariable.name c) /\
    (forall p : Permission, toConditions p = []) /\
    conditions (LambdaFunction.environment metadata)
               (LambdaFunction.permissions metadata)
      = flat_map toConditions (LambdaFunction.environment metadata).
Proof.
  assemble metadata.
  eexists. eexists. split; [reflexivity|]. split; [reflexivity|].
  rewrite conditions_of_environment.
  fold (condition_pairs
          (flat_map toConditions (LambdaFunction.environment metadata))).
  repeat split.
  - rewrite get_spread_fromPairs by apply condition_pairs_plain.
    replace (get_field "ShouldNotCreateEnvResources" (rev _)) with (@None value);
      [reflexivity|].
    symmetry. apply get_field_None. rewrite keys_rev.
    intros Hin. apply keys_condition_pairs in Hin as (c & _ & Heq).
    discriminate Heq.
  - intros k Hk.
    apply (proj1 (@keys_spread_fromPairs k _ _ (condition_pairs_plain _)))
      in Hk.
    destruct Hk as [Hk | [<- | []]].
    + right. now apply keys_condition_pairs.
    + now left.
Qed.

(** ** The Parameters section of the compiled document *)

Lemma default_in_fixed handlerDir n :
  default_in (fixed_parameters handlerDir) n =
  if String.eqb n "resourceName" then VString handlerDir else VUndefined.
Proof.
  unfold default_in, entry_fields, fixed_parameters. simpl.
  destruct (String.eqb n "env") eqn:E.
  - apply String.eqb_eq in E. subst n. reflexivity.
  - destruct (String.eqb n "resourceName"); reflexivity.
Qed.

Lemma existsb_named (ps : list CFParameter.t) p :
  In p ps ->
  existsb (fun q => String.eqb (CFParameter.name q) (CFParameter.name p)) ps = true.
Proof.
  intros H. apply existsb_exists. exists p. split; auto. apply String.eqb_refl.
Qed.

(** Parameters of one name that agree on the default: it is the one
    supplied last. *)
Lemma last_default_agree n d (ps : list CFParameter.t) :
  (forall q, In q ps -> CFParameter.name q = n -> CFParameter.defaultValue q = d) ->
  (exists q, In q ps /\ CFParameter.name q = n) ->
  last_default n ps = d.
Proof.
  induction ps as [|p ps IH]; intros Hall (q & Hq & Hn); [destruct Hq|].
  simpl.
  destruct (existsb (fun q => String.eqb (CFParameter.name q) n) ps) eqn:E.
  - rewrite IH.
    + destruct d; auto.
      destruct (String.eqb (CFParameter.name p) n) eqn:Ep; auto.
      apply String.eqb_eq in Ep. apply Hall; simpl; auto.
    + intros q' Hq'. apply Hall. now right.
    + apply existsb_exists in E as (q' & Hq' & Hn').
      apply String.eqb_eq in Hn'. eauto.
  - rewrite (last_default_unnamed _ _ E).
    destruct Hq as [-> | Hq].
    + apply String.eqb_eq in Hn as Hn'. rewrite Hn'. apply Hall; simpl; auto.
    + exfalso. apply not_true_iff_false in E. apply E.
      apply existsb_exists. exists q. split; auto. now apply String.eqb_eq.
Qed.

(** No parameter adds an entry named [__proto__]. *)
Lemma get_add_parameters_proto ps : forall fs,
  get_field "__proto__" (fold_left add_parameter ps fs)
  = get_field "__proto__" fs.
Proof.
  induction ps as [|p ps IH]; intros fs; simpl; [reflexivity|].
  rewrite IH. unfold add_parameter.
  destruct (String.eqb (CFParameter.name p) "__proto__") eqn:E; auto.
  apply String.eqb_neq in E. apply get_set_other. congruence.
Qed.

(** The entry of every collected parameter not named [__proto__]. *)
Lemma get_Parameters handlerDir metadata p :
  In p (collected (LambdaFunction.eventSource metadata)
                  (LambdaFunction.environment metadata)
                  (LambdaFunction.permissions metadata)) ->
  CFParameter.name p <> "__proto__" ->
  get_field (CFParameter.name p)
    (fold_left add_parameter
       (collected (LambdaFunction.eventSource metadata)
                  (LambdaFunction.environment metadata)
                  (LambdaFunction.permissions metadata))
       (fixed_parameters handlerDir))
  = Some (obj [ "Type" ~> "String";
                "Default" ~>
                  optional
                    (supplied_default handlerDir (CFParameter.name p)
                       (collected (LambdaFunction.eventSource metadata)
                                  (LambdaFunction.environment metadata)
                                  (LambdaFunction.permissions metadata))) ]).
Proof.
  intros Hin Hname.
  rewrite get_add_parameters by (auto; apply fixed_parameter_entries).
  rewrite (existsb_named _ _ Hin), default_in_fixed. unfold supplied_default.
  destruct (last_default _ _); [reflexivity|].
  now destruct (String.eqb (CFParameter.name p) "resourceName").
Qed.

(** C8, as amended: a collected parameter named [__proto__] has no entry
    in the Parameters section (lodash's merge does not copy that key).
    The entry of any other collected parameter is
    [{Type: "String", Default}], its Default being the value supplied last
    among the collected parameters of that name, the function's name for
    [resourceName] when none supplied one, and [undefined] otherwise; it is
    serialized with that Default, or with no Default field at all.  For a
    name other than [resourceName] whose parameters agree on the default,
    the serialized Default is the one the parameter supplied, if any. *)
Theorem parameter_default
  (handlerDir : string) (metadata : LambdaFunction.t) (r : Ref CFParameter.t) :
  In r (parameters_of metadata) ->
  exists doc Parameters,
    cfTemplate handlerDir metadata = Some doc /\
    prop "Parameters" doc = Some (VObject Parameters) /\
    if String.eqb (CFParameter.name (deref r)) "__proto__"
    then get_field (CFParameter.name (deref r)) Parameters = None
    else
      exists entry,
        get_field (CFParameter.name (deref r)) Parameters = Some entry /\
        let supplied :=
          supplied_default handlerDir (CFParameter.name (deref r))
            (map (@deref _) (parameters_of metadata)) in
        entry = obj [ "Type" ~> "String"; "Default" ~> optional supplied ] /\
        stringify entry =
          match supplied with
          | Some d => obj [ "Type" ~> "String"; "Default" ~> d ]
          | None => obj [ "Type" ~> "String" ]
          end /\
        (CFParameter.name (deref r) <> "resourceName" ->
         (forall q, In q (parameters_of metadata) ->
                    CFParameter.name (deref q) = CFParameter.name (deref r) ->
                    CFParameter.defaultValue (deref q)
                    = CFParameter.defaultValue (deref r)) ->
         prop "Default" (stringify entry)
         = option_map VString (CFParameter.defaultValue (deref r))).
Proof.
  intros Hr. unfold parameters_of in *.
  assert (Hin : In (deref r)
                   (collected (LambdaFunction.eventSource metadata)
                              (LambdaFunction.environment metadata)
                              (LambdaFunction.permissions metadata))).
  { rewrite <- parameters_collected. now apply in_map. }
  assemble metadata. rewrite parameters_collected.
  eexists. eexists.
  split; [reflexivity|]. split; [reflexivity|].
  destruct (String.eqb (CFParameter.name (deref r)) "__proto__") eqn:Eproto.
  { apply String.eqb_eq in Eproto. rewrite Eproto.
    now rewrite get_add_parameters_proto. }
  apply String.eqb_neq in Eproto.
  eexists.
  split; [apply (get_Parameters handlerDir metadata _ Hin Eproto)|].
  cbv zeta. split; [reflexivity|]. split.
  - now destruct (supplied_default _ _ _).
  - intros Hname Hagree. unfold supplied_default.
    rewrite (@last_default_agree _ (CFParameter.defaultValue (deref r))).
    + apply String.eqb_neq in Hname. rewrite Hname.
      now destruct (CFParameter.defaultValue (deref r)).
    + intros q Hq Hn. rewrite <- parameters_collected in Hq.
      apply in_map_iff in Hq as (q' & <- & Hq'). now apply Hagree.
    + eauto.
Qed.

(** C8, as stated, fails twice.  A parameter named [resourceName] that
    supplies no default is serialized with the function's name as Default;
    and of two parameters of one name, the one without a default is
    serialized with the default of the other. *)
Lemma default_not_iff_supplied :
  ~ default_iff_supplied "fn"
      (LambdaFunction.mk
         [ OfSendMailPermission
             (SendMailPermission.mk (Param.mk "resourceName" None)) ]
         [] None) /\
  ~ default_iff_supplied "fn"
      (LambdaFunction.mk
         [ OfSendMailPermission
             (SendMailPermission.mk (Param.mk "sender" (Some "a@example.com")));
           OfSendMailPermission
             (SendMailPermission.mk (Param.mk "sender" None)) ]
         [] None).
Proof.
  split; intros H.
  - destruct (H (mkRef 0 (CFParameter.mk "resourceName" None)))
      as (doc & Ps & entry & Hdoc & HPs & Hentry & Hiff).
    + left. reflexivity.
    + vm_compute in Hdoc. injection Hdoc as <-.
      vm_compute in HPs. injection HPs as <-.
      vm_compute in Hentry. injection Hentry as <-.
      vm_compute in Hiff. apply (proj1 Hiff); [discriminate | reflexivity].
  - destruct (H (mkRef 1 (CFParameter.mk "sender" None)))
      as (doc & Ps & entry & Hdoc & HPs & Hentry & Hiff).
    + right. left. reflexivity.
    + vm_compute in Hdoc. injection Hdoc as <-.
      vm_compute in HPs. injection HPs as <-.
      vm_compute in Hentry. injection Hentry as <-.
      vm_compute in Hiff. apply (proj1 Hiff); [discriminate | reflexivity].
Qed.

Lemma parameter_default_witness :
  let metadata :=
    LambdaFunction.mk
      [ OfSendMailPermission
          (SendMailPermission.mk (Param.mk "sender" (Some "a@example.com")));
        OfTablePermission
          (TablePermission.mk (Table.mk "api1" "Notes") [ReadItem]) ]
      [] None in
  let r := mkRef 0 (CFParameter.mk "sender" (Some "a@example.com")) in
  In r (parameters_of metadata) /\
  exists doc Parameters,
    cfTemplate "fn" metadata = Some doc /\
    prop "Parameters" doc = Some (VObject Parameters) /\
    exists entry,
    get_field "sender" Parameters = Some entry /\
    let supplied :=
      supplied_default "fn" "sender" (map (@deref _) (parameters_of metadata)) in
    entry = obj [ "Type" ~> "String"; "Default" ~> optional supplied ] /\
    stringify entry =
      match supplied with
      | Some d => obj [ "Type" ~> "String"; "Default" ~> d ]
      | None => obj [ "Type" ~> "String" ]
      end /\
    ("sender" <> "resourceName" ->
     (forall q, In q (parameters_of metadata) ->
                CFParameter.name (deref q) = "sender" ->
                CFParameter.defaultValue (deref q) = Some "a@example.com") ->
     prop "Default" (stringify entry) = Some (VString "a@example.com")).
Proof.
  intros metadata r.
  assert (Hr : In r (parameters_of metadata)) by (left; reflexivity).
  split; [exact Hr|].
  exact (parameter_default "fn" metadata r Hr).
Defined.

(** C1: two permissions on one table leave exactly one entry under the
    table's parameter name, though the assembler collects a parameter
    object for each. *)
Theorem one_parameter_per_table
  (handlerDir : string) (metadata : LambdaFunction.t)
  (front middle back : list Permission) (first second : TablePermission.t) :
  LambdaFunction.permissions metadata
    = (front ++ OfTablePermission first
         :: middle ++ OfTablePermission second :: back)%list ->
  Table.apiName (TablePermission.table first)
    = Table.apiName (TablePermission.table second) ->
  Table.tableName (TablePermission.table first)
    = Table.tableName (TablePermission.table second) ->
  let key :=
    "api" ++ Table.apiName (TablePermission.table first) ++ "GraphQLAPIIdOutput" in
  CFParameter.name
    (toParameter (apiTableOutputReference (TablePermission.table first))) = key /\
  CFParameter.name
    (toParameter (apiTableOutputReference (TablePermission.table second))) = key /\
  2 <= count_occ string_dec
         (map (fun r => CFParameter.name (deref r)) (parameters_of metadata)) key /\
  exists doc Parameters,
    cfTemplate handlerDir metadata = Some doc /\
    prop "Parameters" doc = Some (VObject Parameters) /\
    count_key key Parameters = 1.
Proof.
  intros Hperms Hapi Htable key.
  split; [reflexivity|]. split; [subst key; now rewrite Hapi|].
  assert (Hnames :
    map (fun r => CFParameter.name (deref r)) (parameters_of metadata)
    = map CFParameter.name
        (collected (LambdaFunction.eventSource metadata)
                   (LambdaFunction.environment metadata)
                   (LambdaFunction.permissions metadata))).
  { unfold parameters_of. now rewrite <- parameters_collected, map_map. }
  assert (Hcount :
    2 <= count_occ string_dec
           (map CFParameter.name
              (collected (LambdaFunction.eventSource metadata)
                         (LambdaFunction.environment metadata)
                         (LambdaFunction.permissions metadata))) key).
  { unfold collected. rewrite Hperms.
    rewrite !map_app, !count_occ_app, !flat_map_app. cbn [flat_map].
    rewrite !map_app, !count_occ_app, !flat_map_app. cbn [flat_map].
    rewrite !map_app, !count_occ_app.
    assert (H1 : count_occ string_dec
                   (map CFParameter.name
                      (parameters_of_permission (OfTablePermission first))) key = 1).
    { simpl. now destruct (string_dec _ _). }
    assert (H2 : count_occ string_dec
                   (map CFParameter.name
                      (parameters_of_permission (OfTablePermission second))) key = 1).
    { simpl. rewrite <- Hapi. now destruct (string_dec _ _). }
    lia. }
  split; [now rewrite Hnames|].
  assemble metadata.
  eexists. eexists. split; [reflexivity|]. split; [reflexivity|].
  apply count_key_one.
  - apply add_parameters_NoDup. simpl.
    constructor; [simpl; intros [H | []]; discriminate H|].
    constructor; [simpl; tauto | constructor].
  - apply add_parameters_keys. left. split.
    + apply (count_occ_In string_dec). lia.
    + subst key. discriminate.
Qed.

Lemma one_parameter_per_table_witness :
  let table := Table.mk "api1" "Notes" in
  let first := TablePermission.mk table [ReadItem] in
  let second := TablePermission.mk table [UpdateItem] in
  let metadata :=
    LambdaFunction.mk [OfTablePermission first; OfTablePermission second] [] None in
  LambdaFunction.permissions metadata
    = ([] ++ OfTablePermission first :: [] ++ OfTablePermission second :: [])%list /\
  Table.apiName (TablePermission.table first)
    = Table.apiName (TablePermission.table second) /\
  Table.tableName (TablePermission.table first)
    = Table.tableName (TablePermission.table second) /\
  2 <= count_occ string_dec
         (map (fun r => CFParameter.name (deref r)) (parameters_of metadata))
         "apiapi1GraphQLAPIIdOutput" /\
  exists doc Parameters,
    cfTemplate "fn" metadata = Some doc /\
    prop "Parameters" doc = Some (VObject Parameters) /\
    count_key "apiapi1GraphQLAPIIdOutput" Parameters = 1.
Proof.
  intros table first second metadata.
  split; [reflexivity|]. split; [reflexivity|]. split; [reflexivity|].
  exact (proj2 (proj2
    (one_parameter_per_table "fn" metadata [] [] [] first second
       eq_refl eq_refl eq_refl))).
Defined.

Lemma colliding_condition_last_wins_witness :
  let earlier :=
    CoalescedVariable.mk "X" (OfParameter (Param.mk "a" None))
                             (OfParameter (Param.mk "b" None)) in
  let later :=
    CoalescedVariable.mk "X" (OfParameter (Param.mk "c" None))
                             (OfParameter (Param.mk "d" None)) in
  let back := [OfTableNameVariable (TableNameVariable.mk (Table.mk "myApi" "Todo"))] in
  let metadata :=
    LambdaFunction.mk []
      (OfCoalescedVariable earlier :: OfCoalescedVariable later :: back) None in
  (forall c, In (OfCoalescedVariable c) back ->
             CoalescedVariable.name c <> CoalescedVariable.name later) /\
  exists doc Conditions produced,
    cfTemplate "fn" metadata = Some doc /\
    prop "Conditions" doc = Some (VObject Conditions) /\
    toConditions (OfCoalescedVariable later) = [produced] /\
    CFConditionDefinition.name produced = "FirstNotEmpty_X" /\
    count_key "FirstNotEmpty_X" Conditions = 1 /\
    get_field "FirstNotEmpty_X" Conditions
      = Some (CFConditionDefinition.block produced).
Proof.
  intros earlier later back metadata.
  assert (Hback : forall c, In (OfCoalescedVariable c) back ->
                            CoalescedVariable.name c <> CoalescedVariable.name later).
  { intros c [H | []]. discriminate H. }
  split; [exact Hback|].
  exact (colliding_condition_last_wins "fn" metadata [] [] back earlier later
           eq_refl eq_refl Hback).
Defined.

Lemma trigger_resource_is_event_source_arn_witness :
  let table := Table.mk "api1" "Notes" in
  let metadata := LambdaFunction.mk [] [] (Some table) in
  LambdaFunction.eventSource metadata = Some table /\
  exists doc statement resource arn,
    cfTemplate "fn" metadata = Some doc /\
    lookup_path
      ["Resources"; "LambdaTriggerPolicy"; "Properties"; "PolicyDocument";
       "Statement"] doc = Some (VArray [statement]) /\
    prop "Resource" statement = Some resource /\
    lookup_path
      ["Resources"; "LambdaEventSourceMapping"; "Properties"; "EventSourceArn"]
      doc = Some arn /\
    resource = arn /\
    arn = toStreamArnExpression table /\
    arn = obj [ "Fn::ImportValue" ~>
                  obj [ "Fn::Sub" ~>
                          "${apiapi1GraphQLAPIIdOutput}:GetAtt:NotesTable:StreamArn" ] ].
Proof.
  intros table metadata. split; [reflexivity|].
  exact (trigger_resource_is_event_source_arn "fn" metadata eq_refl).
Defined.

(** * Further properties *)

(** ** uniqBy and groupBy *)

Section UniqBy.

Context {A : Type} (f : A -> string).

Let step (result : list A) (x : A) : list A :=
  if existsb (fun y => String.eqb (f y) (f x)) result
  then result else (result ++ [x])%list.

Lemma uniqBy_from_incl (l : list A) : forall acc x,
  In x (fold_left step l acc) -> In x acc \/ In x l.
Proof.
  induction l as [|a l IH]; intros acc x H; simpl in *; auto.
  apply IH in H as [H | H]; auto. unfold step in H.
  destruct (existsb _ acc); auto.
  apply in_app_or in H as [H | [<- | []]]; auto.
Qed.

Lemma uniqBy_from_keeps (l : list A) : forall acc x,
  In x acc -> In x (fold_left step l acc).
Proof.
  induction l as [|a l IH]; intros acc x H; simpl; auto.
  apply IH. unfold step. destruct (existsb _ acc); auto.
  apply in_or_app. now left.
Qed.

Lemma uniqBy_from_NoDup (l : list A) : forall acc,
  NoDup (map f acc) -> NoDup (map f (fold_left step l acc)).
Proof.
  induction l as [|a l IH]; intros acc H; simpl; auto.
  apply IH. unfold step.
  destruct (existsb (fun y => String.eqb (f y) (f a)) acc) eqn:E; auto.
  rewrite map_app. simpl. apply NoDup_app; auto.
  - constructor; [simpl; tauto | constructor].
  - intros k Hk [<- | []]. apply in_map_iff in Hk as (y & Hy & Hin).
    apply not_true_iff_false in E. apply E. apply existsb_exists.
    exists y. split; auto. now apply String.eqb_eq.
Qed.

Lemma uniqBy_from_covers (l : list A) : forall acc x,
  In x l -> exists y, In y (fold_left step l acc) /\ f y = f x.
Proof.
  induction l as [|a l IH]; intros acc x H; [destruct H|]. simpl.
  destruct H as [-> | H]; [|now apply IH].
  unfold step at 2.
  destruct (existsb (fun y => String.eqb (f y) (f x)) acc) eqn:E.
  - apply existsb_exists in E as (y & Hy & Heq). apply String.eqb_eq in Heq.
    exists y. split; auto. now apply uniqBy_from_keeps.
  - exists x. split; auto. apply uniqBy_from_keeps. apply in_or_app.
    right. now left.
Qed.

Lemma uniqBy_incl (l : list A) x : In x (Lodash.uniqBy f l) -> In x l.
Proof.
  intros H. apply uniqBy_from_incl in H as [[] | H]. exact H.
Qed.

Lemma uniqBy_NoDup (l : list A) : NoDup (map f (Lodash.uniqBy f l)).
Proof.
  apply uniqBy_from_NoDup. constructor.
Qed.

Lemma uniqBy_covers (l : list A) x :
  In x l -> exists y, In y (Lodash.uniqBy f l) /\ f y = f x.
Proof.
  apply uniqBy_from_covers.
Qed.

End UniqBy.

Section GroupBy.

Context {A : Type} (f : A -> string).

(** What holds of every group: it is not empty, and its elements compute
    its key. *)
Let grouped (source : A -> Prop) (result : list (string * list A)) : Prop :=
  NoDup (map fst result) /\
  forall k g, In (k, g) result ->
    g <> [] /\ forall y, In y g -> f y = k /\ source y.

Lemma push_group_keys k (x : A) result k' :
  In k' (map fst (Lodash.push_group k x result))
  <-> k' = k \/ In k' (map fst result).
Proof.
  induction result as [|[k0 g0] result IH]; simpl.
  - intuition.
  - destruct (String.eqb k k0) eqn:E; simpl.
    + apply String.eqb_eq in E. subst. intuition.
    + rewrite IH. intuition.
Qed.

Lemma push_group_In k (x : A) result k' g' :
  In (k', g') (Lodash.push_group k x result) ->
  (k' = k /\ g' = [x]) \/
  (exists g, In (k', g) result /\
             (g' = g \/ (k' = k /\ g' = (g ++ [x])%list))).
Proof.
  induction result as [|[k0 g0] result IH]; simpl.
  - intros [H | []]. injection H as <- <-. now left.
  - destruct (String.eqb k k0) eqn:E; simpl.
    + apply String.eqb_eq in E. subst k0.
      intros [H | H].
      * injection H as <- <-. right. exists g0. auto.
      * right. exists g'. auto.
    + intros [H | H].
      * injection H as <- <-. right. exists g0. auto.
      * apply IH in H as [H | (g & Hg & H)]; auto.
        right. exists g. auto.
Qed.

Lemma push_group_grows k (x : A) result k' g :
  In (k', g) result ->
  exists g', In (k', g') (Lodash.push_group k x result) /\
             forall y, In y g -> In y g'.
Proof.
  induction result as [|[k0 g0] result IH]; simpl; [tauto|].
  intros [H | H].
  - injection H as -> ->.
    destruct (String.eqb k k'); eexists; (split; [left; reflexivity|]); auto.
    intros y Hy. apply in_or_app. now left.
  - destruct (String.eqb k k0).
    + exists g. split; [now right | auto].
    + destruct (IH H) as (g' & Hg' & Hincl). exists g'. split; [now right | auto].
Qed.

Lemma push_group_holds k (x : A) result :
  NoDup (map fst result) ->
  exists g, In (k, g) (Lodash.push_group k x result) /\ In x g.
Proof.
  induction result as [|[k0 g0] result IH]; simpl; intros Hnd.
  - exists [x]. simpl. auto.
  - inversion Hnd; subst. destruct (String.eqb k k0) eqn:E.
    + apply String.eqb_eq in E. subst k0. exists (g0 ++ [x])%list.
      split; [now left|]. apply in_or_app. right. now left.
    + destruct (IH H2) as (g & Hg & Hx). exists g. split; [now right | auto].
Qed.

Lemma push_group_NoDup k (x : A) result :
  NoDup (map fst result) -> NoDup (map fst (Lodash.push_group k x result)).
Proof.
  induction result as [|[k0 g0] result IH]; simpl; intros Hnd.
  - constructor; [tauto | constructor].
  - inversion Hnd; subst. destruct (String.eqb k k0) eqn:E; simpl.
    + now constructor.
    + constructor; [|now apply IH]. intros Hin.
      apply push_group_keys in Hin as [-> | Hin]; [|tauto].
      now rewrite String.eqb_refl in E.
Qed.

Lemma push_group_grouped (source : A -> Prop) (x : A) result :
  source x -> grouped source result ->
  grouped source (Lodash.push_group (f x) x result).
Proof.
  intros Hx [Hnd Hall]. split; [now apply push_group_NoDup|].
  intros k g Hin.
  apply push_group_In in Hin as [[-> ->] | (g0 & Hg0 & [-> | [-> ->]])].
  - split; [discriminate|]. intros y [<- | []]. auto.
  - now apply Hall.
  - destruct (Hall _ _ Hg0) as [_ Hys]. split.
    + intros Heq. apply app_eq_nil in Heq as [_ Heq]. discriminate Heq.
    + intros y Hy. apply in_app_or in Hy as [Hy | [<- | []]]; auto.
Qed.

Lemma groupBy_from_grouped (source : A -> Prop) (l : list A) : forall acc,
  (forall x, In x l -> source x) ->
  grouped source acc ->
  grouped source (fold_left (fun r x => Lodash.push_group (f x) x r) l acc).
Proof.
  induction l as [|a l IH]; intros acc Hl Hacc; simpl; auto.
  apply IH; [intros x Hx; apply Hl; now right|].
  apply push_group_grouped; auto. apply Hl. now left.
Qed.

Lemma groupBy_from_grows (l : list A) : forall acc k g,
  In (k, g) acc ->
  exists g', In (k, g') (fold_left (fun r x => Lodash.push_group (f x) x r) l acc)
             /\ forall y, In y g -> In y g'.
Proof.
  induction l as [|a l IH]; intros acc k g H; simpl.
  - exists g. auto.
  - destruct (push_group_grows (f a) a _ _ _ H) as (g1 & Hg1 & Hincl1).
    destruct (IH _ _ _ Hg1) as (g2 & Hg2 & Hincl2).
    exists g2. split; auto.
Qed.

Lemma groupBy_from_holds (l : list A) : forall acc x,
  NoDup (map fst acc) -> In x l ->
  exists g, In (f x, g) (fold_left (fun r x => Lodash.push_group (f x) x r) l acc)
            /\ In x g.
Proof.
  induction l as [|a l IH]; intros acc x Hnd H; [destruct H|]. simpl.
  destruct H as [-> | H].
  - destruct (push_group_holds (f x) x acc Hnd) as (g & Hg & Hx).
    destruct (groupBy_from_grows l _ _ _ Hg) as (g' & Hg' & Hincl).
    exists g'. auto.
  - apply IH; auto. now apply push_group_NoDup.
Qed.

(** The groups have distinct keys, none is empty, each holds elements of
    the list that compute its key, and every element is in the group of
    its key. *)
Lemma groupBy_spec (l : list A) :
  NoDup (map fst (Lodash.groupBy f l)) /\
  (forall k g, In (k, g) (Lodash.groupBy f l) ->
     g <> [] /\ forall y, In y g -> f y = k /\ In y l) /\
  (forall x, In x l ->
     exists g, In (f x, g) (Lodash.groupBy f l) /\ In x g).
Proof.
  destruct (@groupBy_from_grouped (fun y => In y l) l [])
    as [Hnd Hall]; auto.
  { split; [constructor | intros k g []]. }
  repeat split; auto.
  - now apply (Hall k g).
  - apply (Hall k g); auto.
  - apply (Hall k g); auto.
  - intros x Hx. apply groupBy_from_holds; auto. constructor.
Qed.

(** Elements that differ under [h] stay so within each group. *)
Lemma groupBy_from_NoDup {B} (h : A -> B) (l : list A) : forall acc,
  NoDup (map h l) ->
  (forall k g, In (k, g) acc -> NoDup (map h g)) ->
  (forall k g y x, In (k, g) acc -> In y g -> In x l -> h y <> h x) ->
  forall k g,
    In (k, g) (fold_left (fun r x => Lodash.push_group (f x) x r) l acc) ->
    NoDup (map h g).
Proof.
  induction l as [|a l IH]; intros acc Hl Hacc Hsep k g; simpl.
  - apply Hacc.
  - inversion Hl as [|? ? Hnotin Hl']; subst.
    apply IH; auto.
    + intros k' g' Hin.
      apply push_group_In in Hin as [[-> ->] | (g0 & Hg0 & [-> | [-> ->]])].
      * constructor; [simpl; tauto | constructor].
      * now apply (Hacc k' g0).
      * rewrite map_app. apply NoDup_app.
        -- now apply (Hacc (f a) g0).
        -- constructor; [simpl; tauto | constructor].
        -- intros b Hb [<- | []]. apply in_map_iff in Hb as (y & Hy & Hin).
           apply (Hsep (f a) g0 y a); simpl; auto.
    + intros k' g' y x Hin Hy Hx.
      apply push_group_In in Hin as [[-> ->] | (g0 & Hg0 & [-> | [-> ->]])].
      * destruct Hy as [<- | []]. intros Heq. apply Hnotin.
        rewrite Heq. now apply in_map.
      * apply (Hsep k' g0); simpl; auto.
      * apply in_app_or in Hy as [Hy | [<- | []]].
        -- apply (Hsep (f a) g0); simpl; auto.
        -- intros Heq. apply Hnotin. rewrite Heq. now apply in_map.
Qed.

Lemma groupBy_NoDup {B} (h : A -> B) (l : list A) k g :
  NoDup (map h l) -> In (k, g) (Lodash.groupBy f l) -> NoDup (map h g).
Proof.
  intros Hl. apply (groupBy_from_NoDup h l []); auto.
  intros k' g' [].
Qed.

End GroupBy.

Lemma NoDup_map_finer {A B C} (h : A -> B) (h' : A -> C) (l : list A) :
  NoDup (map h l) ->
  (forall x y, In x l -> In y l -> h' x = h' y -> h x = h y) ->
  NoDup (map h' l).
Proof.
  induction l as [|a l IH]; simpl; intros Hnd Hfiner; [constructor|].
  inversion Hnd as [|? ? Hnotin Hnd']; subst. constructor.
  - intros Hin. apply in_map_iff in Hin as (y & Heq & Hy).
    apply Hnotin. rewrite <- (Hfiner y a); auto. now apply in_map.
  - apply IH; auto.
Qed.

(** ** The dependencies recorded for a function *)

Lemma dash_split (a a' b b' : string) :
  dash_free a = true -> dash_free a' = true ->
  a ++ "-" ++ b = a' ++ "-" ++ b' -> a = a' /\ b = b'.
Proof.
  revert a'. induction a as [|c a IH]; intros [|c' a'] Ha Ha' H; simpl in *.
  - injection H as ->. auto.
  - injection H as <- _. discriminate Ha'.
  - injection H as -> _. discriminate Ha.
  - injection H as -> H.
    apply andb_prop in Ha as [_ Ha]. apply andb_prop in Ha' as [_ Ha'].
    destruct (IH a' Ha Ha' H) as [-> ->]. auto.
Qed.

Lemma group_key_inj (r r' : ResourceOutputReference.t) :
  dash_free (ResourceOutputReference.category r) = true ->
  dash_free (ResourceOutputReference.category r') = true ->
  group_key r = group_key r' ->
  ResourceOutputReference.category r = ResourceOutputReference.category r' /\
  ResourceOutputReference.resource r = ResourceOutputReference.resource r'.
Proof.
  intros H H' Heq. now apply dash_split.
Qed.

Lemma reference_key_inj (r r' : ResourceOutputReference.t) :
  dash_free (ResourceOutputReference.category r) = true ->
  dash_free (ResourceOutputReference.category r') = true ->
  dash_free (ResourceOutputReference.resource r) = true ->
  dash_free (ResourceOutputReference.resource r') = true ->
  reference_key r = reference_key r' -> r = r'.
Proof.
  intros Hc Hc' Hr Hr' Heq. unfold reference_key in Heq.
  apply dash_split in Heq as [Hcat Heq]; auto.
  apply dash_split in Heq as [Hres Hout]; auto.
  destruct r, r'. simpl in *. congruence.
Qed.

(** Groups none of which is empty, as heads and tails. *)
Lemma groups_heads {A} (f : A -> string) (G : list (string * list A)) :
  (forall k g, In (k, g) G -> g <> [] /\ forall y, In y g -> f y = k) ->
  exists groups : list (A * list A),
    map snd G = map (fun g => fst g :: snd g) groups /\
    map fst G = map (fun g => f (fst g)) groups.
Proof.
  induction G as [|[k g] G IH]; intros H.
  - exists []. auto.
  - destruct IH as (groups & Hs & Hk).
    { intros k' g' Hin. apply H. now right. }
    destruct (H k g (or_introl eq_refl)) as [Hne Hkey].
    destruct g as [|a rest]; [now destruct Hne|].
    exists ((a, rest) :: groups). simpl. rewrite Hs, Hk. split; auto.
    f_equal. symmetry. apply Hkey. now left.
Qed.

Lemma map_throwing_heads {A B} (h : A -> list A -> B) (groups : list (A * list A)) :
  map_throwing
    (fun l => match l with [] => None | first :: _ => Some (h first l) end)
    (map (fun g => fst g :: snd g) groups)
  = Some (map (fun g => h (fst g) (fst g :: snd g)) groups).
Proof.
  induction groups as [|[a rest] groups IH]; simpl; [reflexivity|].
  now rewrite IH.
Qed.

Lemma resourceReferences_spec (metadata : LambdaFunction.t) :
  NoDup (map fst (resourceReferences metadata)) /\
  (forall k g, In (k, g) (resourceReferences metadata) ->
     g <> [] /\
     forall y, In y g ->
       group_key y = k /\
       In y (Lodash.uniqBy reference_key (discovered metadata))) /\
  (forall x, In x (Lodash.uniqBy reference_key (discovered metadata)) ->
     exists g, In (group_key x, g) (resourceReferences metadata) /\ In x g).
Proof.
  apply (groupBy_spec group_key
           (Lodash.uniqBy reference_key (discovered metadata))).
Qed.

(** Every [references[0]] is defined: the entry is computed, one element of
    [dependsOn] per group; the groups have distinct keys, and each holds
    discovered references that share the key of its first one. *)
Lemma dependsOn_heads (metadata : LambdaFunction.t) :
  exists groups : list (ResourceOutputReference.t * list ResourceOutputReference.t),
    Object_values (resourceReferences metadata)
      = map (fun g => fst g :: snd g) groups /\
    dependsOn metadata
      = Some (map (fun g =>
                     dependsOn_entry
                       (ResourceOutputReference.category (fst g))
                       (ResourceOutputReference.resource (fst g))
                       (map ResourceOutputReference.output (fst g :: snd g)))
                  groups) /\
    backendConfig_function metadata <> None /\
    NoDup (map (fun g => group_key (fst g)) groups) /\
    forall g r, In g groups -> In r (fst g :: snd g) ->
      In r (discovered metadata) /\ group_key r = group_key (fst g).
Proof.
  destruct (resourceReferences_spec metadata) as (Hnd & Hall & _).
  destruct (groups_heads group_key (resourceReferences metadata))
    as (groups & Hs & Hk).
  { intros k g Hin. destruct (Hall k g Hin) as [Hne Hys].
    split; auto. intros y Hy. now apply Hys. }
  assert (Hdep : dependsOn metadata
      = Some (map (fun g =>
                     dependsOn_entry
                       (ResourceOutputReference.category (fst g))
                       (ResourceOutputReference.resource (fst g))
                       (map ResourceOutputReference.output (fst g :: snd g)))
                  groups)).
  { unfold dependsOn, Object_values. rewrite Hs.
    apply (map_throwing_heads
             (fun first references =>
                dependsOn_entry
                  (ResourceOutputReference.category first)
                  (ResourceOutputReference.resource first)
                  (map ResourceOutputReference.output references))). }
  exists groups. split; [exact Hs|]. split; [exact Hdep|].
  split; [unfold backendConfig_function; rewrite Hdep; discriminate|].
  split; [now rewrite <- Hk|].
  intros g r Hg Hr.
  assert (Hin : In (group_key (fst g), fst g :: snd g) (resourceReferences metadata)).
  { assert (H : In (group_key (fst g), fst g :: snd g)
                   (combine (map fst (resourceReferences metadata))
                            (map snd (resourceReferences metadata)))).
    { rewrite Hs, Hk.
      clear - Hg. induction groups as [|g0 groups IH]; [destruct Hg|].
      destruct Hg as [-> | Hg]; simpl; auto. }
    clear - H. induction (resourceReferences metadata) as [|[k0 g0] G IH];
      simpl in *; [tauto|].
    destruct H as [H | H]; auto. }
  destruct (Hall _ _ Hin) as [_ Hys]. destruct (Hys r Hr) as [Hkey Hu].
  split; auto. now apply uniqBy_incl in Hu.
Qed.

Lemma strings_inj (l l' : list string) : strings l = strings l' -> l = l'.
Proof.
  unfold strings. intros H. injection H as H. revert l' H.
  induction l as [|s l IH]; intros [|s' l'] H; simpl in *; try discriminate; auto.
  injection H as -> H. f_equal. auto.
Qed.

Lemma dependsOn_entry_inj c r a c' r' a' :
  dependsOn_entry c r a = dependsOn_entry c' r' a' -> c = c' /\ r = r' /\ a = a'.
Proof.
  unfold dependsOn_entry. intros H. injection H as -> -> H.
  assert (H' : strings a = strings a') by (unfold strings; now rewrite H).
  apply strings_inj in H'. auto.
Qed.

(** X16: computing the dependsOn entry never fails on [references[0]];
    it is empty exactly when no reference is discovered, no two of its
    entries have the same category and resourceName, and every entry lists
    at least one attribute, the first being the output of a discovered
    reference whose group key is that of the entry. *)
Theorem dependsOn_defined_distinct (metadata : LambdaFunction.t) :
  exists entries,
    dependsOn metadata = Some entries /\
    backendConfig_function metadata
      = Some (obj [ "service" ~> "Lambda";
                    "providerPlugin" ~> "awscloudformation";
                    "build" ~> VBool true;
                    "dependsOn" ~> VArray entries ]) /\
    (entries = [] <-> discovered metadata = []) /\
    NoDup (map (fun e => (prop "category" e, prop "resourceName" e)) entries) /\
    forall e, In e entries ->
      exists first attributes,
        In first (discovered metadata) /\
        e = dependsOn_entry (ResourceOutputReference.category first)
              (ResourceOutputReference.resource first)
              (ResourceOutputReference.output first :: attributes).
Proof.
  destruct (dependsOn_heads metadata) as (groups & Hs & Hdep & _ & Hnd & Hall).
  eexists. split; [exact Hdep|].
  split; [unfold backendConfig_function; now rewrite Hdep|].
  split; [|split].
  - split.
    + intros Hnil. apply map_eq_nil in Hnil. subst groups.
      destruct (discovered metadata) as [|r l] eqn:E; auto. exfalso.
      destruct (uniqBy_covers reference_key (discovered metadata) r)
        as (y & Hy & _); [rewrite E; now left|].
      destruct (resourceReferences_spec metadata) as (_ & _ & Hcov).
      destruct (Hcov y Hy) as (g & Hg & _).
      apply (in_map snd) in Hg. unfold Object_values in Hs.
      now rewrite Hs in Hg.
    + intros Hnil.
      assert (HRR : resourceReferences metadata = []).
      { unfold resourceReferences. fold (discovered metadata).
        now rewrite Hnil. }
      unfold Object_values in Hs. rewrite HRR in Hs. simpl in Hs.
      symmetry in Hs. apply map_eq_nil in Hs. now subst groups.
  - rewrite map_map. simpl.
    apply (NoDup_map_finer (fun g => group_key (fst g))); auto.
    intros x y _ _ Heq. injection Heq as Hc Hr. unfold group_key.
    now rewrite Hc, Hr.
  - intros e He. apply in_map_iff in He as (g & <- & Hg).
    exists (fst g), (map ResourceOutputReference.output (snd g)).
    split; [|reflexivity]. apply (Hall g (fst g) Hg). now left.
Qed.

(** X17: when no discovered reference has a dash in its category or
    resource, every discovered reference is recorded: dependsOn has an
    entry with its category and resource whose attributes hold its output. *)
Theorem dependsOn_complete
  (metadata : LambdaFunction.t) (r : ResourceOutputReference.t) :
  dash_free_references metadata ->
  In r (discovered metadata) ->
  exists entries attributes,
    dependsOn metadata = Some entries /\
    In (dependsOn_entry (ResourceOutputReference.category r)
          (ResourceOutputReference.resource r) attributes) entries /\
    In (ResourceOutputReference.output r) attributes.
Proof.
  intros Hfree Hr.
  destruct (dependsOn_heads metadata) as (groups & Hs & Hdep & _ & _ & Hall).
  destruct (uniqBy_covers reference_key (discovered metadata) r Hr)
    as (y & Hy & Hkey).
  assert (y = r) as ->.
  { pose proof (uniqBy_incl _ _ _ Hy) as Hyd.
    destruct (Hfree y Hyd), (Hfree r Hr). now apply reference_key_inj. }
  destruct (resourceReferences_spec metadata) as (_ & _ & Hcov).
  destruct (Hcov r Hy) as (g & Hg & Hrg).
  apply (in_map snd) in Hg. unfold Object_values in Hs. rewrite Hs in Hg.
  apply in_map_iff in Hg as (gr & Hgr & Hin). simpl in Hgr. subst g.
  destruct (Hall gr (fst gr) Hin (or_introl eq_refl)) as [Hfd _].
  destruct (Hall gr r Hin Hrg) as [_ Hk].
  destruct (Hfree _ Hfd) as [Hc _]. destruct (Hfree r Hr) as [Hc' _].
  destruct (group_key_inj _ _ Hc' Hc Hk) as [-> ->].
  eexists. eexists. split; [exact Hdep|]. split.
  - apply in_map_iff. exists gr. split; [reflexivity | exact Hin].
  - now apply in_map.
Qed.

Lemma dependsOn_complete_witness :
  let metadata :=
    LambdaFunction.mk
      [ OfTablePermission
          (TablePermission.mk (Table.mk "api1" "Notes") [ReadItem]);
        OfUserPoolPermission
          (UserPoolPermission.mk (UserPool.mk "users") [ListUsers]) ]
      [ OfTableNameVariable (TableNameVariable.mk (Table.mk "api1" "Notes")) ]
      None in
  let r := ResourceOutputReference.mk "auth" "users" "UserPoolId" in
  dash_free_references metadata /\
  In r (discovered metadata) /\
  exists entries attributes,
    dependsOn metadata = Some entries /\
    In (dependsOn_entry "auth" "users" attributes) entries /\
    In "UserPoolId" attributes.
Proof.
  intros metadata r.
  assert (Hfree : dash_free_references metadata).
  { intros x Hx. vm_compute in Hx.
    destruct Hx as [<- | [<- | [<- | []]]]; split; reflexivity. }
  assert (Hr : In r (discovered metadata)) by (vm_compute; tauto).
  split; [exact Hfree|]. split; [exact Hr|].
  exact (@dependsOn_complete metadata r Hfree Hr).
Defined.

(** X18: under the same condition nothing else is recorded, and nothing
    twice: every attribute of an entry is the output of a discovered
    reference with the category and resource of the entry, and no entry
    lists an attribute twice. *)
Theorem dependsOn_sound
  (metadata : LambdaFunction.t) (entries : list value)
  (category resourceName : string) (attributes : list string) :
  dash_free_references metadata ->
  dependsOn metadata = Some entries ->
  In (dependsOn_entry category resourceName attributes) entries ->
  NoDup attributes /\
  forall output, In output attributes ->
    In (ResourceOutputReference.mk category resourceName output)
       (discovered metadata).
Proof.
  intros Hfree Hsome Hentry.
  destruct (dependsOn_heads metadata) as (groups & Hs & Hdep & _ & _ & Hall).
  rewrite Hdep in Hsome. injection Hsome as <-.
  apply in_map_iff in Hentry as (g & Heq & Hg).
  apply dependsOn_entry_inj in Heq as (<- & <- & <-).
  assert (Hsame : forall y, In y (fst g :: snd g) ->
            In y (discovered metadata) /\
            ResourceOutputReference.category y
              = ResourceOutputReference.category (fst g) /\
            ResourceOutputReference.resource y
              = ResourceOutputReference.resource (fst g)).
  { intros y Hy. destruct (Hall g y Hg Hy) as [Hyd Hk].
    destruct (Hall g (fst g) Hg (or_introl eq_refl)) as [Hfd _].
    destruct (Hfree _ Hyd) as [Hc _]. destruct (Hfree _ Hfd) as [Hc' _].
    split; auto. now apply group_key_inj. }
  split.
  - assert (Hin : In (group_key (fst g), fst g :: snd g)
                     (resourceReferences metadata)).
    { destruct (resourceReferences_spec metadata) as (_ & Hgroups & Hcov).
      destruct (Hall g (fst g) Hg (or_introl eq_refl)) as [Hfd _].
      destruct (uniqBy_covers reference_key (discovered metadata) _ Hfd)
        as (y & Hy & Hkey).
      assert (y = fst g) as ->.
      { pose proof (uniqBy_incl _ _ _ Hy) as Hyd.
        destruct (Hfree y Hyd), (Hfree _ Hfd). now apply reference_key_inj. }
      destruct (Hcov _ Hy) as (g' & Hg' & Hfg').
      enough (g' = fst g :: snd g) by now subst.
      destruct (resourceReferences_spec metadata) as (Hnd & _ & _).
      assert (Hg2 : In (fst g :: snd g) (map snd (resourceReferences metadata))).
      { unfold Object_values in Hs. rewrite Hs. apply in_map_iff. eauto. }
      apply in_map_iff in Hg2 as ([k0 g0] & Heq0 & Hin0). simpl in Heq0. subst g0.
      destruct (Hgroups _ _ Hin0) as [_ Hys].
      destruct (Hys (fst g) (or_introl eq_refl)) as [Hk0 _]. subst k0.
      clear - Hnd Hg' Hin0.
      induction (resourceReferences metadata) as [|[k1 g1] G IH];
        [destruct Hg'|].
      simpl in Hnd. inversion Hnd as [|? ? Hnotin Hnd']; subst.
      destruct Hg' as [Hg' | Hg'], Hin0 as [Hin0 | Hin0].
      - congruence.
      - injection Hg' as -> ->. exfalso. apply Hnotin.
        now apply (in_map fst) in Hin0.
      - injection Hin0 as -> ->. exfalso. apply Hnotin.
        now apply (in_map fst) in Hg'.
      - now apply IH. }
    change (NoDup (map ResourceOutputReference.output (fst g :: snd g))).
    apply (NoDup_map_finer reference_key).
    + apply (groupBy_NoDup group_key reference_key _ _ _
               (uniqBy_NoDup reference_key (discovered metadata)) Hin).
    + intros x y Hx Hy Hout.
      destruct (Hsame x Hx) as (_ & Hcx & Hrx).
      destruct (Hsame y Hy) as (_ & Hcy & Hry).
      unfold reference_key. now rewrite Hcx, Hrx, Hcy, Hry, Hout.
  - intros output Hout.
    change (In output (map ResourceOutputReference.output (fst g :: snd g)))
      in Hout.
    apply in_map_iff in Hout as (y & <- & Hy).
    destruct (Hsame y Hy) as (Hyd & <- & <-). now destruct y.
Qed.

Lemma dependsOn_sound_witness :
  let metadata :=
    LambdaFunction.mk
      [ OfTablePermission
          (TablePermission.mk (Table.mk "api1" "Notes") [ReadItem]);
        OfUserPoolPermission
          (UserPoolPermission.mk (UserPool.mk "users") [ListUsers]) ]
      [ OfTableNameVariable (TableNameVariable.mk (Table.mk "api1" "Notes")) ]
      None in
  let entries :=
    [ dependsOn_entry "api" "api1" ["GraphQLAPIIdOutput"];
      dependsOn_entry "auth" "users" ["UserPoolId"] ] in
  dash_free_references metadata /\
  dependsOn metadata = Some entries /\
  In (dependsOn_entry "api" "api1" ["GraphQLAPIIdOutput"]) entries /\
  NoDup ["GraphQLAPIIdOutput"] /\
  forall output, In output ["GraphQLAPIIdOutput"] ->
    In (ResourceOutputReference.mk "api" "api1" output) (discovered metadata).
Proof.
  intros metadata entries.
  assert (Hfree : dash_free_references metadata).
  { intros x Hx. vm_compute in Hx.
    destruct Hx as [<- | [<- | [<- | []]]]; split; reflexivity. }
  assert (Hsome : dependsOn metadata = Some entries) by reflexivity.
  assert (Hentry : In (dependsOn_entry "api" "api1" ["GraphQLAPIIdOutput"])
                      entries) by (left; reflexivity).
  split; [exact Hfree|]. split; [exact Hsome|]. split; [exact Hentry|].
  exact (@dependsOn_sound metadata entries "api" "api1" ["GraphQLAPIIdOutput"]
           Hfree Hsome Hentry).
Defined.

(** ** More on the Parameters section *)

(** The objects of [parameters], spelled out. *)
Lemma parameters_objects eventSource environment permissions :
  parameters eventSource environment permissions =
  match eventSource with
  | Some t =>
      (refs_from 1 (flat_map parameters_of_variable environment
                    ++ flat_map parameters_of_permission permissions)
       ++ [mkRef 0 (toParameter t)])%list
  | None =>
      refs_from 0 (flat_map parameters_of_variable environment
                   ++ flat_map parameters_of_permission permissions)%list
  end.
Proof.
  unfold parameters, evalAlloc.
  destruct eventSource as [t|].
  - unfold bind at 1. unfold bind at 1. unfold new at 1. unfold ret at 1.
    rewrite collect_from, uniq_distinct; [reflexivity|].
    rewrite map_app, addr_refs_from. apply NoDup_app.
    + apply seq_NoDup.
    + constructor; [simpl; tauto | constructor].
    + intros a Ha [<- | []]. apply in_seq in Ha. simpl in Ha. lia.
  - unfold bind at 1. unfold ret at 1.
    rewrite collect_from, uniq_distinct; [now rewrite app_nil_r|].
    rewrite map_app, addr_refs_from, app_nil_r. apply seq_NoDup.
Qed.

(** X1: [uniq] removes nothing.  The assembler holds one parameter object
    per request of an environment variable, of a permission and of the
    event source, in that order, all of them distinct objects, whatever
    their names and defaults. *)
Theorem parameters_one_object_per_request (metadata : LambdaFunction.t) :
  NoDup (map (@addr _) (parameters_of metadata)) /\
  map (@deref _) (parameters_of metadata)
  = (flat_map parameters_of_variable (LambdaFunction.environment metadata)
     ++ flat_map parameters_of_permission (LambdaFunction.permissions metadata)
     ++ match LambdaFunction.eventSource metadata with
        | Some t => [toParameter t]
        | None => []
        end)%list /\
  length (parameters_of metadata)
  = length (flat_map parameters_of_variable (LambdaFunction.environment metadata))
    + length (flat_map parameters_of_permission
                (LambdaFunction.permissions metadata))
    + match LambdaFunction.eventSource metadata with
      | Some _ => 1
      | None => 0
      end.
Proof.
  unfold parameters_of. rewrite parameters_objects.
  destruct (LambdaFunction.eventSource metadata) as [t|].
  - rewrite !map_app, addr_refs_from, deref_refs_from, !length_app.
    repeat split.
    + apply NoDup_app.
      * apply seq_NoDup.
      * constructor; [simpl; tauto | constructor].
      * intros a Ha [<- | []]. apply in_seq in Ha. simpl in Ha. lia.
    + now rewrite <- app_assoc.
    + rewrite <- (length_map (@addr _)), addr_refs_from, length_seq, length_app.
      simpl. lia.
  - rewrite addr_refs_from, deref_refs_from, !app_nil_r.
    repeat split.
    + apply seq_NoDup.
    + rewrite <- (length_map (@addr _)), addr_refs_from, length_seq, length_app.
      lia.
Qed.

Lemma keys_add_parameters ps : forall fs,
  keys (fold_left add_parameter ps fs) =
  enumeration (keys fs) (written_names (map CFParameter.name ps)).
Proof.
  unfold enumeration, written_names.
  induction ps as [|p ps IH]; intros fs; cbn [map filter fold_left];
    [reflexivity|].
  rewrite IH. unfold add_parameter.
  destruct (String.eqb (CFParameter.name p) "__proto__"); cbn [negb fold_left].
  - reflexivity.
  - now rewrite keys_set_field_order.
Qed.

(** Where no key spells an array index, the enumeration is the order of
    the first occurrences. *)
Lemma enumeration_first_occurrences (l : list string) : forall ks,
  Forall (fun k => array_index k = None) l ->
  enumeration ks l =
  fold_left
    (fun seen k =>
       if existsb (String.eqb k) seen then seen else (seen ++ [k])%list)
    l ks.
Proof.
  unfold enumeration.
  induction l as [|k l IH]; intros ks H; cbn [fold_left]; [reflexivity|].
  inversion H as [|? ? Hk Hl]; subst.
  rewrite insert_key_last by assumption. now apply IH.
Qed.

(** What it takes for [a] to be enumerated before [b]. *)
Lemma enumerated_before_cases (a b : string) :
  enumerated_before a b = true ->
  exists n, array_index a = Some n /\
            match array_index b with
            | Some m => (n < m)%N
            | None => True
            end.
Proof.
  unfold enumerated_before.
  destruct (array_index a) as [n|]; [|discriminate].
  destruct (array_index b) as [m|]; intros H; exists n; split; auto.
  now apply N.ltb_lt.
Qed.

(** A key written to keys that stand in enumeration order leaves them so. *)
Lemma insert_key_order k (ks : list string) :
  in_enumeration_order ks -> in_enumeration_order (insert_key k ks).
Proof.
  unfold in_enumeration_order.
  induction 1 as [|k0 ks Hk0 Hks IH]; simpl.
  - repeat constructor.
  - destruct (enumerated_before k k0) eqn:E.
    + constructor; [|now constructor].
      apply enumerated_before_cases in E as (n & Hn & Hm).
      assert (Hfirst : enumerated_before k0 k = false).
      { unfold enumerated_before. rewrite Hn.
        destruct (array_index k0) as [m|]; auto. apply N.ltb_ge. lia. }
      constructor; [exact Hfirst|].
      apply Forall_forall. intros x Hx.
      apply (proj1 (Forall_forall _ _) Hk0) in Hx.
      unfold enumerated_before in *. rewrite Hn.
      destruct (array_index x) as [i|]; auto.
      destruct (array_index k0) as [m|]; [|discriminate Hx].
      apply N.ltb_ge in Hx. apply N.ltb_ge. lia.
    + constructor; [|exact IH].
      apply Forall_forall. intros x Hx.
      apply In_insert_key in Hx as [-> | Hx]; auto.
      now apply (proj1 (Forall_forall _ _) Hk0).
Qed.

Lemma enumeration_order (l : list string) : forall ks,
  in_enumeration_order ks -> in_enumeration_order (enumeration ks l).
Proof.
  unfold enumeration.
  induction l as [|k l IH]; intros ks H; cbn [fold_left]; auto.
  apply IH. destruct (existsb _ ks); auto. now apply insert_key_order.
Qed.

(** X2: the Parameters section holds env, resourceName and the names of the
    collected parameters other than [__proto__], each once.  They stand in
    the order JavaScript enumerates them: every name at its first
    occurrence, a name that spells an array index before the greater
    indices and before all other names; when no name spells an array index
    this is env, resourceName and then the names at their first
    occurrence. *)
Theorem Parameters_keys_first_occurrence
  (handlerDir : string) (metadata : LambdaFunction.t) :
  let names :=
    written_names
      (map (fun r => CFParameter.name (deref r)) (parameters_of metadata)) in
  exists doc Parameters,
    cfTemplate handlerDir metadata = Some doc /\
    prop "Parameters" doc = Some (VObject Parameters) /\
    keys Parameters = enumeration ["env"; "resourceName"] names /\
    in_enumeration_order (keys Parameters) /\
    (Forall (fun k => array_index k = None) names ->
     keys Parameters = first_occurrences ("env" :: "resourceName" :: names)) /\
    NoDup (keys Parameters) /\
    forall k, In k (keys Parameters) <->
      k = "env" \/ k = "resourceName" \/
      (k <> "__proto__" /\
       exists r, In r (parameters_of metadata) /\ CFParameter.name (deref r) = k).
Proof.
  intros names. assemble metadata.
  assert (Hnames :
    names = written_names
              (map CFParameter.name
                 (collected (LambdaFunction.eventSource metadata)
                            (LambdaFunction.environment metadata)
                            (LambdaFunction.permissions metadata)))).
  { unfold names, parameters_of.
    now rewrite <- parameters_collected, map_map. }
  eexists. eexists. split; [reflexivity|]. split; [reflexivity|].
  split; [|split; [|split; [|split]]].
  - rewrite keys_add_parameters. now rewrite <- Hnames.
  - rewrite keys_add_parameters. apply enumeration_order.
    repeat constructor.
  - intros Hindex. rewrite keys_add_parameters, <- Hnames.
    now rewrite enumeration_first_occurrences.
  - apply add_parameters_NoDup. simpl.
    constructor; [simpl; intros [H | []]; discriminate H|].
    constructor; [simpl; tauto | constructor].
  - intros k. rewrite add_parameters_keys. unfold parameters_of.
    rewrite <- parameters_collected, map_map, in_map_iff. simpl.
    split.
    + intros [[(r & Hn & Hr) Hk] | [<- | [<- | []]]]; auto.
      right. right. split; [exact Hk|]. now exists r.
    + intros [-> | [-> | (Hk & r & Hr & Hn)]]; auto.
      left. split; [|exact Hk]. now exists r.
Qed.

(** A definition whose parameters are named 10, 2 and b: the two array
    indices are enumerated first, in ascending order. *)
Example Parameters_keys_indices_first :
  let named n := OfSendMailPermission (SendMailPermission.mk (Param.mk n None)) in
  exists doc Parameters,
    cfTemplate "fn" (LambdaFunction.mk [named "10"; named "b"; named "2"] [] None)
      = Some doc /\
    prop "Parameters" doc = Some (VObject Parameters) /\
    keys Parameters = ["2"; "10"; "env"; "resourceName"; "b"].
Proof.
  eexists. eexists. split; [reflexivity|]. split; reflexivity.
Qed.

Lemma Parameters_entry_shape handlerDir (ps : list CFParameter.t) k entry :
  get_field k (fold_left add_parameter ps (fixed_parameters handlerDir))
  = Some entry ->
  entry = obj [ "Type" ~> "String" ] \/
  exists d, entry = obj [ "Type" ~> "String"; "Default" ~> optional d ].
Proof.
  destruct (String.eqb k "__proto__") eqn:Eproto.
  { apply String.eqb_eq in Eproto. subst k.
    rewrite get_add_parameters_proto. discriminate. }
  apply String.eqb_neq in Eproto.
  rewrite get_add_parameters by (auto; apply fixed_parameter_entries).
  rewrite default_in_fixed.
  destruct (existsb _ _).
  - intros H. injection H as <-. right.
    destruct (last_default k _) as [d|].
    + now exists (Some d).
    + destruct (String.eqb k "resourceName");
        [now exists (Some handlerDir) | now exists None].
  - unfold fixed_parameters. simpl.
    destruct (String.eqb k "env"); [intros H; injection H as <-; now left|].
    destruct (String.eqb k "resourceName"); [|discriminate].
    intros H. injection H as <-. right. now exists (Some handlerDir).
Qed.

(** X3: every entry of the Parameters section declares Type "String" and,
    besides, at most a Default that is a string or undefined. *)
Theorem Parameters_entries_typed
  (handlerDir : string) (metadata : LambdaFunction.t) :
  exists doc Parameters,
    cfTemplate handlerDir metadata = Some doc /\
    prop "Parameters" doc = Some (VObject Parameters) /\
    forall k entry, get_field k Parameters = Some entry ->
      entry = obj [ "Type" ~> "String" ] \/
      exists d, entry = obj [ "Type" ~> "String"; "Default" ~> optional d ].
Proof.
  assemble metadata.
  eexists. eexists. split; [reflexivity|]. split; [reflexivity|].
  intros k entry. apply Parameters_entry_shape.
Qed.

(** ** More on the environment variables *)

(** Merging a resolved block onto a merged one overwrites the one property
    the block has: nothing deeper is mixed. *)
Lemma mergeFields_block_overwrite sv (fs : fields) :
  resolved_block sv -> Forall block_field fs ->
  exists sfs,
    sv = VObject sfs /\
    Lodash.mergeFields sfs fs = Some (spread fs sfs).
Proof.
  intros Hsv Hfs.
  destruct Hsv as [[s ->] | [[s ->] | (c & a & b & ->)]];
    eexists; (split; [reflexivity|]); cbn [Lodash.mergeFields].
  - reflexivity.
  - destruct (get_field "Fn::ImportValue" fs) as [v|] eqn:E; [|reflexivity].
    apply get_field_pair in E. apply (proj1 (Forall_forall _ _) Hfs) in E.
    destruct E as [[E _] | [(_ & s' & E) | [E _]]]; try discriminate E.
    simpl in E. subst v. reflexivity.
  - destruct (get_field "Fn::If" fs) as [v|] eqn:E; [|reflexivity].
    apply get_field_pair in E. apply (proj1 (Forall_forall _ _) Hfs) in E.
    destruct E as [[E _] | [[E _] | (_ & c' & a' & b' & E)]];
      try discriminate E.
    simpl in E. subst v. reflexivity.
Qed.

Lemma mergeValue_block_overwrite sv objValue :
  resolved_block sv ->
  (forall v, objValue = Some v -> merged_block v) ->
  exists sfs,
    sv = VObject sfs /\
    Lodash.mergeValue sv objValue
    = Some (VObject
              (spread (match objValue with Some (VObject fs) => fs | _ => [] end)
                      sfs)).
Proof.
  intros Hsv Hobj. destruct objValue as [v|].
  - destruct (Hobj v eq_refl) as (fs & -> & Hfs).
    destruct (mergeFields_block_overwrite Hsv Hfs) as (sfs & -> & Hm).
    exists sfs. split; [reflexivity|].
    now rewrite mergeValue_object, Hm.
  - destruct (@mergeFields_block_overwrite sv [] Hsv (Forall_nil _))
      as (sfs & -> & Hm).
    exists sfs. split; [reflexivity|].
    now rewrite mergeValue_object, Hm.
Qed.

Lemma baseMerge_add_variable fs (v : CFVariableDefinition.t) :
  merged_blocks fs ->
  resolved_block (CFVariableDefinition.block v) ->
  Lodash.baseMerge (VObject fs) (variable_source v)
  = Some (VObject (add_variable fs v)) /\
  merged_blocks (add_variable fs v).
Proof.
  intros Hfs Hv.
  assert (Heq : Lodash.baseMerge (VObject fs) (variable_source v)
                = Some (VObject (add_variable fs v))).
  { unfold variable_source, Lodash.baseMerge, Lodash.mergeFields, add_variable.
    destruct (@mergeValue_block_overwrite (CFVariableDefinition.block v)
                (get_field (CFVariableDefinition.name v) fs) Hv)
      as (sfs & Hblock & Hmerge).
    { intros w Hw. apply (get_field_Forall _ _ Hfs Hw). }
    rewrite Hmerge, Hblock. unfold Lodash.unwritten, entry_fields.
    destruct (String.eqb (CFVariableDefinition.name v) "__proto__");
      reflexivity. }
  split; [exact Heq|].
  destruct (@baseMerge_variable fs v Hfs Hv) as (fs' & Hm & Hfs').
  rewrite Heq in Hm. injection Hm as <-. exact Hfs'.
Qed.

Lemma merge_add_variables (vs : list CFVariableDefinition.t) : forall fs,
  merged_blocks fs ->
  Forall (fun v => resolved_block (CFVariableDefinition.block v)) vs ->
  Lodash.merge (VObject fs) (map variable_source vs)
  = Some (VObject (fold_left add_variable vs fs)).
Proof.
  unfold Lodash.merge.
  induction vs as [|v vs IH]; intros fs Hfs Hvs; cbn [map fold_left].
  - reflexivity.
  - inversion Hvs; subst.
    destruct (@baseMerge_add_variable fs v) as [-> Hfs']; auto.
Qed.

Lemma fixed_variables_merged : merged_blocks fixed_variables.
Proof.
  repeat constructor; (eexists; split; [reflexivity|]);
    repeat constructor; simpl; eauto.
Qed.

Lemma toVariables_resolved (environment : list EnvironmentVariable) :
  Forall (fun v => resolved_block (CFVariableDefinition.block v))
         (map toVariable environment).
Proof.
  apply Forall_forall. intros v Hv.
  apply in_map_iff in Hv as (e & <- & _). apply toVariable_resolved.
Qed.

(** The Variables object of the function resource, as a fold. *)
Lemma Variables_section_fold (environment : list EnvironmentVariable) :
  Lodash.merge
    (obj [ "ENV" ~> obj [ "Ref" ~> "env" ];
           "REGION" ~> obj [ "Ref" ~> "AWS::Region" ] ])
    (map (fun v =>
            obj [ CFVariableDefinition.name v ~> CFVariableDefinition.block v ])
         (map toVariable environment))
  = Some (VObject (fold_left add_variable (map toVariable environment)
                             fixed_variables)).
Proof.
  apply (@merge_add_variables (map toVariable environment) fixed_variables).
  - apply fixed_variables_merged.
  - apply toVariables_resolved.
Qed.

(** Unfolds the assembler down to the document, both merges computed. *)
Ltac assemble_all :=
  unfold cfTemplate, buildCloudFormationTemplate;
  rewrite Parameters_section, Variables_section_fold.

Lemma resolved_block_object v :
  resolved_block v -> exists sfs, v = VObject sfs.
Proof.
  intros [[s ->] | [[s ->] | (c & a & b & ->)]]; eexists; reflexivity.
Qed.

Lemma keys_add_variables vs : forall fs,
  keys (fold_left add_variable vs fs) =
  enumeration (keys fs) (written_names (map (@CFVariableDefinition.name) vs)).
Proof.
  unfold enumeration, written_names.
  induction vs as [|v vs IH]; intros fs; cbn [map filter fold_left];
    [reflexivity|].
  rewrite IH. unfold add_variable.
  destruct (String.eqb (CFVariableDefinition.name v) "__proto__");
    cbn [negb fold_left].
  - reflexivity.
  - now rewrite keys_set_field_order.
Qed.

Lemma get_add_variable n fs v sfs :
  CFVariableDefinition.block v = VObject sfs ->
  n <> "__proto__" ->
  get_field n (add_variable fs v) =
  if String.eqb (CFVariableDefinition.name v) n
  then Some (VObject (spread (entry_fields n fs) sfs))
  else get_field n fs.
Proof.
  intros Hblock Hn. unfold add_variable. rewrite Hblock.
  destruct (String.eqb (CFVariableDefinition.name v) n) eqn:E.
  - apply String.eqb_eq in E. subst n.
    apply String.eqb_neq in Hn. rewrite Hn. apply get_set_same.
  - apply String.eqb_neq in E.
    destruct (String.eqb (CFVariableDefinition.name v) "__proto__"); auto.
    apply get_set_other. congruence.
Qed.

(** No variable adds an entry named [__proto__]. *)
Lemma get_add_variables_proto vs : forall fs,
  get_field "__proto__" (fold_left add_variable vs fs)
  = get_field "__proto__" fs.
Proof.
  induction vs as [|v vs IH]; intros fs; simpl; [reflexivity|].
  rewrite IH. unfold add_variable.
  destruct (String.eqb (CFVariableDefinition.name v) "__proto__") eqn:E; auto.
  apply String.eqb_neq in E. apply get_set_other. congruence.
Qed.

Lemma filter_none {A} (p : A -> bool) (l : list A) :
  existsb p l = false -> filter p l = [].
Proof.
  induction l as [|a l IH]; simpl; [reflexivity|].
  intros H. apply orb_false_elim in H as [Ha Hl]. rewrite Ha. auto.
Qed.

(** The entry of a name holds the blocks of the variables of that name,
    written one over the other onto what the entry held. *)
Lemma get_add_variables n vs : forall fs,
  Forall (fun v => resolved_block (CFVariableDefinition.block v)) vs ->
  n <> "__proto__" ->
  get_field n (fold_left add_variable vs fs) =
  if existsb (fun v => String.eqb (CFVariableDefinition.name v) n) vs
  then Some (VObject (written_over (entry_fields n fs) (blocks_named n vs)))
  else get_field n fs.
Proof.
  induction vs as [|v vs IH]; intros fs Hvs Hn; simpl; [reflexivity|].
  inversion Hvs as [|? ? Hv Hvs']; subst.
  destruct (resolved_block_object Hv) as [sfs Hblock].
  rewrite IH by assumption. unfold entry_fields at 1.
  rewrite (get_add_variable fs v Hblock Hn).
  unfold blocks_named. simpl.
  destruct (String.eqb (CFVariableDefinition.name v) n) eqn:E; simpl.
  - rewrite Hblock. destruct (existsb _ vs) eqn:Ex; [reflexivity|].
    now rewrite (filter_none _ _ Ex).
  - reflexivity.
Qed.

(** The document, and the environment variables in it. *)
Lemma Variables_of_document (handlerDir : string) (metadata : LambdaFunction.t) :
  exists doc,
    cfTemplate handlerDir metadata = Some doc /\
    lookup_path Variables_path doc
    = Some (VObject
              (fold_left add_variable
                 (map toVariable (LambdaFunction.environment metadata))
                 fixed_variables)).
Proof.
  assemble_all.
  destruct (LambdaFunction.eventSource metadata);
    (eexists; split; reflexivity).
Qed.

(** X4: for a definition whose upper-cased table names are ASCII, the
    environment variables of the function resource are ENV, REGION and the
    names of the variables other than [__proto__], which has no entry.
    They stand in the order JavaScript enumerates them (a name that spells
    an array index first); when no name spells an array index this is ENV,
    REGION and then the names at their first occurrence.  A name no
    variable has keeps the fixed entry, and the entry of any other name is
    the blocks of the variables of that name written one over the other
    (over the fixed ENV or REGION entry, for these names). *)
Theorem Variables_entries (handlerDir : string) (metadata : LambdaFunction.t) :
  ascii_table_names (LambdaFunction.environment metadata) ->
  let variables := map toVariable (LambdaFunction.environment metadata) in
  let names := written_names (map (@CFVariableDefinition.name) variables) in
  exists doc Variables,
    cfTemplate handlerDir metadata = Some doc /\
    lookup_path Variables_path doc = Some (VObject Variables) /\
    keys Variables = enumeration ["ENV"; "REGION"] names /\
    in_enumeration_order (keys Variables) /\
    (Forall (fun k => array_index k = None) names ->
     keys Variables = first_occurrences ("ENV" :: "REGION" :: names)) /\
    get_field "__proto__" Variables = None /\
    forall n, n <> "__proto__" ->
      get_field n Variables =
      if existsb (fun v => String.eqb (CFVariableDefinition.name v) n) variables
      then Some (VObject (written_over (entry_fields n fixed_variables)
                                       (blocks_named n variables)))
      else get_field n fixed_variables.
Proof.
  intros _ variables names.
  destruct (Variables_of_document handlerDir metadata) as (doc & Hdoc & HV).
  exists doc. eexists. split; [exact Hdoc|]. split; [exact HV|].
  split; [|split; [|split; [|split]]].
  - now rewrite keys_add_variables.
  - rewrite keys_add_variables. apply enumeration_order.
    repeat constructor.
  - intros Hindex. rewrite keys_add_variables.
    now rewrite enumeration_first_occurrences.
  - now rewrite get_add_variables_proto.
  - intros n Hn. apply get_add_variables; [apply toVariables_resolved | exact Hn].
Qed.

Lemma Variables_entries_witness :
  let notes :=
    OfTableNameVariable (TableNameVariable.mk (Table.mk "api1" "Notes")) in
  let seven :=
    OfParameterVariable (ParameterVariable.mk "7" (Param.mk "seven" None)) in
  let proto :=
    OfParameterVariable (ParameterVariable.mk "__proto__" (Param.mk "p" None)) in
  let metadata := LambdaFunction.mk [] [notes; seven; proto] None in
  ascii_table_names (LambdaFunction.environment metadata) /\
  exists doc Variables,
    cfTemplate "fn" metadata = Some doc /\
    lookup_path Variables_path doc = Some (VObject Variables) /\
    keys Variables = ["7"; "ENV"; "REGION"; "NOTES_TABLE_NAME"] /\
    get_field "__proto__" Variables = None /\
    get_field "7" Variables = Some (obj [ "Ref" ~> "seven" ]).
Proof.
  intros notes seven proto metadata.
  assert (Hascii : ascii_table_names (LambdaFunction.environment metadata)).
  { intros v [H | [H | [H | []]]]; try discriminate H.
    injection H as <-. reflexivity. }
  split; [exact Hascii|].
  destruct (@Variables_entries "fn" metadata Hascii)
    as (doc & Variables & Hdoc & HV & Hkeys & _ & _ & Hproto & Hget).
  exists doc, Variables.
  split; [exact Hdoc|]. split; [exact HV|].
  split; [exact Hkeys|]. split; [exact Hproto|].
  exact (Hget "7" ltac:(discriminate)).
Defined.

Lemma blocks_named_one n (front back : list CFVariableDefinition.t) v :
  CFVariableDefinition.name v = n ->
  (forall v', In v' (front ++ back)%list -> CFVariableDefinition.name v' <> n) ->
  blocks_named n (front ++ v :: back)%list = [CFVariableDefinition.block v].
Proof.
  intros Hn Hother. unfold blocks_named.
  assert (Hnone : forall l, (forall v', In v' l -> CFVariableDefinition.name v' <> n) ->
            filter (fun v => String.eqb (CFVariableDefinition.name v) n) l = []).
  { intros l Hl. apply filter_none. apply not_true_iff_false. intros Hex.
    apply existsb_exists in Hex as (v' & Hv' & Heq).
    apply String.eqb_eq in Heq. now apply (Hl v'). }
  rewrite filter_app. simpl.
  rewrite (Hnone front), (Hnone back).
  - apply String.eqb_eq in Hn. now rewrite Hn.
  - intros v' Hv'. apply Hother. apply in_or_app. now right.
  - intros v' Hv'. apply Hother. apply in_or_app. now left.
Qed.

(** X5: in a definition whose upper-cased table names are ASCII, a
    variable whose name no other variable has, and which is not named ENV,
    REGION or [__proto__], is passed to the function with exactly the block
    it resolves to. *)
Theorem Variables_unique_name
  (handlerDir : string) (metadata : LambdaFunction.t)
  (front back : list EnvironmentVariable) (e : EnvironmentVariable) :
  ascii_table_names (LambdaFunction.environment metadata) ->
  LambdaFunction.environment metadata = (front ++ e :: back)%list ->
  (forall e', In e' (front ++ back)%list ->
     CFVariableDefinition.name (toVariable e')
     <> CFVariableDefinition.name (toVariable e)) ->
  CFVariableDefinition.name (toVariable e) <> "ENV" ->
  CFVariableDefinition.name (toVariable e) <> "REGION" ->
  CFVariableDefinition.name (toVariable e) <> "__proto__" ->
  exists doc Variables,
    cfTemplate handlerDir metadata = Some doc /\
    lookup_path Variables_path doc = Some (VObject Variables) /\
    get_field (CFVariableDefinition.name (toVariable e)) Variables
    = Some (CFVariableDefinition.block (toVariable e)).
Proof.
  intros _ Henv Hother HENV HREGION Hproto.
  destruct (Variables_of_document handlerDir metadata) as (doc & Hdoc & HV).
  exists doc. eexists. split; [exact Hdoc|]. split; [exact HV|].
  rewrite get_add_variables by (auto; apply toVariables_resolved).
  rewrite Henv, map_app. cbn [map].
  rewrite existsb_app. cbn [existsb]. rewrite String.eqb_refl, orb_true_r.
  rewrite (@blocks_named_one _ (map toVariable front) (map toVariable back)
             (toVariable e) eq_refl).
  - apply String.eqb_neq in HENV, HREGION.
    unfold entry_fields, fixed_variables. cbn [get_field].
    rewrite HENV, HREGION.
    destruct (toVariable_resolved e) as [[s ->] | [[s ->] | (c & a & b & ->)]];
      reflexivity.
  - intros v' Hv'. rewrite <- map_app in Hv'.
    apply in_map_iff in Hv' as (e' & <- & He'). now apply Hother.
Qed.

Lemma Variables_unique_name_witness :
  let sender :=
    OfParameterVariable
      (ParameterVariable.mk "SENDER" (Param.mk "sender" (Some "a@example.com"))) in
  let notes :=
    OfTableNameVariable (TableNameVariable.mk (Table.mk "api1" "Notes")) in
  let metadata := LambdaFunction.mk [] [sender; notes] None in
  ascii_table_names (LambdaFunction.environment metadata) /\
  LambdaFunction.environment metadata = ([sender] ++ notes :: [])%list /\
  (forall e', In e' ([sender] ++ [])%list ->
     CFVariableDefinition.name (toVariable e')
     <> CFVariableDefinition.name (toVariable notes)) /\
  CFVariableDefinition.name (toVariable notes) <> "ENV" /\
  CFVariableDefinition.name (toVariable notes) <> "REGION" /\
  CFVariableDefinition.name (toVariable notes) <> "__proto__" /\
  exists doc Variables,
    cfTemplate "fn" metadata = Some doc /\
    lookup_path Variables_path doc = Some (VObject Variables) /\
    get_field "NOTES_TABLE_NAME" Variables
    = Some (obj [ "Fn::ImportValue" ~>
                    obj [ "Fn::Sub" ~>
                            "${apiapi1GraphQLAPIIdOutput}:GetAtt:NotesTable:Name" ] ]).
Proof.
  intros sender notes metadata.
  assert (Hascii : ascii_table_names (LambdaFunction.environment metadata)).
  { intros v [H | [H | []]]; try discriminate H.
    injection H as <-. reflexivity. }
  assert (Henv : LambdaFunction.environment metadata
                 = ([sender] ++ notes :: [])%list) by reflexivity.
  assert (Hother : forall e', In e' ([sender] ++ [])%list ->
            CFVariableDefinition.name (toVariable e')
            <> CFVariableDefinition.name (toVariable notes)).
  { intros e' [<- | []]. vm_compute. discriminate. }
  assert (HENV : CFVariableDefinition.name (toVariable notes) <> "ENV")
    by (vm_compute; discriminate).
  assert (HREGION : CFVariableDefinition.name (toVariable notes) <> "REGION")
    by (vm_compute; discriminate).
  assert (Hproto : CFVariableDefinition.name (toVariable notes) <> "__proto__")
    by (vm_compute; discriminate).
  split; [exact Hascii|]. split; [exact Henv|]. split; [exact Hother|].
  split; [exact HENV|]. split; [exact HREGION|]. split; [exact Hproto|].
  exact (@Variables_unique_name "fn" metadata [sender] [] notes
           Hascii Henv Hother HENV HREGION Hproto).
Defined.

Lemma written_over_refs (base : fields) (blocks : list value) (s : string) :
  (base = [] \/ exists s0 : string, base = [ "Ref" ~> s0 ]) ->
  (forall b, In b blocks -> exists s' : string, b = obj [ "Ref" ~> s' ]) ->
  written_over base (blocks ++ [ obj [ "Ref" ~> s ] ])%list = [ "Ref" ~> s ].
Proof.
  revert base. induction blocks as [|b blocks IH]; intros base Hbase Hblocks.
  - destruct Hbase as [-> | [s0 ->]]; reflexivity.
  - destruct (Hblocks b (or_introl eq_refl)) as [s' ->].
    cbn [app]. unfold written_over. cbn [fold_left].
    apply IH.
    + right. exists s'. destruct Hbase as [-> | [s0 ->]]; reflexivity.
    + intros b' Hb'. apply Hblocks. now right.
Qed.

(** X6: in a definition whose upper-cased table names are ASCII, among
    the variables that resolve to a plain Ref (parameter and
    resource-output variables), the last one of a name other than
    [__proto__] decides the entry: it replaces the earlier ones, and the
    fixed ENV or REGION entry when it has that name. *)
Theorem Variables_ref_last_wins
  (handlerDir : string) (metadata : LambdaFunction.t)
  (front back : list EnvironmentVariable) (e : EnvironmentVariable) :
  ascii_table_names (LambdaFunction.environment metadata) ->
  LambdaFunction.environment metadata = (front ++ e :: back)%list ->
  resolves_to_ref e = true ->
  CFVariableDefinition.name (toVariable e) <> "__proto__" ->
  (forall e', In e' front ->
     CFVariableDefinition.name (toVariable e')
     = CFVariableDefinition.name (toVariable e) ->
     resolves_to_ref e' = true) ->
  (forall e', In e' back ->
     CFVariableDefinition.name (toVariable e')
     <> CFVariableDefinition.name (toVariable e)) ->
  exists doc Variables,
    cfTemplate handlerDir metadata = Some doc /\
    lookup_path Variables_path doc = Some (VObject Variables) /\
    get_field (CFVariableDefinition.name (toVariable e)) Variables
    = Some (CFVariableDefinition.block (toVariable e)).
Proof.
  intros _ Henv He Hproto Hfront Hback.
  destruct (Variables_of_document handlerDir metadata) as (doc & Hdoc & HV).
  exists doc. eexists. split; [exact Hdoc|]. split; [exact HV|].
  rewrite get_add_variables by (auto; apply toVariables_resolved).
  rewrite Henv, map_app. cbn [map].
  rewrite existsb_app. cbn [existsb]. rewrite String.eqb_refl, orb_true_r.
  assert (Hblock : exists s : string,
            CFVariableDefinition.block (toVariable e) = obj [ "Ref" ~> s ]).
  { destruct e; try discriminate He; eexists; reflexivity. }
  destruct Hblock as [s Hblock].
  unfold blocks_named. rewrite filter_app. cbn [filter].
  rewrite String.eqb_refl.
  rewrite (@filter_none _ _ (map toVariable back)).
  - rewrite map_app. cbn [map]. rewrite Hblock.
    rewrite written_over_refs; [reflexivity| |].
    + unfold entry_fields, fixed_variables. cbn [get_field].
      destruct (String.eqb _ "ENV"); [right; eexists; reflexivity|].
      destruct (String.eqb _ "REGION"); [right; eexists; reflexivity | now left].
    + intros b Hb. apply in_map_iff in Hb as (v & <- & Hv).
      apply filter_In in Hv as [Hv Hname].
      apply in_map_iff in Hv as (e' & <- & He').
      apply String.eqb_eq in Hname. specialize (Hfront e' He' Hname).
      destruct e'; try discriminate Hfront; eexists; reflexivity.
  - apply not_true_iff_false. intros Hex.
    apply existsb_exists in Hex as (v & Hv & Heq).
    apply in_map_iff in Hv as (e' & <- & He').
    apply String.eqb_eq in Heq. now apply (Hback e').
Qed.

Lemma Variables_ref_last_wins_witness :
  let first :=
    OfParameterVariable
      (ParameterVariable.mk "REGION" (Param.mk "region" None)) in
  let last :=
    OfResourceOutputVariable
      (ResourceOutputVariable.mk "REGION"
         (ResourceOutputReference.mk "custom" "settings" "Region")) in
  let notes :=
    OfTableNameVariable (TableNameVariable.mk (Table.mk "api1" "Notes")) in
  let metadata := LambdaFunction.mk [] [first; last; notes] None in
  ascii_table_names (LambdaFunction.environment metadata) /\
  LambdaFunction.environment metadata = ([first] ++ last :: [notes])%list /\
  resolves_to_ref last = true /\
  CFVariableDefinition.name (toVariable last) <> "__proto__" /\
  (forall e', In e' [first] ->
     CFVariableDefinition.name (toVariable e')
     = CFVariableDefinition.name (toVariable last) ->
     resolves_to_ref e' = true) /\
  (forall e', In e' [notes] ->
     CFVariableDefinition.name (toVariable e')
     <> CFVariableDefinition.name (toVariable last)) /\
  exists doc Variables,
    cfTemplate "fn" metadata = Some doc /\
    lookup_path Variables_path doc = Some (VObject Variables) /\
    get_field "REGION" Variables
    = Some (obj [ "Ref" ~> "customsettingsRegion" ]).
Proof.
  intros first last notes metadata.
  assert (Hascii : ascii_table_names (LambdaFunction.environment metadata)).
  { intros v [H | [H | [H | []]]]; try discriminate H.
    injection H as <-. reflexivity. }
  assert (Henv : LambdaFunction.environment metadata
                 = ([first] ++ last :: [notes])%list) by reflexivity.
  assert (Hlast : resolves_to_ref last = true) by reflexivity.
  assert (Hproto : CFVariableDefinition.name (toVariable last) <> "__proto__")
    by (vm_compute; discriminate).
  assert (Hfront : forall e', In e' [first] ->
            CFVariableDefinition.name (toVariable e')
            = CFVariableDefinition.name (toVariable last) ->
            resolves_to_ref e' = true).
  { intros e' [<- | []] _. reflexivity. }
  assert (Hback : forall e', In e' [notes] ->
            CFVariableDefinition.name (toVariable e')
            <> CFVariableDefinition.name (toVariable last)).
  { intros e' [<- | []]. vm_compute. discriminate. }
  split; [exact Hascii|]. split; [exact Henv|]. split; [exact Hlast|].
  split; [exact Hproto|]. split; [exact Hfront|]. split; [exact Hback|].
  exact (@Variables_ref_last_wins "fn" metadata [first] [notes] last
           Hascii Henv Hlast Hproto Hfront Hback).
Defined.

(** ** Every Ref of the document resolves *)

Section AllRefs.

Variable Q : string -> Prop.

Lemma all_refs_cons k v (rest : fields) :
  (forall s, v = VString s -> String.eqb k "Ref" = true -> Q s) ->
  all_refs Q v -> all_refs Q (VObject rest) ->
  all_refs Q (VObject ((k, v) :: rest)).
Proof.
  intros Hs Hv Hrest s Hin.
  change (In s ((match v with
                 | VString s => if String.eqb k "Ref" then [s] else []
                 | _ => refs_of v
                 end ++ refs_of (VObject rest))%list)) in Hin.
  apply in_app_or in Hin as [Hin | Hin]; [|now apply Hrest].
  destruct v; try (now apply Hv).
  destruct (String.eqb k "Ref") eqn:E; [|destruct Hin].
  destruct Hin as [<- | []]. now apply (Hs s0).
Qed.

Lemma all_refs_cons_inv k v (rest : fields) :
  all_refs Q (VObject ((k, v) :: rest)) ->
  (forall s, v = VString s -> String.eqb k "Ref" = true -> Q s) /\
  all_refs Q v /\ all_refs Q (VObject rest).
Proof.
  intros H.
  assert (H' : forall s,
             In s ((match v with
                    | VString s => if String.eqb k "Ref" then [s] else []
                    | _ => refs_of v
                    end ++ refs_of (VObject rest))%list) -> Q s) by exact H.
  repeat split.
  - intros s -> E. apply H'. rewrite E. now left.
  - intros s Hs. apply H'. apply in_or_app. left.
    destruct v; auto; destruct Hs.
  - intros s Hs. apply H'. apply in_or_app. now right.
Qed.

Lemma all_refs_nil : all_refs Q (VObject []).
Proof. intros s []. Qed.

Lemma all_refs_arr_nil : all_refs Q (VArray []).
Proof. intros s []. Qed.

Lemma all_refs_arr_cons v (rest : list value) :
  all_refs Q v -> all_refs Q (VArray rest) -> all_refs Q (VArray (v :: rest)).
Proof.
  intros Hv Hrest s Hin.
  change (In s (refs_of v ++ refs_of (VArray rest))%list) in Hin.
  apply in_app_or in Hin as [Hin | Hin]; auto.
Qed.

Lemma all_refs_array (vs : list value) :
  Forall (all_refs Q) vs -> all_refs Q (VArray vs).
Proof.
  induction 1; [apply all_refs_arr_nil | now apply all_refs_arr_cons].
Qed.

Lemma all_refs_scalar v :
  match v with VObject _ | VArray _ => False | _ => True end -> all_refs Q v.
Proof.
  destruct v; intros H x Hx; try destruct Hx; destruct H.
Qed.

Lemma all_refs_strings (l : list string) : all_refs Q (strings l).
Proof.
  apply all_refs_array. apply Forall_forall. intros v Hv.
  apply in_map_iff in Hv as (s & <- & _). now apply all_refs_scalar.
Qed.

Lemma all_refs_Forall (fs : fields) :
  all_refs Q (VObject fs) <->
  Forall (fun kv =>
            (forall s, snd kv = VString s ->
                       String.eqb (fst kv) "Ref" = true -> Q s) /\
            all_refs Q (snd kv)) fs.
Proof.
  induction fs as [|[k v] fs IH]; split; intros H.
  - constructor.
  - apply all_refs_nil.
  - apply all_refs_cons_inv in H as (Hs & Hv & Hrest).
    constructor; [split; assumption | now apply IH].
  - inversion H as [|? ? [Hs Hv] Hrest]; subst.
    apply all_refs_cons; auto. now apply IH.
Qed.

Lemma all_refs_set_field k v (fs : fields) :
  all_refs Q (VObject [(k, v)]) -> all_refs Q (VObject fs) ->
  all_refs Q (VObject (set_field k v fs)).
Proof.
  intros Hkv Hfs. apply all_refs_cons_inv in Hkv as (Hs & Hv & _).
  apply all_refs_Forall. apply Forall_set_pair.
  - now apply all_refs_Forall.
  - split; assumption.
Qed.

Lemma all_refs_spread (a b : fields) :
  all_refs Q (VObject a) -> all_refs Q (VObject b) ->
  all_refs Q (VObject (spread a b)).
Proof.
  unfold spread. revert a. induction b as [|[k v] b IH]; intros a Ha Hb; simpl; auto.
  apply all_refs_cons_inv in Hb as (Hs & Hv & Hrest).
  apply IH; auto. apply all_refs_set_field; auto.
  apply all_refs_cons; auto using all_refs_nil.
Qed.

Lemma all_refs_fromPairs (pairs : fields) :
  all_refs Q (VObject pairs) -> all_refs Q (VObject (Lodash.fromPairs pairs)).
Proof.
  unfold Lodash.fromPairs.
  assert (Hnil : all_refs Q (VObject [])) by apply all_refs_nil.
  revert Hnil. generalize (@nil (string * value)).
  induction pairs as [|[k v] pairs IH]; intros acc Hacc H; cbn [fold_left];
    auto.
  apply all_refs_cons_inv in H as (Hs & Hv & Hrest).
  apply IH; auto. unfold assign_field. cbn [fst snd].
  destruct (String.eqb k "__proto__"); auto.
  apply all_refs_set_field; auto.
  apply all_refs_cons; auto using all_refs_nil.
Qed.

Lemma all_refs_entry k (fs : fields) :
  all_refs Q (VObject fs) -> all_refs Q (VObject (entry_fields k fs)).
Proof.
  unfold entry_fields. induction fs as [|[k' v'] fs IH]; intros H; simpl.
  - apply all_refs_nil.
  - apply all_refs_cons_inv in H as (_ & Hv & Hrest).
    destruct (String.eqb k k'); auto.
    destruct v'; auto; apply all_refs_nil.
Qed.

Lemma all_refs_add_variable (fs : fields) (v : CFVariableDefinition.t) :
  all_refs Q (VObject fs) ->
  all_refs Q (CFVariableDefinition.block v) ->
  (exists sfs, CFVariableDefinition.block v = VObject sfs) ->
  all_refs Q (VObject (add_variable fs v)).
Proof.
  intros Hfs Hv [sfs Hblock]. unfold add_variable. rewrite Hblock in *.
  destruct (String.eqb (CFVariableDefinition.name v) "__proto__"); auto.
  apply all_refs_set_field; auto.
  apply all_refs_cons; [discriminate | | apply all_refs_nil].
  apply all_refs_spread; auto. now apply all_refs_entry.
Qed.

Lemma all_refs_add_variables (vs : list CFVariableDefinition.t) : forall fs,
  all_refs Q (VObject fs) ->
  Forall (fun v => all_refs Q (CFVariableDefinition.block v)) vs ->
  Forall (fun v => resolved_block (CFVariableDefinition.block v)) vs ->
  all_refs Q (VObject (fold_left add_variable vs fs)).
Proof.
  induction vs as [|v vs IH]; intros fs Hfs Hvs Hres; simpl; auto.
  inversion Hvs; inversion Hres; subst.
  apply IH; auto. apply all_refs_add_variable; auto.
  now apply resolved_block_object.
Qed.

Lemma all_refs_fields (fs : fields) :
  (forall k v, In (k, v) fs -> (forall s, v <> VString s) /\ all_refs Q v) ->
  all_refs Q (VObject fs).
Proof.
  induction fs as [|[k v] fs IH]; intros H; [apply all_refs_nil|].
  destruct (H k v (or_introl eq_refl)) as [Hns Hv].
  apply all_refs_cons; auto.
  - intros s Hs. now destruct (Hns s).
  - apply IH. intros k' v' Hin. apply (H k' v'). now right.
Qed.

End AllRefs.

Lemma all_refs_weaken (Q Q' : string -> Prop) v :
  (forall s, Q s -> Q' s) -> all_refs Q v -> all_refs Q' v.
Proof.
  intros H Hv s Hs. auto.
Qed.

(** Walks through an object or array literal, leaving the Refs to prove. *)
Ltac walk_refs :=
  repeat
    lazymatch goal with
    | |- all_refs _ _ =>
        first
          [ assumption
          | apply all_refs_nil
          | apply all_refs_arr_nil
          | apply all_refs_strings
          | apply all_refs_scalar; exact I
          | apply all_refs_arr_cons
          | apply all_refs_cons;
            [ let s := fresh "s" in
              let Hs := fresh "Hs" in
              let Hk := fresh "Hk" in
              intros s Hs;
              first [ discriminate Hs
                    | injection Hs as <-; intros Hk;
                      first [ discriminate Hk | clear Hk ] ]
            | | ] ]
    end.

(** The property at hand is not a Ref. *)
Ltac not_a_ref :=
  let s := fresh "s" in
  let Hs := fresh "Hs" in
  let Hk := fresh "Hk" in
  intros s Hs;
  first [ discriminate Hs | injection Hs as <-; intros Hk; discriminate Hk ].

(** The Refs of the block a variable resolves to, and of the condition it
    produces, name parameters the variable asks for. *)
Lemma variable_refs_declared (e : EnvironmentVariable) :
  all_refs (fun s => In s (map CFParameter.name (parameters_of_variable e)))
           (CFVariableDefinition.block (toVariable e)) /\
  Forall (fun c =>
            all_refs
              (fun s => In s (map CFParameter.name (parameters_of_variable e)))
              (CFConditionDefinition.block c))
         (toConditions e).
Proof.
  destruct e as [v | v | v | c]; simpl.
  - split; [walk_refs | constructor].
  - split; [walk_refs; simpl; auto | constructor].
  - split; [walk_refs; simpl; auto | constructor].
  - destruct (CoalescedVariable.first c), (CoalescedVariable.second c);
      simpl; (split; [|constructor; [|constructor]]);
      walk_refs; simpl; auto.
Qed.

(** The Refs of a policy statement name the two pseudo parameters or
    parameters the permission asks for. *)
Lemma statement_refs_declared (p : Permission) :
  all_refs (fun s => s = "AWS::Region" \/ s = "AWS::AccountId" \/
                     In s (map CFParameter.name (parameters_of_permission p)))
           (toPolicyStatement p).
Proof.
  destruct p as [t | u | s | i]; simpl; walk_refs; simpl; auto.
  apply all_refs_array.
  induction (IAMActionPermission.resources i) as [|[str | ref] rs IH]; simpl.
  - constructor.
  - constructor; [now apply all_refs_scalar|]. exact IH.
  - constructor.
    + walk_refs. simpl. auto.
    + apply Forall_forall. intros v Hv.
      apply (proj1 (Forall_forall _ _) IH) in Hv.
      revert Hv. apply all_refs_weaken.
      intros s [H | [H | H]]; simpl; auto.
Qed.

Lemma get_field_NoDup k v (fs : fields) :
  NoDup (keys fs) -> In (k, v) fs -> get_field k fs = Some v.
Proof.
  induction fs as [|[k' v'] fs IH]; simpl; intros Hnd Hin; [destruct Hin|].
  inversion Hnd as [|? ? Hnotin Hnd']; subst.
  destruct Hin as [Heq | Hin].
  - injection Heq as -> ->. now rewrite String.eqb_refl.
  - destruct (String.eqb k k') eqn:E; auto.
    apply String.eqb_eq in E. subst k'. exfalso. apply Hnotin.
    now apply (in_map fst) in Hin.
Qed.

Lemma fixed_parameters_NoDup handlerDir : NoDup (keys (fixed_parameters handlerDir)).
Proof.
  simpl. constructor; [simpl; intros [H | []]; discriminate H|].
  constructor; [simpl; tauto | constructor].
Qed.

(** No entry of the Parameters section holds a Ref. *)
Lemma all_refs_Parameters (Q : string -> Prop) handlerDir (ps : list CFParameter.t) :
  all_refs Q (VObject (fold_left add_parameter ps (fixed_parameters handlerDir))).
Proof.
  apply all_refs_fields. intros k v Hin.
  apply get_field_NoDup in Hin;
    [|apply add_parameters_NoDup, fixed_parameters_NoDup].
  apply Parameters_entry_shape in Hin as [-> | [d ->]].
  - split; [discriminate|]. intros s [].
  - split; [discriminate|]. intros x Hx. destruct d; destruct Hx.
Qed.

Lemma all_refs_condition_pairs (Q : string -> Prop)
  (environment : list EnvironmentVariable) :
  (forall e, In e environment ->
     Forall (fun c => all_refs Q (CFConditionDefinition.block c)) (toConditions e)) ->
  all_refs Q (VObject (condition_pairs (flat_map toConditions environment))).
Proof.
  intros H. apply all_refs_fields. intros k v Hin.
  unfold condition_pairs in Hin. apply in_map_iff in Hin as (c & Heq & Hc).
  injection Heq as <- <-. apply in_flat_map in Hc as (e & He & Hc).
  split.
  - destruct e; simpl in Hc; try destruct Hc as [<- | []]; try destruct Hc.
    discriminate.
  - apply (proj1 (Forall_forall _ _) (H e He) c Hc).
Qed.

(** X7: when no collected parameter is named [__proto__], every Ref of the
    compiled document resolves: its target is a parameter declared in the
    Parameters section, a resource of the Resources section, or one of the
    pseudo parameters AWS::Region and AWS::AccountId. *)
Theorem document_refs_resolve (handlerDir : string) (metadata : LambdaFunction.t) :
  (forall r, In r (parameters_of metadata) ->
             CFParameter.name (deref r) <> "__proto__") ->
  exists doc Parameters Resources,
    cfTemplate handlerDir metadata = Some doc /\
    prop "Parameters" doc = Some (VObject Parameters) /\
    prop "Resources" doc = Some (VObject Resources) /\
    forall s, In s (refs_of doc) -> resolvable Parameters Resources s.
Proof.
  intros Hproto.
  assert (Hnamed : forall p,
            In p (collected (LambdaFunction.eventSource metadata)
                            (LambdaFunction.environment metadata)
                            (LambdaFunction.permissions metadata)) ->
            CFParameter.name p <> "__proto__").
  { intros p Hp. rewrite <- parameters_collected in Hp.
    apply in_map_iff in Hp as (r & <- & Hr). now apply Hproto. }
  clear Hproto.
  assemble_all. rewrite conditions_of_environment.
  fold (condition_pairs
          (flat_map toConditions (LambdaFunction.environment metadata))).
  set (P := fold_left add_parameter _ (fixed_parameters handlerDir)).
  assert (Hdeclared : forall p,
            In p (collected (LambdaFunction.eventSource metadata)
                            (LambdaFunction.environment metadata)
                            (LambdaFunction.permissions metadata)) ->
            In (CFParameter.name p) (keys P)).
  { intros p Hp. apply add_parameters_keys. left.
    split; [now apply in_map | now apply Hnamed]. }
  clear Hnamed.
  assert (Hvar : forall e s,
            In e (LambdaFunction.environment metadata) ->
            In s (map CFParameter.name (parameters_of_variable e)) ->
            In s (keys P)).
  { intros e s He Hs. apply in_map_iff in Hs as (p & <- & Hp).
    apply Hdeclared. unfold collected. apply in_or_app. left.
    apply in_flat_map. eauto. }
  assert (Hperm : forall p s,
            In p (LambdaFunction.permissions metadata) ->
            In s (map CFParameter.name (parameters_of_permission p)) ->
            In s (keys P)).
  { intros p s Hp Hs. apply in_map_iff in Hs as (q & <- & Hq).
    apply Hdeclared. unfold collected. apply in_or_app. right.
    apply in_or_app. left. apply in_flat_map. eauto. }
  assert (Henv : In "env" (keys P)).
  { apply add_parameters_keys. right. simpl. auto. }
  assert (HP : forall Q, all_refs Q (VObject P)).
  { intros Q. apply all_refs_Parameters. }
  clearbody P.
  destruct (LambdaFunction.eventSource metadata) as [t|];
    (eexists; eexists; eexists;
     split; [reflexivity|]; split; [reflexivity|]; split; [reflexivity|]);
    match goal with
    | |- forall s, In s (refs_of ?doc) -> resolvable ?P ?R s =>
        change (all_refs (resolvable P R) doc);
        assert (HQ : forall s,
                  In s (keys P) \/
                  In s ["LambdaFunction"; "LambdaExecutionRole"] \/
                  s = "AWS::Region" \/ s = "AWS::AccountId" ->
                  resolvable P R s)
          by (intros s [H | [H | H]];
              [ left; exact H
              | right; left; revert H; vm_compute; tauto
              | right; right; exact H ]);
        revert HQ; generalize (resolvable P R); intros Q HQ
    end;
    (assert (HC : all_refs Q
                    (VObject (condition_pairs
                       (flat_map toConditions
                          (LambdaFunction.environment metadata)))));
     [ apply all_refs_condition_pairs; intros e He;
       destruct (variable_refs_declared e) as [_ Hc];
       apply Forall_forall; intros c Hin;
       apply (proj1 (Forall_forall _ _) Hc) in Hin;
       revert Hin; apply all_refs_weaken;
       intros s Hs; apply HQ; left; now apply (Hvar e)
     | ]);
    (assert (HV : all_refs Q
                    (VObject (fold_left add_variable
                       (map toVariable (LambdaFunction.environment metadata))
                       fixed_variables)));
     [ apply all_refs_add_variables;
       [ unfold fixed_variables; walk_refs; apply HQ; simpl; auto
       | apply Forall_forall; intros v Hv;
         apply in_map_iff in Hv as (e & <- & He);
         destruct (variable_refs_declared e) as [Hb _];
         revert Hb; apply all_refs_weaken;
         intros s Hs; apply HQ; left; now apply (Hvar e)
       | apply toVariables_resolved ]
     | ]);
    (assert (HS : all_refs Q
                    (VArray (map toPolicyStatement
                                 (LambdaFunction.permissions metadata))));
     [ apply all_refs_array, Forall_forall; intros v Hv;
       apply in_map_iff in Hv as (p & <- & Hp);
       generalize (statement_refs_declared p);
       apply all_refs_weaken;
       intros s [-> | [-> | Hs]]; apply HQ;
       [ simpl; auto | simpl; auto | left; now apply (Hperm p) ]
     | ]);
    (apply all_refs_cons; [not_a_ref | walk_refs |]);
    (apply all_refs_cons; [not_a_ref | walk_refs |]);
    (apply all_refs_cons; [not_a_ref | apply HP |]);
    (apply all_refs_cons;
     [ not_a_ref
     | apply all_refs_spread;
       [ walk_refs; apply HQ; simpl; auto
       | apply all_refs_fromPairs; exact HC ]
     | ]);
    (apply all_refs_cons;
     [ not_a_ref
     | apply all_refs_spread; walk_refs; apply HQ; simpl; auto
     | ]);
    walk_refs; apply HQ; simpl; auto.
Qed.

Lemma document_refs_resolve_witness :
  let metadata :=
    LambdaFunction.mk
      [ OfUserPoolPermission
          (UserPoolPermission.mk (UserPool.mk "users") [ListUsers]) ]
      [ OfParameterVariable
          (ParameterVariable.mk "ADDRESS" (Param.mk "address" None)) ]
      (Some (Table.mk "api1" "Notes")) in
  (forall r, In r (parameters_of metadata) ->
             CFParameter.name (deref r) <> "__proto__") /\
  exists doc Parameters Resources,
    cfTemplate "fn" metadata = Some doc /\
    prop "Parameters" doc = Some (VObject Parameters) /\
    prop "Resources" doc = Some (VObject Resources) /\
    forall s, In s (refs_of doc) -> resolvable Parameters Resources s.
Proof.
  intros metadata.
  assert (Hproto : forall r, In r (parameters_of metadata) ->
                     CFParameter.name (deref r) <> "__proto__").
  { intros r [<- | [<- | [<- | []]]]; discriminate. }
  split; [exact Hproto|].
  exact (@document_refs_resolve "fn" metadata Hproto).
Defined.

(** The hypothesis is needed: a variable that reads a parameter named
    [__proto__] leaves a Ref to a parameter the document does not declare. *)
Example document_ref_unresolved :
  let metadata :=
    LambdaFunction.mk []
      [ OfParameterVariable
          (ParameterVariable.mk "ADDRESS" (Param.mk "__proto__" None)) ]
      None in
  exists doc Parameters,
    cfTemplate "fn" metadata = Some doc /\
    prop "Parameters" doc = Some (VObject Parameters) /\
    lookup_path (Variables_path ++ ["ADDRESS"])%list doc
      = Some (obj [ "Ref" ~> "__proto__" ]) /\
    keys Parameters = ["env"; "resourceName"].
Proof.
  eexists. eexists. repeat split.
Qed.

(** ** Conditions, references and statements of the document *)

(** X8: the Conditions section declares ShouldNotCreateEnvResources and
    one condition per name of a coalesced variable, each once and nothing
    else; the Fn::If a coalesced variable resolves to is gated by one of
    them. *)
Theorem Conditions_declared (handlerDir : string) (metadata : LambdaFunction.t) :
  exists doc Conditions,
    cfTemplate handlerDir metadata = Some doc /\
    prop "Conditions" doc = Some (VObject Conditions) /\
    NoDup (keys Conditions) /\
    (forall k, In k (keys Conditions) <->
       k = "ShouldNotCreateEnvResources" \/
       exists c, In (OfCoalescedVariable c) (LambdaFunction.environment metadata) /\
                 k = "FirstNotEmpty_" ++ CoalescedVariable.name c) /\
    Forall
      (fun e =>
         match e with
         | OfCoalescedVariable c =>
             exists k a b,
               CFVariableDefinition.block (toVariable e)
               = obj [ "Fn::If" ~> VArray [VString k; a; b] ] /\
               In k (keys Conditions)
         | _ => True
         end)
      (LambdaFunction.environment metadata).
Proof.
  assemble metadata.
  eexists. eexists. split; [reflexivity|]. split; [reflexivity|].
  rewrite conditions_of_environment.
  fold (condition_pairs
          (flat_map toConditions (LambdaFunction.environment metadata))).
  assert (Hkeys : forall k,
    In k (keys (spread
                  [ "ShouldNotCreateEnvResources" ~>
                      obj [ "Fn::Equals" ~> arr [ obj [ "Ref" ~> "env" ]; "NONE" ] ] ]
                  (Lodash.fromPairs
                     (condition_pairs
                        (flat_map toConditions
                           (LambdaFunction.environment metadata)))))) <->
    k = "ShouldNotCreateEnvResources" \/
    exists c, In (OfCoalescedVariable c) (LambdaFunction.environment metadata) /\
              k = "FirstNotEmpty_" ++ CoalescedVariable.name c).
  { intros k.
    rewrite keys_spread_fromPairs, keys_condition_pairs
      by apply condition_pairs_plain.
    simpl.
    unfold conditionNameForEnv. intuition. }
  split; [|split; [exact Hkeys|]].
  - apply NoDup_write_all. constructor; [simpl; tauto | constructor].
  - apply Forall_forall. intros [v | v | v | c] He; try exact I.
    do 3 eexists. split; [reflexivity|]. apply Hkeys. right. eauto.
Qed.

(** X9: the body of the condition of a coalesced variable that no later
    variable shares its name with is the one this variable produces. *)
Theorem condition_of_last_variable
  (handlerDir : string) (metadata : LambdaFunction.t)
  (front back : list EnvironmentVariable) (c : CoalescedVariable.t) :
  LambdaFunction.environment metadata
    = (front ++ OfCoalescedVariable c :: back)%list ->
  (forall c', In (OfCoalescedVariable c') back ->
              CoalescedVariable.name c' <> CoalescedVariable.name c) ->
  exists doc Conditions,
    cfTemplate handlerDir metadata = Some doc /\
    prop "Conditions" doc = Some (VObject Conditions) /\
    get_field ("FirstNotEmpty_" ++ CoalescedVariable.name c) Conditions
    = Some (obj [ "Fn::Not" ~>
                    arr [ obj [ "Fn::Equals" ~>
                                  arr [ variableValueExpressionToCfExpression
                                          (CoalescedVariable.first c);
                                        "" ] ] ] ]).
Proof.
  intros Henv Hback. assemble metadata.
  eexists. eexists. split; [reflexivity|]. split; [reflexivity|].
  rewrite conditions_of_environment.
  fold (condition_pairs
          (flat_map toConditions (LambdaFunction.environment metadata))).
  rewrite get_spread_fromPairs by apply condition_pairs_plain.
  rewrite Henv.
  change ("FirstNotEmpty_" ++ CoalescedVariable.name c)
    with (conditionNameForEnv c).
  now rewrite (@get_condition_pairs_last front back c Hback _ eq_refl).
Qed.

Lemma condition_of_last_variable_witness :
  let override := OfParameter (Param.mk "urlOverride" (Some "")) in
  let output :=
    OfReference (ResourceOutputReference.mk "hosting" "site" "Url") in
  let first := CoalescedVariable.mk "URL" output override in
  let last := CoalescedVariable.mk "URL" override output in
  let metadata :=
    LambdaFunction.mk []
      [OfCoalescedVariable first; OfCoalescedVariable last] None in
  LambdaFunction.environment metadata
    = ([OfCoalescedVariable first] ++ OfCoalescedVariable last :: [])%list /\
  (forall c', In (OfCoalescedVariable c') [] ->
              CoalescedVariable.name c' <> CoalescedVariable.name last) /\
  exists doc Conditions,
    cfTemplate "fn" metadata = Some doc /\
    prop "Conditions" doc = Some (VObject Conditions) /\
    get_field "FirstNotEmpty_URL" Conditions
    = Some (obj [ "Fn::Not" ~>
                    arr [ obj [ "Fn::Equals" ~>
                                  arr [ obj [ "Ref" ~> "urlOverride" ];
                                        "" ] ] ] ]).
Proof.
  intros override output first last metadata.
  assert (Henv : LambdaFunction.environment metadata
                 = ([OfCoalescedVariable first]
                    ++ OfCoalescedVariable last :: [])%list) by reflexivity.
  assert (Hback : forall c', In (OfCoalescedVariable c') [] ->
            CoalescedVariable.name c' <> CoalescedVariable.name last)
    by (intros c' []).
  split; [exact Henv|]. split; [exact Hback|].
  exact (@condition_of_last_variable "fn" metadata [OfCoalescedVariable first] []
           last Henv Hback).
Defined.

Lemma variable_references_declared (e : EnvironmentVariable) r :
  In r (toOutputReferences e) ->
  In (toParameter r) (parameters_of_variable e).
Proof.
  destruct e as [v | v | v | c]; simpl.
  - intros [<- | []]. now left.
  - intros [].
  - intros [<- | []]. now left.
  - destruct (CoalescedVariable.first c), (CoalescedVariable.second c);
      simpl; intuition; subst; auto.
Qed.

Lemma permission_references_declared (p : Permission) r :
  In r (toOutputReferences p) ->
  In (toParameter r) (parameters_of_permission p).
Proof.
  destruct p as [t | u | s | i]; simpl.
  - intros [<- | []]. now left.
  - intros [<- | []]. now left.
  - intros [].
  - intros H. now apply (in_map toParameter) in H.
Qed.

(** X10: every reference the bookkeeping discovers has its parameter,
    named category + resource + output, declared in the Parameters section,
    unless that name is [__proto__], which the section never holds. *)
Theorem discovered_references_declared
  (handlerDir : string) (metadata : LambdaFunction.t) :
  exists doc Parameters,
    cfTemplate handlerDir metadata = Some doc /\
    prop "Parameters" doc = Some (VObject Parameters) /\
    Forall
      (fun r =>
         let name :=
           ResourceOutputReference.category r
           ++ ResourceOutputReference.resource r
           ++ ResourceOutputReference.output r in
         In name (keys Parameters) <-> name <> "__proto__")
      (discovered metadata).
Proof.
  assemble metadata.
  eexists. eexists. split; [reflexivity|]. split; [reflexivity|].
  apply Forall_forall. intros r Hr. cbv zeta.
  change (ResourceOutputReference.category r
          ++ ResourceOutputReference.resource r
          ++ ResourceOutputReference.output r)
    with (CFParameter.name (toParameter r)).
  split.
  { intros Hin Hname. rewrite Hname in Hin.
    apply get_field_None in Hin; [exact Hin|].
    now rewrite get_add_parameters_proto. }
  intros Hname.
  apply add_parameters_keys. left. split; [|exact Hname].
  apply in_map. unfold discovered, collected, Lodash.flatten in *.
  rewrite <- !flat_map_concat_map in Hr.
  apply in_app_or in Hr as [Hr | Hr]; [|apply in_app_or in Hr as [Hr | Hr]].
  - apply in_or_app. left. apply in_flat_map in Hr as (e & He & Hr).
    apply in_flat_map. exists e. split; auto.
    now apply variable_references_declared.
  - apply in_or_app. right. apply in_or_app. left.
    apply in_flat_map in Hr as (p & Hp & Hr).
    apply in_flat_map. exists p. split; auto.
    now apply permission_references_declared.
  - apply in_or_app. right. apply in_or_app. right.
    destruct (LambdaFunction.eventSource metadata) as [t|]; [|destruct Hr].
    destruct Hr as [<- | []]. now left.
Qed.

(** X11: the execution policy holds the statement that allows writing the
    logs, followed by one statement per permission, in the order of the
    permissions. *)
Theorem execution_policy_statements
  (handlerDir : string) (metadata : LambdaFunction.t) :
  exists doc logs statements,
    cfTemplate handlerDir metadata = Some doc /\
    lookup_path
      ["Resources"; "lambdaexecutionpolicy"; "Properties"; "PolicyDocument";
       "Statement"] doc = Some (VArray (logs :: statements)) /\
    prop "Action" logs
      = Some (arr [ "logs:CreateLogGroup"; "logs:CreateLogStream";
                    "logs:PutLogEvents" ]) /\
    length statements = length (LambdaFunction.permissions metadata) /\
    forall i p, nth_error (LambdaFunction.permissions metadata) i = Some p ->
                nth_error statements i = Some (toPolicyStatement p).
Proof.
  assemble metadata.
  destruct (LambdaFunction.eventSource metadata);
    (do 3 eexists; split; [reflexivity|]; split; [reflexivity|];
     split; [reflexivity|]; split; [apply length_map|];
     intros i p Hp; now rewrite nth_error_map, Hp).
Qed.

(** ** More on the capability providers *)

Lemma append_assoc (a b c : string) : (a ++ b) ++ c = a ++ b ++ c.
Proof.
  induction a as [|x a IH]; simpl; [reflexivity | now rewrite IH].
Qed.

Lemma append_length (a b : string) :
  String.length (a ++ b) = String.length a + String.length b.
Proof.
  induction a as [|x a IH]; simpl; [reflexivity | now rewrite IH].
Qed.

Lemma append_cancel_r (a b s : string) : a ++ s = b ++ s -> a = b.
Proof.
  revert b. induction a as [|x a IH]; intros [|y b] H; simpl in H.
  - reflexivity.
  - apply (f_equal String.length) in H. simpl in H.
    rewrite append_length in H. lia.
  - apply (f_equal String.length) in H. simpl in H.
    rewrite append_length in H. lia.
  - injection H as -> H. f_equal. now apply IH.
Qed.

(** X12: the name a TableNameVariable passes to the function is the value
    a TablePermission on the same table builds its resource ARN from, and
    the name, ARN and stream-ARN expressions of a table import the Name, Arn
    and StreamArn attributes through one parameter, the one the table
    declares. *)
Theorem table_expressions_agree (table : Table.t) (actions : list TableAction) :
  let import attribute :=
    obj [ "Fn::ImportValue" ~>
            obj [ "Fn::Sub" ~>
                    ("${" ++ CFParameter.name (toParameter table) ++ "}:GetAtt:"
                     ++ Table.tableName table ++ "Table:") ++ attribute ] ] in
  toNameExpression table = import "Name" /\
  toArnExpression table = import "Arn" /\
  toStreamArnExpression table = import "StreamArn" /\
  CFVariableDefinition.block
    (toVariable (OfTableNameVariable (TableNameVariable.mk table)))
    = toNameExpression table /\
  prop "Resource"
    (toPolicyStatement (OfTablePermission (TablePermission.mk table actions)))
    = Some (arr [ obj [ "Fn::Sub" ~>
                    arr [ "arn:aws:dynamodb:${region}:${account}:table/${tableName}";
                          obj [ "region" ~> obj [ "Ref" ~> "AWS::Region" ];
                                "account" ~> obj [ "Ref" ~> "AWS::AccountId" ];
                                "tableName" ~> toNameExpression table ] ] ] ]) /\
  map (@deref _)
      (evalAlloc
         (toParameters (OfTablePermission (TablePermission.mk table actions))))
    = [toParameter table] /\
  map (@deref _)
      (evalAlloc
         (toParameters (OfTableNameVariable (TableNameVariable.mk table))))
    = [toParameter table].
Proof.
  cbv zeta. simpl. repeat (rewrite !append_assoc; simpl).
  repeat split.
Qed.

(** X13: the statement of a UserPoolPermission allows, in the order of its
    actions, "cognito-idp:" followed by each action, a mapping that tells
    the actions apart, on the user pool whose id is read from the one
    parameter the permission asks for. *)
Theorem user_pool_statement (u : UserPoolPermission.t) :
  let parameter := "auth" ++ UserPool.authName (UserPoolPermission.userPool u)
                   ++ "UserPoolId" in
  prop "Action" (toPolicyStatement (OfUserPoolPermission u))
    = Some (strings (map (fun a => "cognito-idp:" ++ UserPoolAction_string a)
                         (UserPoolPermission.actions u))) /\
  (forall a b, policyActionForUserPoolAction a = policyActionForUserPoolAction b ->
               a = b) /\
  prop "Resource" (toPolicyStatement (OfUserPoolPermission u))
    = Some (obj [ "Fn::Sub" ~>
              arr [ "arn:aws:cognito-idp:${region}:${account}:userpool/${userPoolId}";
                    obj [ "region" ~> obj [ "Ref" ~> "AWS::Region" ];
                          "account" ~> obj [ "Ref" ~> "AWS::AccountId" ];
                          "userPoolId" ~> obj [ "Ref" ~> parameter ] ] ] ]) /\
  map (@deref _) (evalAlloc (toParameters (OfUserPoolPermission u)))
    = [CFParameter.mk parameter None] /\
  toOutputReferences (OfUserPoolPermission u)
    = [ResourceOutputReference.mk "auth"
         (UserPool.authName (UserPoolPermission.userPool u)) "UserPoolId"].
Proof.
  cbv zeta. repeat split.
  - simpl. f_equal. f_equal. apply map_ext. now intros [].
  - intros [] []; simpl; intros H; try reflexivity; discriminate H.
Qed.

(** X14: the statement of an IAMActionPermission allows its actions as
    they are, on its resources in their order: a string as it is, a
    reference as the Ref of its parameter; the permission asks for the
    parameters of its references and for nothing when all its resources are
    strings. *)
Theorem iam_action_statement (i : IAMActionPermission.t) :
  let references :=
    filter_isResourceOutputReference (IAMActionPermission.resources i) in
  prop "Action" (toPolicyStatement (OfIAMActionPermission i))
    = Some (strings (IAMActionPermission.actions i)) /\
  (exists resources,
     prop "Resource" (toPolicyStatement (OfIAMActionPermission i))
       = Some (VArray resources) /\
     length resources = length (IAMActionPermission.resources i) /\
     forall n resource,
       nth_error (IAMActionPermission.resources i) n = Some resource ->
       nth_error resources n
       = Some match resource with
              | inl s => VString s
              | inr r =>
                  obj [ "Ref" ~> ResourceOutputReference.category r
                                 ++ ResourceOutputReference.resource r
                                 ++ ResourceOutputReference.output r ]
              end) /\
  map (@deref _) (evalAlloc (toParameters (OfIAMActionPermission i)))
    = map toParameter references /\
  toOutputReferences (OfIAMActionPermission i) = references /\
  ((forall resource, In resource (IAMActionPermission.resources i) ->
                     isResourceOutputReference resource = false) ->
   references = []).
Proof.
  cbv zeta. split; [reflexivity|]. split; [|split; [|split]].
  - eexists. split; [reflexivity|]. split; [apply length_map|].
    intros n resource H. rewrite nth_error_map, H. now destruct resource.
  - unfold evalAlloc.
    change (toParameters (OfIAMActionPermission i))
      with (mapM (fun ref => new (toParameter ref))
                 (filter_isResourceOutputReference
                    (IAMActionPermission.resources i))).
    rewrite (allocates_mapM_new toParameter
               (filter_isResourceOutputReference (IAMActionPermission.resources i)) 0).
    apply deref_refs_from.
  - reflexivity.
  - induction (IAMActionPermission.resources i) as [|[s | r] rs IH];
      intros H; simpl; auto.
    + apply IH. intros resource Hin. apply H. now right.
    + specialize (H (inr r) (or_introl eq_refl)). discriminate H.
Qed.

(** X15: the parameter names of tables and user pools tell the resources
    apart: two tables share a parameter exactly when they are of the same
    API, two user pools exactly when they have the same name, a table never
    shares one with a user pool, and neither is named env or resourceName. *)
Theorem parameter_names_distinct
  (table table' : Table.t) (pool pool' : UserPool.t) :
  let table_name t := CFParameter.name (toParameter t) in
  let pool_name p :=
    CFParameter.name (toParameter (userPoolOutputReference p "UserPoolId")) in
  (table_name table = table_name table'
   <-> Table.apiName table = Table.apiName table') /\
  (pool_name pool = pool_name pool'
   <-> UserPool.authName pool = UserPool.authName pool') /\
  table_name table <> pool_name pool /\
  ~ In (table_name table) ["env"; "resourceName"] /\
  ~ In (pool_name pool) ["env"; "resourceName"].
Proof.
  cbv zeta. simpl. repeat split.
  - intros H. injection H as H. now apply append_cancel_r in H.
  - now intros ->.
  - intros H. injection H as H. now apply append_cancel_r in H.
  - now intros ->.
  - discriminate.
  - intros [H | [H | []]]; discriminate H.
  - intros [H | [H | []]]; discriminate H.
Qed.

(** X19: the statement of a SendMailPermission allows ses:SendEmail on the
    value of its identity parameter; the permission asks for that parameter
    with the default of the identity and discovers no reference, and the
    document of a definition that holds the permission declares the
    parameter exactly when its name is not [__proto__]. *)
Theorem send_mail_identity_declared
  (handlerDir : string) (metadata : LambdaFunction.t)
  (s : SendMailPermission.t) :
  In (OfSendMailPermission s) (LambdaFunction.permissions metadata) ->
  let identity := SendMailPermission.identity s in
  prop "Action" (toPolicyStatement (OfSendMailPermission s))
    = Some (arr [ "ses:SendEmail" ]) /\
  prop "Resource" (toPolicyStatement (OfSendMailPermission s))
    = Some (obj [ "Fn::Sub" ~> "${" ++ Param.name identity ++ "}" ]) /\
  map (@deref _) (evalAlloc (toParameters (OfSendMailPermission s)))
    = [CFParameter.mk (Param.name identity) (Param.defaultValue identity)] /\
  toOutputReferences (OfSendMailPermission s) = [] /\
  exists doc Parameters,
    cfTemplate handlerDir metadata = Some doc /\
    prop "Parameters" doc = Some (VObject Parameters) /\
    (In (Param.name identity) (keys Parameters)
     <-> Param.name identity <> "__proto__").
Proof.
  intros Hs identity.
  split; [reflexivity|]. split; [reflexivity|].
  split; [reflexivity|]. split; [reflexivity|].
  assemble metadata.
  eexists. eexists. split; [reflexivity|]. split; [reflexivity|].
  split.
  { intros Hin Hname. rewrite Hname in Hin.
    apply get_field_None in Hin; [exact Hin|].
    now rewrite get_add_parameters_proto. }
  intros Hname.
  apply add_parameters_keys. left. split; [|exact Hname].
  change (Param.name identity)
    with (CFParameter.name
            (parameter_of_value (OfParameter (SendMailPermission.identity s)))).
  apply in_map. unfold collected.
  apply in_or_app. right. apply in_or_app. left.
  apply in_flat_map. exists (OfSendMailPermission s). split; [exact Hs|].
  now left.
Qed.

Lemma send_mail_identity_declared_witness :
  let s := SendMailPermission.mk (Param.mk "sender" (Some "a@example.com")) in
  let metadata :=
    LambdaFunction.mk
      [ OfTablePermission
          (TablePermission.mk (Table.mk "api1" "Notes") [ReadItem]);
        OfSendMailPermission s ]
      [] None in
  In (OfSendMailPermission s) (LambdaFunction.permissions metadata) /\
  prop "Action" (toPolicyStatement (OfSendMailPermission s))
    = Some (arr [ "ses:SendEmail" ]) /\
  prop "Resource" (toPolicyStatement (OfSendMailPermission s))
    = Some (obj [ "Fn::Sub" ~> "${sender}" ]) /\
  map (@deref _) (evalAlloc (toParameters (OfSendMailPermission s)))
    = [CFParameter.mk "sender" (Some "a@example.com")] /\
  toOutputReferences (OfSendMailPermission s) = [] /\
  exists doc Parameters,
    cfTemplate "fn" metadata = Some doc /\
    prop "Parameters" doc = Some (VObject Parameters) /\
    (In "sender" (keys Parameters) <-> "sender" <> "__proto__").
Proof.
  intros s metadata.
  assert (Hs : In (OfSendMailPermission s) (LambdaFunction.permissions metadata))
    by (right; left; reflexivity).
  split; [exact Hs|].
  exact (@send_mail_identity_declared "fn" metadata s Hs).
Defined.

(** X20: the DependsOn of the resources.  lambdaexecutionpolicy and
    LambdaTriggerPolicy depend on exactly [LambdaExecutionRole],
    LambdaEventSourceMapping on exactly
    [LambdaTriggerPolicy, LambdaExecutionRole], and no other resource has
    a DependsOn; the execution policy is always there, the trigger policy
    and the mapping whenever there is an event source.  Hence every
    DependsOn lists resources of the same document other than the resource
    itself. *)
Theorem DependsOn_resolves (handlerDir : string) (metadata : LambdaFunction.t) :
  exists doc Resources,
    cfTemplate handlerDir metadata = Some doc /\
    prop "Resources" doc = Some (VObject Resources) /\
    (forall name resource,
       get_field name Resources = Some resource ->
       prop "DependsOn" resource =
       if String.eqb name "lambdaexecutionpolicy"
          || String.eqb name "LambdaTriggerPolicy"
       then Some (arr [ "LambdaExecutionRole" ])
       else if String.eqb name "LambdaEventSourceMapping"
       then Some (arr [ "LambdaTriggerPolicy"; "LambdaExecutionRole" ])
       else None) /\
    In "lambdaexecutionpolicy" (keys Resources) /\
    (LambdaFunction.eventSource metadata <> None ->
     In "LambdaTriggerPolicy" (keys Resources) /\
     In "LambdaEventSourceMapping" (keys Resources)) /\
    (forall name resource dependencies,
       get_field name Resources = Some resource ->
       prop "DependsOn" resource = Some dependencies ->
       exists names,
         dependencies = strings names /\
         ~ In name names /\
         incl names (keys Resources)).
Proof.
  assemble metadata.
  destruct (LambdaFunction.eventSource metadata) as [t|];
    (eexists; eexists; split; [reflexivity|]; split; [reflexivity|]);
    (split; [|split; [|split]]).
  - intros name resource Hget. apply get_field_pair in Hget. cbn in Hget.
    repeat (destruct Hget as [Hget | Hget];
            [injection Hget as <- <-; reflexivity|]).
    destruct Hget.
  - cbn. tauto.
  - intros _. cbn. tauto.
  - intros name resource dependencies Hget Hdep.
    apply get_field_pair in Hget. cbn in Hget.
    repeat (destruct Hget as [Hget | Hget];
            [injection Hget as <- <-; cbn in Hdep;
             try discriminate Hdep; injection Hdep as <-|]);
      try destruct Hget;
      first [ exists ["LambdaExecutionRole"]; split; [reflexivity|]
            | exists ["LambdaTriggerPolicy"; "LambdaExecutionRole"];
              split; [reflexivity|] ];
      (split;
       [ cbn; intros H; repeat (destruct H as [H | H]; [discriminate H|]);
         exact H
       | intros k Hk; cbn in Hk |- *;
         repeat (destruct Hk as [<- | Hk]; [tauto|]); destruct Hk ]).
  - intros name resource Hget. apply get_field_pair in Hget. cbn in Hget.
    repeat (destruct Hget as [Hget | Hget];
            [injection Hget as <- <-; reflexivity|]).
    destruct Hget.
  - cbn. tauto.
  - intros H. now destruct H.
  - intros name resource dependencies Hget Hdep.
    apply get_field_pair in Hget. cbn in Hget.
    repeat (destruct Hget as [Hget | Hget];
            [injection Hget as <- <-; cbn in Hdep;
             try discriminate Hdep; injection Hdep as <-|]);
      try destruct Hget;
      exists ["LambdaExecutionRole"]; (split; [reflexivity|]);
      (split;
       [ cbn; intros H; repeat (destruct H as [H | H]; [discriminate H|]);
         exact H
       | intros k Hk; cbn in Hk |- *;
         repeat (destruct Hk as [<- | Hk]; [tauto|]); destruct Hk ]).
Qed.
